(** * Session management of Shipping Manager CoPilot (helper/get_session.py)

    A shallow embedding of the cross-platform session helper: the credential
    vault (OS keyring with the XOR/base64 obfuscation fallback), the session
    store (sessions.json), the remote validator, the Selenium polling loop of
    the browser login and the selection/refresh loop of [main].

    Python values are modelled as follows.
    - [str] is a list of Unicode code points (Python strings may hold lone
      surrogates, which UTF-8 refuses to encode); [bytes] is a list of
      integers in 0..255.
    - [None] is [None]; a value that may be [None] has an [option] type; a
      key of a JSON object that [dict.get] reads with a default is a [slot]:
      absent, null or holding a value.
    - a [try/except] is a match on a result that may be [Raise]. *)

From Stdlib Require Import ZArith Lia List Bool String Ascii DecimalString Sorted.
From Stdlib.Strings Require Import Byte.
From stdpp Require Import base option list gmap.

Open Scope Z_scope.

(** ** Python strings and bytes *)

Module Py.

Abbreviation str := (list Z).
Abbreviation bytes := (list Z).

(** A string literal of the source, as code points. *)
Definition lit (s : string) : str :=
  map (fun a => Z.of_N (N_of_ascii a)) (list_ascii_of_string s).

(** [s.startswith(prefix)] *)
Fixpoint startswith (s prefix : str) {struct prefix} : bool :=
  match prefix with
  | [] => true
  | p :: prefix' =>
    match s with
    | c :: s' => (c =? p) && startswith s' prefix'
    | [] => false
    end
  end.

(** ['_' in s] *)
Definition has_underscore (s : str) : bool := existsb (Z.eqb 95) s.

(** Truth value of a string ([""] is falsy) and of a value that may be [None]. *)
Definition truthy (s : str) : bool := negb (Nat.eqb (length s) 0).

Definition truthy_opt (o : option str) : bool :=
  match o with Some s => truthy s | None => false end.

Definition NONE_STR : str := Eval cbv in lit "None".

(** [str(x)] / [f"{x}"] of a value that is a string or [None]. *)
Definition str_of_opt (o : option str) : str :=
  match o with Some s => s | None => NONE_STR end.

(** A JSON scalar used as an account id: the service sends numbers, the
    dialogs send back the strings they were shown. *)
Inductive idval := IdInt (z : Z) | IdStr (s : str).

(** [str(z)] of an integer: its decimal digits. *)
Definition str_of_Z (z : Z) : str :=
  lit (DecimalString.NilZero.string_of_int (Z.to_int z)).

Definition str_of_id (i : idval) : str :=
  match i with IdInt z => str_of_Z z | IdStr s => s end.

Definition str_of_opt_id (o : option idval) : str :=
  match o with Some i => str_of_id i | None => NONE_STR end.

Definition truthy_id (o : option idval) : bool :=
  match o with
  | Some (IdInt z) => negb (z =? 0)
  | Some (IdStr s) => truthy s
  | None => false
  end.

(** A key of a JSON object as the code reads it: the key is absent, it
    holds null, or it holds a value. *)
Inductive slot (A : Type) := Absent | Null | Holds (a : A).
Arguments Absent {A}.
Arguments Null {A}.
Arguments Holds {A} a.

(** [d.get(key)] *)
Definition get {A} (f : slot A) : option A :=
  match f with Holds a => Some a | Absent | Null => None end.

(** [d.get(key, default)]: the default stands in for an absent key only; a
    key that holds null gives [None]. *)
Definition get_or {A} (f : slot A) (default : option A) : option A :=
  match f with Absent => default | Null => None | Holds a => Some a end.

(** The value stored for a Python value that may be [None]. *)
Definition slot_of {A} (o : option A) : slot A :=
  match o with Some a => Holds a | None => Null end.

(** A JSON value that is not an object, as far as the code tells such
    values apart (by their truth value and by whether [len()] applies); the
    items of an array are never read, so an array is given by its length. *)
Inductive json_other :=
| JNull | JBool (b : bool) | JNumber (z : Z) | JString (s : str)
| JArray (n : nat).

Definition truthy_json (v : json_other) : bool :=
  match v with
  | JNull => false
  | JBool b => b
  | JNumber z => negb (z =? 0)
  | JString s => truthy s
  | JArray n => negb (Nat.eqb n 0)
  end.

(** [len(v)] is defined for strings and arrays. *)
Definition has_len (v : json_other) : bool :=
  match v with JString _ | JArray _ => true | _ => false end.

(** Exceptions that the modelled code can meet. *)
Inductive exn :=
| PasswordDeleteError | KeyringError | OSError | AttributeError
| UnicodeError | ValueError | BinasciiError | TypeError.

Inductive res (A : Type) := Ok (a : A) | Raise (e : exn).
Arguments Ok {A} a.
Arguments Raise {A} e.

Definition rbind {A B} (x : res A) (f : A -> res B) : res B :=
  match x with Ok a => f a | Raise e => Raise e end.

Definition of_option {A} (e : exn) (o : option A) : res A :=
  match o with Some a => Ok a | None => Raise e end.

End Py.
Import Py.

Notation "'try!' x '<-' c ';' k" := (rbind c (fun x => k))
  (at level 10, x name, c at level 100, k at level 200).

(** ** Codecs of the standard library used by the fallback obfuscation *)

Module Codec.

(** *** UTF-8 ([str.encode()] and [bytes.decode()], strict) *)

Definition utf8_encode_char (c : Z) : option bytes :=
  if c <? 0 then None
  else if c <? 0x80 then Some [c]
  else if c <? 0x800 then Some [0xC0 + c / 64; 0x80 + c mod 64]
  else if c <? 0x10000 then
    if (0xD800 <=? c) && (c <=? 0xDFFF) then None
    else Some [0xE0 + c / 4096; 0x80 + (c / 64) mod 64; 0x80 + c mod 64]
  else if c <? 0x110000 then
    Some [0xF0 + c / 262144; 0x80 + (c / 4096) mod 64;
          0x80 + (c / 64) mod 64; 0x80 + c mod 64]
  else None.

Fixpoint utf8_encode (s : str) : option bytes :=
  match s with
  | [] => Some []
  | c :: s' =>
    match utf8_encode_char c, utf8_encode s' with
    | Some e, Some r => Some (e ++ r)
    | _, _ => None
    end
  end.

Definition is_cont (b : Z) : bool := (0x80 <=? b) && (b <? 0xC0).

Fixpoint utf8_decode (bs : bytes) : option str :=
  match bs with
  | [] => Some []
  | b0 :: r0 =>
    if b0 <? 0 then None
    else if b0 <? 0x80 then cons b0 <$> utf8_decode r0
    else if b0 <? 0xC0 then None
    else if b0 <? 0xE0 then
      match r0 with
      | b1 :: r1 =>
        let c := (b0 - 0xC0) * 64 + (b1 - 0x80) in
        if is_cont b1 && (0x80 <=? c)
        then cons c <$> utf8_decode r1 else None
      | _ => None
      end
    else if b0 <? 0xF0 then
      match r0 with
      | b1 :: b2 :: r2 =>
        let c := (b0 - 0xE0) * 4096 + (b1 - 0x80) * 64 + (b2 - 0x80) in
        if is_cont b1 && is_cont b2 && (0x800 <=? c)
           && negb ((0xD800 <=? c) && (c <=? 0xDFFF))
        then cons c <$> utf8_decode r2 else None
      | _ => None
      end
    else if b0 <? 0xF8 then
      match r0 with
      | b1 :: b2 :: b3 :: r3 =>
        let c := (b0 - 0xF0) * 262144 + (b1 - 0x80) * 4096
                 + (b2 - 0x80) * 64 + (b3 - 0x80) in
        if is_cont b1 && is_cont b2 && is_cont b3
           && (0x10000 <=? c) && (c <? 0x110000)
        then cons c <$> utf8_decode r3 else None
      | _ => None
      end
    else None
  end.

(** *** Base64 ([base64.b64encode], [base64.b64decode] with validate=False) *)

Definition PAD : Z := 61.

(** The standard alphabet: A-Z a-z 0-9 + / *)
Definition b2a (n : Z) : Z :=
  if n <? 26 then 65 + n
  else if n <? 52 then 97 + (n - 26)
  else if n <? 62 then 48 + (n - 52)
  else if n =? 62 then 43 else 47.

Definition a2b (c : Z) : option Z :=
  if (65 <=? c) && (c <=? 90) then Some (c - 65)
  else if (97 <=? c) && (c <=? 122) then Some (c - 97 + 26)
  else if (48 <=? c) && (c <=? 57) then Some (c - 48 + 52)
  else if c =? 43 then Some 62
  else if c =? 47 then Some 63
  else None.

(** Three bytes give four characters; a short tail is padded with [=]. *)
Fixpoint b64encode (bs : bytes) : str :=
  match bs with
  | [] => []
  | [a] => [b2a (a / 4); b2a ((a mod 4) * 16); PAD; PAD]
  | [a; b] =>
    [b2a (a / 4); b2a ((a mod 4) * 16 + b / 16); b2a ((b mod 16) * 4); PAD]
  | a :: b :: c :: rest =>
    b2a (a / 4) :: b2a ((a mod 4) * 16 + b / 16)
    :: b2a ((b mod 16) * 4 + c / 64) :: b2a (c mod 64) :: b64encode rest
  end.

(** The decoder of binascii in its lenient mode: characters outside the
    alphabet are skipped, [quad_pos] counts the characters of the current
    group, [leftchar] holds the bits not yet written, and a padding run that
    completes a group ends the input. *)
Fixpoint a2b_base64 (cs : str) (quad_pos : nat) (leftchar : Z) (pads : nat)
  : res bytes :=
  match cs with
  | [] => if Nat.eqb quad_pos 0 then Ok [] else Raise BinasciiError
  | c :: cs' =>
    if c =? PAD then
      if Nat.leb 2 quad_pos then
        if Nat.leb 4 (quad_pos + S pads) then Ok []
        else a2b_base64 cs' quad_pos leftchar (S pads)
      else a2b_base64 cs' quad_pos leftchar pads
    else
      match a2b c with
      | None => a2b_base64 cs' quad_pos leftchar pads
      | Some v =>
        match quad_pos with
        | 0%nat => a2b_base64 cs' 1 v 0
        | 1%nat =>
          try! r <- a2b_base64 cs' 2 (v mod 16) 0; Ok ((leftchar * 4 + v / 16) :: r)
        | 2%nat =>
          try! r <- a2b_base64 cs' 3 (v mod 4) 0; Ok ((leftchar * 16 + v / 4) :: r)
        | _ =>
          try! r <- a2b_base64 cs' 0 0 0; Ok ((leftchar * 64 + v) :: r)
        end
      end
  end.

(** [base64.b64decode(s)] of a [str]: the text must be ASCII. *)
Definition b64decode (s : str) : res bytes :=
  if forallb (fun c => (0 <=? c) && (c <? 128)) s
  then a2b_base64 s 0 0 0
  else Raise ValueError.

(** *** The repeating-key XOR of the fallback:
    [bytes([b ^ key[i % len(key)] for i, b in enumerate(data)])] *)
Fixpoint xor_from (key : bytes) (i : nat) (data : bytes) : bytes :=
  match data with
  | [] => []
  | b :: data' =>
    Z.lxor b (nth (i mod length key) key 0) :: xor_from key (S i) data'
  end.

Definition xor_with (key data : bytes) : bytes := xor_from key 0 data.

Definition is_byte (b : Z) : Prop := 0 <= b < 256.

End Codec.

(** ** The credential vault: [encrypt_cookie], [decrypt_cookie], [is_encrypted] *)

Module Vault.
Import Codec.

Definition KEYRING_TAG : str := Eval cbv in lit "KEYRING:".
Definition V1_TAG : str := Eval cbv in lit "v1:".
Definition SESSION_PREFIX : str := Eval cbv in lit "session_".
Definition APP_PLATFORM_PREFIX : str := Eval cbv in lit "app_platform_".
Definition APP_VERSION_PREFIX : str := Eval cbv in lit "app_version_".

(** [hashlib.sha256(machine_id.encode()).digest()]: 32 bytes. The hash
    function itself is not modelled; the digest of this machine is given. *)
Record digest := {
  digest_bytes : list byte;
  digest_len : length digest_bytes = 32%nat
}.

Definition key_of (d : digest) : bytes :=
  map (fun b => Z.of_N (Byte.to_N b)) (digest_bytes d).

(** What the encryption helpers see of the machine.
    - [keyring_available]: the flag KEYRING_AVAILABLE (the import succeeded);
    - [keyring_faulty]: the backend raises on every operation;
    - [keyring]: the passwords stored under SERVICE_NAME, by account name;
    - [fingerprint]: the digest of node + login + system, [None] when
      building the machine id raises (os.getlogin() without a terminal). *)
Record vault := {
  keyring_available : bool;
  keyring_faulty : bool;
  keyring : gmap (list Z) (list Z);
  fingerprint : option digest
}.

Definition with_keyring (v : vault) (k : gmap (list Z) (list Z)) : vault :=
  {| keyring_available := keyring_available v;
     keyring_faulty := keyring_faulty v;
     keyring := k;
     fingerprint := fingerprint v |}.

Definition delete_password (v : vault) (name : str) : res vault :=
  if keyring_faulty v then Raise KeyringError
  else match keyring v !! name with
       | Some _ => Ok (with_keyring v (delete name (keyring v)))
       | None => Raise PasswordDeleteError
       end.

Definition set_password (v : vault) (name password : str) : res vault :=
  if keyring_faulty v then Raise KeyringError
  else Ok (with_keyring v (<[name := password]> (keyring v))).

Definition get_password (v : vault) (name : str) : res (option str) :=
  if keyring_faulty v then Raise KeyringError
  else Ok (keyring v !! name).

(** The account name under which [encrypt_cookie] files a secret. *)
Definition account_name_of (user_id_or_account_name : str) : str :=
  if has_underscore user_id_or_account_name
  then user_id_or_account_name
  else SESSION_PREFIX ++ user_id_or_account_name.

(** The keyring branch of [encrypt_cookie] (its inner [try]). *)
Definition keyring_store (v : vault) (account_name : str) (cookie : option str)
  : res (str * vault) :=
  try! v1 <- match delete_password v account_name with
             | Raise PasswordDeleteError => Ok v
             | r => r
             end;
  try! v2 <- set_password v1 account_name (str_of_opt cookie);
  Ok (KEYRING_TAG ++ account_name, v2).

(** The fallback branch of [encrypt_cookie] (its second [try]). *)
Definition obfuscate (v : vault) (cookie : option str) : res str :=
  try! d <- of_option OSError (fingerprint v);
  try! s <- of_option AttributeError cookie;
  try! bs <- of_option UnicodeError (utf8_encode s);
  Ok (V1_TAG ++ b64encode (xor_with (key_of d) bs)).

(** [encrypt_cookie(cookie, user_id_or_account_name)]; the identity is given
    by its [str()], the only way the function reads it. The result is the
    stored reference and the vault after the call. *)
Definition encrypt_cookie (v : vault) (cookie : option str)
    (user_id_or_account_name : str) : option str * vault :=
  let account_name := account_name_of user_id_or_account_name in
  let fallback :=
    match obfuscate v cookie with
    | Ok r => (Some r, v)
    | Raise _ => (cookie, v)
    end in
  if keyring_available v then
    match keyring_store v account_name cookie with
    | Ok (r, v') => (Some r, v')
    | Raise _ => fallback
    end
  else fallback.

(** The [v1:] branch of [decrypt_cookie] (its [try]). *)
Definition deobfuscate (v : vault) (blob : str) : res str :=
  try! d <- of_option OSError (fingerprint v);
  try! bs <- b64decode blob;
  of_option UnicodeError (utf8_decode (xor_with (key_of d) bs)).

(** [decrypt_cookie(encrypted_data, user_id)]; [user_id] is not read. *)
Definition decrypt_cookie (v : vault) (encrypted_data : option str)
    (user_id : option str) : option str :=
  match encrypted_data with
  | None => None
  | Some data =>
    if negb (truthy data) then None
    else if startswith data KEYRING_TAG then
      if keyring_available v then
        match get_password v (drop 8 data) with
        | Ok password => password
        | Raise _ => None
        end
      else None
    else if startswith data V1_TAG then
      match deobfuscate v (drop 3 data) with
      | Ok s => Some s
      | Raise _ => None
      end
    else Some data
  end.

(** [is_encrypted(data)] *)
Definition is_encrypted (data : option str) : bool :=
  match data with
  | Some s => truthy s && (startswith s KEYRING_TAG || startswith s V1_TAG)
  | None => false
  end.

(** The three encrypted fields of a record and the identity that
    [save_session] hands to [encrypt_cookie] for each of them. *)
Inductive field := FCookie | FPlatform | FVersion.

Definition identity_arg (f : field) (user_id : str) : str :=
  match f with
  | FCookie => user_id
  | FPlatform => APP_PLATFORM_PREFIX ++ user_id
  | FVersion => APP_VERSION_PREFIX ++ user_id
  end.

Definition vault_identity (f : field) (user_id : str) : str :=
  account_name_of (identity_arg f user_id).

(** The round trip of a secret through the vault. *)
Definition roundtrip (v : vault) (secret identity : str) : Prop :=
  let '(reference, v') := encrypt_cookie v (Some secret) identity in
  decrypt_cookie v' reference (Some identity) = Some secret.

Definition keyring_usable (v : vault) : bool :=
  keyring_available v && negb (keyring_faulty v).

(** Sample values. *)
Definition zero_digest : digest :=
  {| digest_bytes := repeat x00 32; digest_len := eq_refl |}.

Definition vault_without_keyring : vault :=
  {| keyring_available := false; keyring_faulty := false;
     keyring := ∅; fingerprint := Some zero_digest |}.

Definition vault_with_keyring : vault :=
  {| keyring_available := true; keyring_faulty := false;
     keyring := ∅; fingerprint := Some zero_digest |}.

(** ["v1:"] followed by the lone surrogate U+D800. *)
Definition surrogate_secret : str := V1_TAG ++ [0xD800].

End Vault.

(** ** The world the helper runs in *)

Module World.
Import Vault.

(** One entry of sessions.json. Every key is read with [dict.get], so each
    field may be absent; [company_name], which [save_session] writes as it is
    given (a string or [None]), may also hold null. *)
Record session_record := {
  cookie : option str;
  timestamp : option Z;
  company_name : slot str;
  login_method : option str;
  app_platform : option str;
  app_version : option str
}.

(** A Python dict with string keys, in insertion order. *)
Abbreviation dict V := (list (str * V)).

Fixpoint dict_get {V} (k : str) (d : dict V) : option V :=
  match d with
  | [] => None
  | (k', v) :: d' => if decide (k' = k) then Some v else dict_get k d'
  end.

(** [d[k] = v]: a present key keeps its place, a new key goes last. *)
Fixpoint dict_set {V} (k : str) (v : V) (d : dict V) : dict V :=
  match d with
  | [] => [(k, v)]
  | (k', v') :: d' =>
    if decide (k' = k) then (k, v) :: d' else (k', v') :: dict_set k v d'
  end.

Definition keys {V} (d : dict V) : list str := map fst d.

(** The number of entries filed under a key. *)
Definition occurrences {V} (k : str) (d : dict V) : nat :=
  length (List.filter (fun x => bool_decide (x.1 = k)) d).

(** The state of SESSIONS_FILE. A file that parses holds a JSON value: a
    mapping from account ids to records, which is what [save_session]
    writes, or a value that is not an object. *)
Inductive document :=
| FileMissing
| FileUnreadable
| FileCorrupt
| FileSessions (d : dict session_record)
| FileValue (v : json_other).

(** [data['user']] of the answer of the service. *)
Record profile := {
  profile_id : option idval;
  profile_company_name : slot str
}.

Inductive body := BadBody | NoUser | User (p : profile).

(** The outcome of [requests.post]: an exception, or a status and a body. *)
Inductive response := RequestFailed | Http (status : Z) (b : body).

(** A cookie of the browser's jar, and a dict of cookies as
    [browser_login] returns it and [save_session] reads it. *)
Record jar_cookie := { name : str; value : str }.

Record cookie_dict := {
  shipping_manager_session : option str;
  cd_app_platform : option str;
  cd_app_version : option str
}.

(** What a poll of the login loop finds: the window is gone
    ([driver.current_url] raises), the jar cannot be read
    ([driver.get_cookies()] raises), or the jar. *)
Inductive observation :=
| WindowClosed
| CookiesUnavailable
| Cookies (jar : list jar_cookie).

(** One browser session, as the Selenium driver presents it. *)
Record browser := {
  driver_found : bool;
  navigation_ok : bool;
  poll : nat -> observation;
  overlay_ok : bool;
  final_cookies : option (list jar_cookie)
}.

(** The lines written to sys.stderr that tell an outcome; progress lines
    (the ones marked [*]) are not recorded. *)
Inductive diag :=
| DLoadError | DSaved (user_id : str) | DSaveError
| DCannotDecryptWithoutUserId | DValidationError
| DCredentialMissing (user_id : str) | DExpired (user_id : str)
| DBrowserUnavailable | DBrowserClosed | DPollError | DLoginTimeout
| DOverlayFailed | DExtractFailed | DCriticalError
| DSelectionCancelled | DRefreshed | DWrongAccount | DFailedToGetCookie
| DSessionDataNotFound | DInvalidSelectorResult
| DLoginFailed | DValidationFailed.

(** What stays fixed during a run: the remote service (its answer may depend
    on the requests made so far), the browser sessions that successive
    logins open, and [urllib.parse.unquote]. *)
Record env := {
  remote : list str -> str -> response;
  browsers : nat -> browser;
  unquote : str -> str
}.

(** What a run changes. The clock counts milliseconds and advances in
    [time.sleep] only. *)
Record world := {
  disk : document;
  disk_writable : bool;
  vault_of : vault;
  clock : Z;
  requests : list str;
  logins : nat;
  stdout : list str;
  stderr : list diag
}.

Definition with_disk (w : world) (d : document) : world :=
  {| disk := d; disk_writable := disk_writable w; vault_of := vault_of w;
     clock := clock w; requests := requests w; logins := logins w;
     stdout := stdout w; stderr := stderr w |}.

Definition with_vault (w : world) (v : vault) : world :=
  {| disk := disk w; disk_writable := disk_writable w; vault_of := v;
     clock := clock w; requests := requests w; logins := logins w;
     stdout := stdout w; stderr := stderr w |}.

Definition sleep (ms : Z) (w : world) : world :=
  {| disk := disk w; disk_writable := disk_writable w; vault_of := vault_of w;
     clock := clock w + ms; requests := requests w; logins := logins w;
     stdout := stdout w; stderr := stderr w |}.

Definition sent (header : str) (w : world) : world :=
  {| disk := disk w; disk_writable := disk_writable w; vault_of := vault_of w;
     clock := clock w; requests := requests w ++ [header]; logins := logins w;
     stdout := stdout w; stderr := stderr w |}.

Definition login_started (w : world) : world :=
  {| disk := disk w; disk_writable := disk_writable w; vault_of := vault_of w;
     clock := clock w; requests := requests w; logins := S (logins w);
     stdout := stdout w; stderr := stderr w |}.

Definition print (line : str) (w : world) : world :=
  {| disk := disk w; disk_writable := disk_writable w; vault_of := vault_of w;
     clock := clock w; requests := requests w; logins := logins w;
     stdout := stdout w ++ [line]; stderr := stderr w |}.

Definition log (d : diag) (w : world) : world :=
  {| disk := disk w; disk_writable := disk_writable w; vault_of := vault_of w;
     clock := clock w; requests := requests w; logins := logins w;
     stdout := stdout w; stderr := stderr w ++ [d] |}.

(** The session store (the document and the vault) and the primary output
    are the same in both worlds. *)
Definition untouched (w w' : world) : Prop :=
  disk w' = disk w /\ disk_writable w' = disk_writable w /\
  vault_of w' = vault_of w /\ stdout w' = stdout w.

(** [requests.post] to the validation endpoint with the given Cookie header. *)
Definition post (e : env) (header : str) (w : world) : response * world :=
  (remote e (requests w) header, sent header w).

End World.

(** ** The session store: [load_sessions], [save_session] *)

Module Store.
Import Vault World.

Definition UNKNOWN : str := Eval cbv in lit "Unknown".
Definition BROWSER : str := Eval cbv in lit "browser".

(** What [json.load] gives: a mapping of records, or another value. *)
Inductive loaded :=
| Sessions (d : dict session_record)
| Other (v : json_other).

(** [not sessions] is false. *)
Definition truthy_loaded (sessions : loaded) : bool :=
  match sessions with
  | Sessions [] => false
  | Sessions _ => true
  | Other v => truthy_json v
  end.

(** The records of what was loaded: those of a mapping; a value that is not
    a mapping has none. *)
Definition records (sessions : loaded) : dict session_record :=
  match sessions with
  | Sessions d => d
  | Other _ => []
  end.

(** The body of the [try] of [load_sessions]. *)
Definition read_sessions (d : document) : res loaded :=
  match d with
  | FileMissing => Ok (Sessions [])
  | FileUnreadable => Raise OSError
  | FileCorrupt => Raise ValueError
  | FileSessions s => Ok (Sessions s)
  | FileValue v => Ok (Other v)
  end.

(** [load_sessions()] *)
Definition load_sessions (w : world) : loaded * world :=
  match read_sessions (disk w) with
  | Ok s => (s, w)
  | Raise _ => (Sessions [], log DLoadError w)
  end.

(** The cookie argument of [save_session] and [validate_session_cookie]:
    a dict of cookies, or anything else (a string or [None]). *)
Inductive cookie_arg := Bundle (d : cookie_dict) | Plain (c : option str).

(** [x if given else default] of [dict.get(key, default)]. *)
Definition get_default {A} (o : option A) (default : A) : A :=
  match o with Some a => a | None => default end.

(** The record that [save_session] builds, with the vault after the
    encryptions. [now] is [time.time()] in milliseconds; [int()] drops the
    fraction of the seconds, towards zero. *)
Definition build_record (v : vault) (now : Z) (user_id : str) (cookie : cookie_arg)
    (company_name : option str) (login_method : str)
    (app_platform app_version : option str)
  : session_record * vault :=
  let '(shipping_cookie, app_platform, app_version) :=
    match cookie with
    | Bundle d =>
      (shipping_manager_session d,
       match cd_app_platform d with Some p => Some p | None => app_platform end,
       match cd_app_version d with Some p => Some p | None => app_version end)
    | Plain c => (c, app_platform, app_version)
    end in
  let '(encrypted_cookie, v1) := encrypt_cookie v shipping_cookie user_id in
  let '(platform_field, v2) :=
    if truthy_opt app_platform
    then encrypt_cookie v1 app_platform (APP_PLATFORM_PREFIX ++ user_id)
    else (None, v1) in
  let '(version_field, v3) :=
    if truthy_opt app_version
    then encrypt_cookie v2 app_version (APP_VERSION_PREFIX ++ user_id)
    else (None, v2) in
  ({| cookie := encrypted_cookie;
      timestamp := Some (now ÷ 1000);
      company_name := slot_of company_name;
      login_method := Some login_method;
      app_platform := platform_field;
      app_version := version_field |}, v3).

(** [save_session(user_id, cookie, company_name, login_method,
    app_platform, app_version)]; [user_id] is given by its [str()]. Every
    exception ends in the handler that logs it: the [TypeError] of
    [sessions[str(user_id)] = session_data] when what was loaded is not a
    mapping, the [OSError] of a disk that cannot be written, the
    [AttributeError] of [encrypted_cookie.startswith] on [None]. *)
Definition save_session (user_id : str) (cookie : cookie_arg)
    (company_name : option str) (login_method : str)
    (app_platform app_version : option str)
    (w : world) : world :=
  let '(sessions, w1) := load_sessions w in
  let '(session_data, v) :=
    build_record (vault_of w1) (clock w1) user_id cookie company_name
      login_method app_platform app_version in
  let w2 := with_vault w1 v in
  match sessions with
  | Other _ => log DSaveError w2
  | Sessions sessions =>
    let sessions := dict_set user_id session_data sessions in
    if disk_writable w2 then
      let w3 := sleep 500 (with_disk w2 (FileSessions sessions)) in
      match World.cookie session_data with
      | Some _ => log (DSaved user_id) w3
      | None => log DSaveError w3
      end
    else log DSaveError w2
  end.

End Store.

(** ** The validator: [validate_session_cookie], [validate_all_sessions],
    [get_expired_sessions_with_methods] *)

Module Validator.
Import Vault World Store.

Definition TARGET_COOKIE_NAME : str := Eval cbv in lit "shipping_manager_session".
Definition APP_PLATFORM : str := Eval cbv in lit "app_platform".
Definition APP_VERSION : str := Eval cbv in lit "app_version".
Definition EQUALS : str := Eval cbv in lit "=".
Definition PLATFORM_PART : str := Eval cbv in lit "; app_platform=".
Definition VERSION_PART : str := Eval cbv in lit "; app_version=".
Definition UNKNOWN_METHOD : str := Eval cbv in lit "unknown".

(** The Cookie header of the validation request. *)
Definition cookie_header (session_cookie app_platform app_version : option str)
  : str :=
  TARGET_COOKIE_NAME ++ EQUALS ++ str_of_opt session_cookie
  ++ (if truthy_opt app_platform
      then PLATFORM_PART ++ str_of_opt app_platform else [])
  ++ (if truthy_opt app_version
      then VERSION_PART ++ str_of_opt app_version else []).

(** Status 200 and a user with a truthy id. *)
Definition accepted (r : response) : option profile :=
  match r with
  | Http status (User p) =>
    if (status =? 200) && truthy_id (profile_id p) then Some p else None
  | _ => None
  end.

(** The [try] of [validate_session_cookie]: the request and its reading. *)
Definition check_remote (e : env) (session_cookie app_platform app_version : option str)
    (w : world) : option profile * world :=
  let '(r, w1) :=
    post e (cookie_header session_cookie app_platform app_version) w in
  match r with
  | RequestFailed => (None, log DValidationError w1)
  | Http status BadBody =>
    if status =? 200 then (None, log DValidationError w1) else (None, w1)
  | _ => (accepted r, w1)
  end.

(** [validate_session_cookie(cookie, user_id=None)] *)
Definition validate_session_cookie (e : env) (cookie : cookie_arg)
    (user_id : option str) (w : world) : option profile * world :=
  match cookie with
  | Bundle d =>
    check_remote e (shipping_manager_session d) (cd_app_platform d)
      (cd_app_version d) w
  | Plain c =>
    if is_encrypted c then
      if negb (truthy_opt user_id)
      then (None, log DCannotDecryptWithoutUserId w)
      else
        let cookie := decrypt_cookie (vault_of w) c user_id in
        if negb (truthy_opt cookie) then (None, w)
        else check_remote e cookie None None w
    else check_remote e c None None w
  end.

(** [get_user_from_cookie(cookie)] *)
Definition get_user_from_cookie (e : env) (cookie : cookie_arg) (w : world)
  : option profile * world :=
  validate_session_cookie e cookie None w.

Record valid_session := {
  vs_user_id : str;
  vs_cookie : option str;
  vs_company_name : option str;
  vs_user_data : profile;
  vs_login_method : str
}.

Record expired_session := {
  es_user_id : str;
  es_company_name : option str;
  es_login_method : str
}.

(** [x[1].get('timestamp', 0)] *)
Definition sort_key (x : str * session_record) : Z :=
  get_default (timestamp x.2) 0.

(** [sorted(items, key=..., reverse=True)]: descending, and stable (items
    with equal keys keep their order). *)
Fixpoint insert_desc (x : str * session_record) (l : dict session_record)
  : dict session_record :=
  match l with
  | [] => [x]
  | y :: l' =>
    if sort_key x <? sort_key y then y :: insert_desc x l' else x :: l
  end.

Definition sorted_desc (l : dict session_record) : dict session_record :=
  foldr insert_desc [] l.

(** The body of the loop of [validate_all_sessions]. *)
Definition validate_one (e : env) (x : str * session_record)
    (valid_sessions : list valid_session) (w : world)
  : list valid_session * world :=
  let '(user_id, session_data) := x in
  let encrypted_cookie := cookie session_data in
  let company_name := get_or (company_name session_data) (Some UNKNOWN) in
  let login_method := get_default (login_method session_data) UNKNOWN_METHOD in
  let validate plaintext_cookie :=
    let '(user_data, w1) :=
      validate_session_cookie e (Plain plaintext_cookie) (Some user_id) w in
    match user_data with
    | Some p =>
      (valid_sessions ++
         [{| vs_user_id := user_id;
             vs_cookie := plaintext_cookie;
             vs_company_name := get_or (profile_company_name p) company_name;
             vs_user_data := p;
             vs_login_method := login_method |}], w1)
    | None => (valid_sessions, log (DExpired user_id) w1)
    end in
  if is_encrypted encrypted_cookie then
    let plaintext_cookie :=
      decrypt_cookie (vault_of w) encrypted_cookie (Some user_id) in
    if negb (truthy_opt plaintext_cookie)
    then (valid_sessions, log (DCredentialMissing user_id) w)
    else validate plaintext_cookie
  else validate encrypted_cookie.

Fixpoint validate_each (e : env) (items : dict session_record)
    (valid_sessions : list valid_session) (w : world)
  : list valid_session * world :=
  match items with
  | [] => (valid_sessions, w)
  | x :: items' =>
    let '(valid_sessions, w1) := validate_one e x valid_sessions w in
    validate_each e items' valid_sessions w1
  end.

(** [validate_all_sessions()]. A loaded value that is truthy and not a
    mapping ends the function with the exception of [len(sessions)] or of
    [sessions.items()], which nothing here catches. *)
Definition validate_all_sessions (e : env) (w : world)
  : res (list valid_session) * world :=
  let '(sessions, w1) := load_sessions w in
  if negb (truthy_loaded sessions) then (Ok [], w1)
  else
    match sessions with
    | Sessions sessions =>
      let '(valid_sessions, w2) :=
        validate_each e (sorted_desc sessions) [] w1 in
      (Ok valid_sessions, w2)
    | Other v => (Raise (if has_len v then AttributeError else TypeError), w1)
    end.

(** The body of the loop of [get_expired_sessions_with_methods]. *)
Definition expired_one (e : env) (x : str * session_record)
    (expired_with_methods : list expired_session) (w : world)
  : list expired_session * world :=
  let '(user_id, session_data) := x in
  let encrypted_cookie := cookie session_data in
  let company_name := get_or (company_name session_data) (Some UNKNOWN) in
  let '(user_data, w1) :=
    validate_session_cookie e (Plain encrypted_cookie) (Some user_id) w in
  match user_data with
  | Some _ => (expired_with_methods, w1)
  | None =>
    (expired_with_methods ++
       [{| es_user_id := user_id;
           es_company_name := company_name;
           es_login_method := BROWSER |}], w1)
  end.

Fixpoint expired_each (e : env) (items : dict session_record)
    (expired_with_methods : list expired_session) (w : world)
  : list expired_session * world :=
  match items with
  | [] => (expired_with_methods, w)
  | x :: items' =>
    let '(expired_with_methods, w1) := expired_one e x expired_with_methods w in
    expired_each e items' expired_with_methods w1
  end.

(** [get_expired_sessions_with_methods()]; [sessions.items()] raises on a
    truthy value that is not a mapping. *)
Definition get_expired_sessions_with_methods (e : env) (w : world)
  : res (list expired_session) * world :=
  let '(sessions, w1) := load_sessions w in
  if negb (truthy_loaded sessions) then (Ok [], w1)
  else
    match sessions with
    | Sessions sessions =>
      let '(expired_with_methods, w2) := expired_each e sessions [] w1 in
      (Ok expired_with_methods, w2)
    | Other _ => (Raise AttributeError, w1)
    end.

(** Items in the order of [sorted_desc]: no key grows along the list. *)
Definition descending : dict session_record -> Prop :=
  StronglySorted (fun a b => sort_key a >= sort_key b).

(** A stub service: its answer depends on the Cookie header alone. *)
Definition deterministic (e : env) : Prop :=
  forall header before before',
    remote e before header = remote e before' header.

(** The credential that a stored record stands for: the decryption of a
    tagged cookie, an untagged cookie as it is. *)
Definition plaintext_of (v : vault) (x : str * session_record) : option str :=
  if is_encrypted (cookie x.2)
  then decrypt_cookie v (cookie x.2) (Some x.1)
  else cookie x.2.

(** The record passes the liveness check: the service accepts its
    credential. *)
Definition live (e : env) (v : vault) (x : str * session_record) : bool :=
  match accepted (remote e [] (cookie_header (plaintext_of v x) None None)) with
  | Some _ => true
  | None => false
  end.

(** A record with a tagged cookie has a non-empty account id and decrypts
    to a non-empty credential that carries no tag of its own. *)
Definition well_kept (v : vault) (x : str * session_record) : Prop :=
  is_encrypted (cookie x.2) = true ->
  truthy x.1 = true /\
  truthy_opt (plaintext_of v x) = true /\
  is_encrypted (plaintext_of v x) = false.

(** The timestamp stored for an account, 0 when there is none. *)
Definition stored_timestamp (sessions : dict session_record) (user_id : str) : Z :=
  match dict_get user_id sessions with
  | Some r => get_default (timestamp r) 0
  | None => 0
  end.

End Validator.

(** ** The browser login: [browser_login] *)

Module Browser.
Import Vault World Store Validator.

(** [max_wait = 300] seconds and the [time.sleep(2)] of the loop, in
    milliseconds. *)
Definition MAX_WAIT : Z := 300000.
Definition POLL_INTERVAL : Z := 2000.

(** The loop cannot run more often than this: every round that does not
    leave it sleeps for one poll interval. *)
Definition ROUNDS : nat := Z.to_nat (MAX_WAIT / POLL_INTERVAL) + 1.

(** Whitespace in the sense of [str.strip()]. *)
Definition is_space (c : Z) : bool :=
  ((9 <=? c) && (c <=? 13)) || ((28 <=? c) && (c <=? 32))
  || (c =? 0x85) || (c =? 0xA0) || (c =? 0x1680)
  || ((0x2000 <=? c) && (c <=? 0x200A))
  || (c =? 0x2028) || (c =? 0x2029) || (c =? 0x202F) || (c =? 0x205F)
  || (c =? 0x3000).

Fixpoint lstrip (s : str) : str :=
  match s with
  | c :: s' => if is_space c then lstrip s' else s
  | [] => []
  end.

Definition strip (s : str) : str := rev (lstrip (rev (lstrip s))).

(** [urllib.parse.unquote(raw).strip()] *)
Definition normalize (e : env) (raw : str) : str := strip (unquote e raw).

(** The first cookie of the jar named TARGET_COOKIE_NAME, normalized. *)
Definition find_target (e : env) (cookies : list jar_cookie) : option str :=
  match List.find (fun c => bool_decide (name c = TARGET_COOKIE_NAME)) cookies with
  | Some c => Some (normalize e (value c))
  | None => None
  end.

(** The validation inside the loop: status 200 and a user with a truthy id;
    anything else, an exception included, keeps the loop waiting. *)
Definition login_confirmed (r : response) : bool :=
  match accepted r with Some _ => true | None => false end.

Inductive wait_result :=
| Validated (cookie : str)
| WindowGone
| DeadlinePassed.

(** The [while time.time() - start_time < max_wait] loop; [n] counts the
    polls. [None]: the rounds given did not suffice. *)
Fixpoint wait_for_login (e : env) (b : browser) (rounds n : nat)
    (start_time : Z) (w : world) : option (wait_result * world) :=
  match rounds with
  | O => None
  | S rounds' =>
    if clock w - start_time <? MAX_WAIT then
      match poll b n with
      | WindowClosed => Some (WindowGone, log DBrowserClosed w)
      | CookiesUnavailable =>
        wait_for_login e b rounds' (S n) start_time
          (sleep POLL_INTERVAL (log DPollError w))
      | Cookies cookies =>
        match find_target e cookies with
        | Some temp_cookie =>
          if truthy temp_cookie then
            let '(r, w1) :=
              post e (TARGET_COOKIE_NAME ++ EQUALS ++ temp_cookie) w in
            if login_confirmed r
            then Some (Validated temp_cookie, w1)
            else wait_for_login e b rounds' (S n) start_time
                   (sleep POLL_INTERVAL w1)
          else wait_for_login e b rounds' (S n) start_time
                 (sleep POLL_INTERVAL w)
        | None =>
          wait_for_login e b rounds' (S n) start_time (sleep POLL_INTERVAL w)
        end
      end
    else Some (DeadlinePassed, w)
  end.

Definition no_cookies : cookie_dict :=
  {| shipping_manager_session := None;
     cd_app_platform := None; cd_app_version := None |}.

(** The body of the loop that fills [all_cookies]. *)
Definition extract_one (e : env) (all_cookies : cookie_dict) (c : jar_cookie)
  : cookie_dict :=
  let cookie_value := normalize e (value c) in
  if bool_decide (name c = TARGET_COOKIE_NAME) then
    {| shipping_manager_session := Some cookie_value;
       cd_app_platform := cd_app_platform all_cookies;
       cd_app_version := cd_app_version all_cookies |}
  else if bool_decide (name c = APP_PLATFORM) then
    {| shipping_manager_session := shipping_manager_session all_cookies;
       cd_app_platform := Some cookie_value;
       cd_app_version := cd_app_version all_cookies |}
  else if bool_decide (name c = APP_VERSION) then
    {| shipping_manager_session := shipping_manager_session all_cookies;
       cd_app_platform := cd_app_platform all_cookies;
       cd_app_version := Some cookie_value |}
  else all_cookies.

(** From "Extract ALL cookies" to the return: the jar read again, or the
    validated cookie alone when reading fails or finds no session cookie. *)
Definition extract_all (e : env) (cookie : str)
    (final : option (list jar_cookie)) : cookie_dict :=
  let all_cookies :=
    match final with
    | Some cookies => fold_left (extract_one e) cookies no_cookies
    | None =>
      {| shipping_manager_session := Some cookie;
         cd_app_platform := None; cd_app_version := None |}
    end in
  match shipping_manager_session all_cookies with
  | Some _ => all_cookies
  | None =>
    {| shipping_manager_session := Some cookie;
       cd_app_platform := cd_app_platform all_cookies;
       cd_app_version := cd_app_version all_cookies |}
  end.

Definition or_else {A} (o fallback : option A) : option A :=
  match o with Some a => Some a | None => fallback end.

(** The normalized value of the last cookie of the jar with a given name. *)
Definition last_value (e : env) (cookie_name : str) (cookies : list jar_cookie)
  : option str :=
  match List.find (fun c => bool_decide (name c = cookie_name)) (rev cookies) with
  | Some c => Some (normalize e (value c))
  | None => None
  end.

(** What [browser_login()] does to its caller: it returns the cookies, it
    returns [None], or [detect_browser] ends the process. *)
Inductive login_outcome :=
| LoggedIn (all_cookies : cookie_dict)
| NoCookie
| ProcessExit (code : Z).

Definition browser_login (e : env) (w : world) : option (login_outcome * world) :=
  let b := browsers e (logins w) in
  let w := login_started w in
  if negb (driver_found b) then Some (ProcessExit 1, log DBrowserUnavailable w)
  else if negb (navigation_ok b) then Some (NoCookie, log DCriticalError w)
  else
    match wait_for_login e b ROUNDS 0 (clock w) w with
    | None => None
    | Some (WindowGone, w1) => Some (NoCookie, w1)
    | Some (DeadlinePassed, w1) => Some (NoCookie, log DLoginTimeout w1)
    | Some (Validated cookie, w1) =>
      let w2 := if overlay_ok b then w1 else log DOverlayFailed w1 in
      let w3 := sleep 3000 w2 in
      let w4 :=
        match final_cookies b with
        | Some _ => w3
        | None => log DExtractFailed w3
        end in
      Some (LoggedIn (extract_all e cookie (final_cookies b)), w4)
    end.

(** A poll that cannot end the wait with a login: the window is there, and
    the session cookie is missing, empty, or one that the service never
    confirms. *)
Definition fruitless (e : env) (o : observation) : Prop :=
  match o with
  | WindowClosed => False
  | CookiesUnavailable => True
  | Cookies cookies =>
    match find_target e cookies with
    | None => True
    | Some c =>
      truthy c = true ->
      forall sent_before,
        login_confirmed (remote e sent_before (TARGET_COOKIE_NAME ++ EQUALS ++ c))
        = false
    end
  end.

(** A provider that stays alive and shows nothing: the jar never holds a
    cookie with the target name. *)
Definition never_exposes (b : browser) : Prop :=
  forall n, exists cookies,
    poll b n = Cookies cookies /\
    Forall (fun c => name c <> TARGET_COOKIE_NAME) cookies.

End Browser.

(** ** The selection, refresh and login flow: [main] *)

Module Flow.
Import Vault World Store Validator Browser.

Definition NEW_SESSION : str := Eval cbv in lit "new_session".
Definition REFRESH_SESSIONS : str := Eval cbv in lit "refresh_sessions".
Definition USE_SESSION : str := Eval cbv in lit "use_session".

(** A JSON object that a dialog of [show_session_selector] prints, read
    with [dict.get]: its keys 'action' and 'user_id', and whether it holds
    any other key. (A value of 'action' that is not a string equals none of
    the actions, like null.) *)
Record selector_object := {
  action : slot str;
  chosen_user_id : slot idval;
  other_keys : bool
}.

(** What the dialog printed, parsed by [json.loads]: an object or another
    JSON value. *)
Inductive selector_value :=
| Object (r : selector_object)
| Stray (v : json_other).

(** What [show_session_selector] returns: [None] (cancelled, timed out,
    failed) or the parsed value. *)
Abbreviation selector_result := (option selector_value).

(** [not selector_result]: [None], an object without keys, or another
    falsy value. *)
Definition no_result (r : selector_result) : bool :=
  match r with
  | None => true
  | Some (Object r) =>
    match action r, chosen_user_id r, other_keys r with
    | Absent, Absent, false => true
    | _, _, _ => false
    end
  | Some (Stray v) => negb (truthy_json v)
  end.

(** How a call of [main] ends: the process exits with a code, [main]
    returns to its importer, an exception leaves [main] uncaught, or the run
    waits for an answer that the script of the operator does not hold.
    ([browser_login] always ends, see [browser_login_total]; its [None] is
    mapped to [Waiting] too.) *)
Inductive outcome :=
| Exit (code : Z)
| Return (v : option idval)
| Uncaught (x : exn)
| Waiting.

(** [if __name__ == "__main__": sys.exit(code) else: return v] *)
Definition leave (as_main : bool) (code : Z) (v : option idval) : outcome :=
  if as_main then Exit code else Return v.

(** [if cookie_dict:] a dict is truthy when it has a key. *)
Definition has_key (d : cookie_dict) : bool :=
  match shipping_manager_session d, cd_app_platform d, cd_app_version d with
  | None, None, None => false
  | _, _, _ => true
  end.

(** [s['user_id'] == selected_user_id] for a stored key, a string. *)
Definition key_equals (selected_user_id : option idval) (key : str) : bool :=
  match selected_user_id with
  | Some (IdStr s) => bool_decide (key = s)
  | _ => false
  end.

(** The renewal of the refresh branch, from [browser_login()] to the
    message that tells how it went. [Some code]: the process exits. *)
Definition refresh_attempt (e : env) (selected_user_id : option idval)
    (w : world) : option (option Z * world) :=
  match browser_login e w with
  | None => None
  | Some (ProcessExit code, w1) => Some (Some code, w1)
  | Some (NoCookie, w1) => Some (None, log DFailedToGetCookie w1)
  | Some (LoggedIn renewal_cookie, w1) =>
    if has_key renewal_cookie then
      let '(renewal_user_data, w2) :=
        get_user_from_cookie e (Bundle renewal_cookie) w1 in
      match renewal_user_data with
      | Some p =>
        if bool_decide (str_of_opt_id (profile_id p)
                        = str_of_opt_id selected_user_id)
        then
          Some (None,
                log DRefreshed
                  (save_session (str_of_opt_id (profile_id p))
                     (Bundle renewal_cookie)
                     (get_or (profile_company_name p) (Some UNKNOWN))
                     BROWSER None None w2))
        else Some (None, log DWrongAccount w2)
      | None => Some (None, log DWrongAccount w2)
      end
    else Some (None, log DFailedToGetCookie w1)
  end.

(** The profile that the browser login of a refresh authenticates: the
    answer of the service to the cookies that the login returned. *)
Definition authenticated (e : env) (w : world) : option profile :=
  match browser_login e w with
  | Some (LoggedIn renewal_cookie, w1) =>
    if has_key renewal_cookie
    then (get_user_from_cookie e (Bundle renewal_cookie) w1).1
    else None
  | _ => None
  end.

(** STEP 2 and STEP 3 of [main]: the browser login of a new session. *)
Definition new_login (e : env) (as_main : bool) (w : world) : outcome * world :=
  match browser_login e w with
  | None => (Waiting, w)
  | Some (ProcessExit code, w1) => (Exit code, w1)
  | Some (NoCookie, w1) => (leave as_main 1 None, log DLoginFailed w1)
  | Some (LoggedIn cookie, w1) =>
    if has_key cookie then
      let '(user_data, w2) := get_user_from_cookie e (Bundle cookie) w1 in
      match user_data with
      | None => (leave as_main 1 None, log DValidationFailed w2)
      | Some p =>
        let user_id := profile_id p in
        let company_name := get_or (profile_company_name p) (Some UNKNOWN) in
        let w3 :=
          save_session (str_of_opt_id user_id) (Bundle cookie) company_name
            BROWSER None None w2 in
        if as_main then (Exit 0, print (str_of_opt_id user_id) w3)
        else (Return user_id, w3)
      end
    else (leave as_main 1 None, log DLoginFailed w1)
  end.

(** The [use_session] branch of the loop. *)
Definition use_session (as_main : bool) (selected_user_id : option idval)
    (valid_sessions : list valid_session) (w : world) : outcome * world :=
  match List.find (fun s => bool_decide (vs_user_id s = str_of_opt_id selected_user_id))
          valid_sessions with
  | Some session =>
    if truthy_opt (vs_cookie session) then
      if as_main then (Exit 0, print (str_of_opt_id selected_user_id) w)
      else (Return selected_user_id, w)
    else (Exit 1, log DSessionDataNotFound w)
  | None => (Exit 1, log DSessionDataNotFound w)
  end.

(** The main loop; every round reads the next answers of the operator from
    [script]. [selector_result.get('action')] raises on a truthy answer that
    is not an object. *)
Fixpoint main_loop (e : env) (as_main : bool)
    (script : list selector_result)
    (valid_sessions : list valid_session)
    (expired_sessions : list expired_session) (w : world) : outcome * world :=
  match valid_sessions, expired_sessions with
  | [], [] => new_login e as_main w
  | _, _ =>
    match script with
    | [] => (Waiting, w)
    | selector_result :: script1 =>
      if no_result selector_result
      then (leave as_main 0 None, log DSelectionCancelled w)
      else
      match selector_result with
      | None => (leave as_main 0 None, log DSelectionCancelled w)
      | Some (Stray _) => (Uncaught AttributeError, w)
      | Some (Object r) =>
        if bool_decide (get (action r) = Some NEW_SESSION)
        then new_login e as_main w
        else if bool_decide (get (action r) = Some REFRESH_SESSIONS) then
          let all_sessions_for_refresh :=
            map vs_user_id valid_sessions ++ map es_user_id expired_sessions in
          match all_sessions_for_refresh with
          | [] => main_loop e as_main script1 valid_sessions expired_sessions w
          | _ =>
            match script1 with
            | [] => (Waiting, w)
            | refresh_selector_result :: script2 =>
              if no_result refresh_selector_result
              then main_loop e as_main script2 valid_sessions
                     expired_sessions w
              else
              match refresh_selector_result with
              | None =>
                main_loop e as_main script2 valid_sessions expired_sessions w
              | Some (Stray _) => (Uncaught AttributeError, w)
              | Some (Object r2) =>
                if bool_decide (get (action r2) = Some USE_SESSION) then
                  let selected_user_id := get (chosen_user_id r2) in
                  match List.find (key_equals selected_user_id)
                          all_sessions_for_refresh with
                  | Some _ =>
                    match refresh_attempt e selected_user_id w with
                    | None => (Waiting, w)
                    | Some (Some code, w1) => (Exit code, w1)
                    | Some (None, w1) =>
                      let '(valid_sessions, w2) := validate_all_sessions e w1 in
                      match valid_sessions with
                      | Raise x => (Uncaught x, w2)
                      | Ok valid_sessions =>
                        let '(expired_sessions, w3) :=
                          get_expired_sessions_with_methods e w2 in
                        match expired_sessions with
                        | Raise x => (Uncaught x, w3)
                        | Ok expired_sessions =>
                          main_loop e as_main script2 valid_sessions
                            expired_sessions w3
                        end
                      end
                    end
                  | None =>
                    main_loop e as_main script2 valid_sessions
                      expired_sessions w
                  end
                else main_loop e as_main script2 valid_sessions
                       expired_sessions w
              end
            end
          end
        else if bool_decide (get (action r) = Some USE_SESSION)
        then use_session as_main (get (chosen_user_id r)) valid_sessions w
        else (Exit 1, log DInvalidSelectorResult w)
      end
    end
  end.

(** [main()]; [as_main] tells whether the module runs as the process. *)
Definition main (e : env) (as_main : bool)
    (script : list selector_result) (w : world) : outcome * world :=
  let '(valid_sessions, w1) := validate_all_sessions e w in
  match valid_sessions with
  | Raise x => (Uncaught x, w1)
  | Ok valid_sessions =>
    let '(expired_sessions, w2) := get_expired_sessions_with_methods e w1 in
    match expired_sessions with
    | Raise x => (Uncaught x, w2)
    | Ok expired_sessions =>
      main_loop e as_main script valid_sessions expired_sessions w2
    end
  end.






End Flow.

(** ** Sample machines, services and browsers *)

Module Samples.
Import Vault World Store Validator Browser Flow.

Definition acme : profile :=
  {| profile_id := Some (IdInt 42);
     profile_company_name := Holds (lit "Acme Co") |}.

(** A service that knows one session token. *)
Definition service_for (token : str) (p : profile) : list str -> str -> response :=
  fun _ header =>
    if bool_decide (header = TARGET_COOKIE_NAME ++ EQUALS ++ token)
    then Http 200 (User p) else Http 401 NoUser.

Definition session_cookie (v : str) : jar_cookie :=
  {| name := TARGET_COOKIE_NAME; value := v |}.

(** A browser whose jar never holds the session cookie. *)
Definition idle_browser : browser :=
  {| driver_found := true; navigation_ok := true;
     poll := fun _ => Cookies [];
     overlay_ok := true; final_cookies := Some [] |}.

(** A browser that shows the session cookie "A" while the loop polls and
    "B" when the jar is read again after the login (the site has renewed
    its session cookie in between). *)
Definition renewing_browser : browser :=
  {| driver_found := true; navigation_ok := true;
     poll := fun _ => Cookies [session_cookie (lit "A")];
     overlay_ok := true;
     final_cookies := Some [session_cookie (lit "B")] |}.

(** A browser that shows the session cookie "A" throughout. *)
Definition steady_browser : browser :=
  {| driver_found := true; navigation_ok := true;
     poll := fun _ => Cookies [session_cookie (lit "A")];
     overlay_ok := true;
     final_cookies := Some [session_cookie (lit "A")] |}.

Definition steady_env : env :=
  {| remote := service_for (lit "A") acme;
     browsers := fun _ => steady_browser;
     unquote := fun s => s |}.

Definition idle_env : env :=
  {| remote := service_for (lit "A") acme;
     browsers := fun _ => idle_browser;
     unquote := fun s => s |}.

Definition renewing_env : env :=
  {| remote := service_for (lit "A") acme;
     browsers := fun _ => renewing_browser;
     unquote := fun s => s |}.

(** A first run: no document, a writable disk, no keyring. *)
Definition fresh_world : world :=
  {| disk := FileMissing; disk_writable := true;
     vault_of := vault_without_keyring;
     clock := 0; requests := []; logins := 0; stdout := []; stderr := [] |}.

(** A record of account "7" with a plaintext cookie that the sample
    service does not know, and a world that holds it. *)
Definition stale_record : session_record :=
  {| cookie := Some (lit "old"); timestamp := Some 1700000000;
     company_name := Holds (lit "Seven Seas"); login_method := Some BROWSER;
     app_platform := None; app_version := None |}.

Definition stored_world : world :=
  {| disk := FileSessions [(lit "7", stale_record)]; disk_writable := true;
     vault_of := vault_without_keyring;
     clock := 0; requests := []; logins := 0; stdout := []; stderr := [] |}.

(** Two accounts saved in the same second, both with the live token "A". *)
Definition twin_record : session_record :=
  {| cookie := Some (lit "A"); timestamp := Some 1700000000;
     company_name := Holds (lit "Acme Co"); login_method := Some BROWSER;
     app_platform := None; app_version := None |}.

Definition twin_sessions : dict session_record :=
  [(lit "1", twin_record); (lit "2", twin_record)].

Definition twin_world : world :=
  {| disk := FileSessions twin_sessions; disk_writable := true;
     vault_of := vault_without_keyring;
     clock := 0; requests := []; logins := 0; stdout := []; stderr := [] |}.

(** A record filed under the empty account id, with the token "A" in its
    obfuscated form for [vault_without_keyring]. *)
Definition nameless_sessions : dict session_record :=
  [([], {| cookie := Some (lit "v1:QQ=="); timestamp := Some 1700000000;
           company_name := Holds (lit "Acme Co"); login_method := Some BROWSER;
           app_platform := None; app_version := None |})].

Definition nameless_world : world :=
  {| disk := FileSessions nameless_sessions; disk_writable := true;
     vault_of := vault_without_keyring;
     clock := 0; requests := []; logins := 0; stdout := []; stderr := [] |}.

(** A record whose cookie decrypts to a text that itself reads as an
    obfuscated cookie: the token "A" obfuscated twice. *)
Definition twice_obfuscated : option str :=
  Eval vm_compute in
    (encrypt_cookie vault_without_keyring (Some (lit "v1:QQ==")) (lit "7")).1.

Definition nested_sessions : dict session_record :=
  [(lit "7", {| cookie := twice_obfuscated; timestamp := Some 1700000000;
               company_name := Holds (lit "Acme Co");
               login_method := Some BROWSER;
               app_platform := None; app_version := None |})].

Definition nested_world : world :=
  {| disk := FileSessions nested_sessions; disk_writable := true;
     vault_of := vault_without_keyring;
     clock := 0; requests := []; logins := 0; stdout := []; stderr := [] |}.

End Samples.

(** ** Further definitions *)

Module More.
Import Vault World Store Validator Browser Flow.

(** The session cookie of the argument of [save_session]. *)
Definition session_of (cookie : cookie_arg) : option str :=
  match cookie with
  | Bundle d => shipping_manager_session d
  | Plain c => c
  end.

(** The app_platform and app_version that [save_session] files for its
    arguments: the key of the cookie dict when it is there, the parameter
    otherwise. *)
Definition platform_of (cookie : cookie_arg) (app_platform : option str)
  : option str :=
  match cookie with
  | Bundle d =>
    match cd_app_platform d with Some p => Some p | None => app_platform end
  | Plain _ => app_platform
  end.

Definition version_of (cookie : cookie_arg) (app_version : option str)
  : option str :=
  match cookie with
  | Bundle d =>
    match cd_app_version d with Some p => Some p | None => app_version end
  | Plain _ => app_version
  end.

(** Two vaults with the same backend: the same keyring flags and the same
    machine fingerprint, whatever their keyrings hold. *)
Definition same_backend (v v' : vault) : Prop :=
  keyring_available v' = keyring_available v /\
  keyring_faulty v' = keyring_faulty v /\
  fingerprint v' = fingerprint v.

(** The reference that [encrypt_cookie] returns for a field of a record,
    [None] for a field that is left out. *)
Definition filed (v : vault) (value : option str) (identity : str)
  : option str :=
  if truthy_opt value then (encrypt_cookie v value identity).1 else None.

(** A document that holds a JSON array, and a disk that refuses every
    write. *)
Definition array_world : world :=
  {| disk := FileValue (JArray 2); disk_writable := true;
     vault_of := vault_without_keyring;
     clock := 0; requests := []; logins := 0; stdout := []; stderr := [] |}.

Definition read_only_world : world :=
  {| disk := FileMissing; disk_writable := false;
     vault_of := vault_without_keyring;
     clock := 0; requests := []; logins := 0; stdout := []; stderr := [] |}.

(** A service whose profile of account 42 holds "company_name": null. *)
Definition unnamed : profile :=
  {| profile_id := Some (IdInt 42); profile_company_name := Null |}.

Definition unnamed_env : env :=
  {| remote := Samples.service_for (lit "A") unnamed;
     browsers := fun _ => Samples.steady_browser;
     unquote := fun s => s |}.

(** An answer of the selector that is an object without 'action' and
    'user_id' but with another key, such as {"foo": 1}. *)
Definition foreign_object : selector_value :=
  Object {| action := Absent; chosen_user_id := Absent; other_keys := true |}.

(** *** [detect_browser] *)

Inductive system := Darwin | Linux | OtherSystem.

Inductive browser_name := Safari | Chrome | Firefox.

(** What [detect_browser] asks of the machine: whether Selenium was
    imported, [platform.system()], whether the webdriver of a browser lies
    in the webdrivers directory, and whether starting a browser (with that
    bundled driver, or with the default one) returns a driver or raises. *)
Record machine := {
  selenium_available : bool;
  platform_system : system;
  bundled_driver : browser_name -> bool;
  launches : browser_name -> bool -> bool
}.

(** Safari first on macOS, where it is built in. *)
Definition browsers_to_try (s : system) : list browser_name :=
  match s with
  | Darwin => [Safari; Chrome; Firefox]
  | _ => [Chrome; Firefox]
  end.

(** One round of the loop over [browsers_to_try]: [true] when the round
    returns a driver, [false] when it raises (or, for Safari off macOS,
    does nothing). *)
Definition try_browser (m : machine) (browser : browser_name) : bool :=
  match browser with
  | Safari =>
    match platform_system m with
    | Darwin => launches m Safari false
    | _ => false
    end
  | Chrome => launches m Chrome (bundled_driver m Chrome)
  | Firefox => launches m Firefox (bundled_driver m Firefox)
  end.

(** [detect_browser()]: the browser whose driver it returns; [None] when
    it ends the process with [sys.exit(1)]. *)
Definition detect_browser (m : machine) : option browser_name :=
  if selenium_available m
  then List.find (try_browser m) (browsers_to_try (platform_system m))
  else None.

(** A Linux machine with Selenium where only Firefox starts. *)
Definition firefox_only : machine :=
  {| selenium_available := true; platform_system := Linux;
     bundled_driver := fun _ => false;
     launches := fun b _ => match b with Firefox => true | _ => false end |}.

(** A browser whose window the operator closes before the fourth poll. *)
Definition closing_browser : browser :=
  {| driver_found := true; navigation_ok := true;
     poll := fun n => if Nat.ltb n 3 then Cookies [] else WindowClosed;
     overlay_ok := true; final_cookies := Some [] |}.

Definition closing_env : env :=
  {| remote := Samples.service_for (lit "A") Samples.acme;
     browsers := fun _ => closing_browser;
     unquote := fun s => s |}.

(** [get_user_session()]: [main] as an imported module; a [SystemExit]
    of [main] is caught and answered with [None], any other exception goes
    on to the caller. *)
Definition get_user_session (e : env) (script : list selector_result)
    (w : world) : outcome * world :=
  match main e false script w with
  | (Exit _, w') => (Return None, w')
  | r => r
  end.

(** A disk that refuses every write, with one stored record. *)
Definition locked_world : world :=
  {| disk := FileSessions [(lit "42", Samples.stale_record)];
     disk_writable := false;
     vault_of := vault_without_keyring;
     clock := 0; requests := []; logins := 0; stdout := []; stderr := [] |}.

End More.

(** * Proofs *)

Module CodecFacts.
Import Codec.

Ltac zlia := Z.div_mod_to_equations; lia.

Ltac case_cmp :=
  repeat match goal with
  | |- context [?a <? ?b] => destruct (Z.ltb_spec a b); try zlia
  | |- context [?a <=? ?b] => destruct (Z.leb_spec a b); try zlia
  | |- context [?a =? ?b] => destruct (Z.eqb_spec a b); try zlia
  end.

Lemma utf8_decode_cons b0 r0 :
  utf8_decode (b0 :: r0) =
    if b0 <? 0 then None
    else if b0 <? 0x80 then cons b0 <$> utf8_decode r0
    else if b0 <? 0xC0 then None
    else if b0 <? 0xE0 then
      match r0 with
      | b1 :: r1 =>
        let c := (b0 - 0xC0) * 64 + (b1 - 0x80) in
        if is_cont b1 && (0x80 <=? c)
        then cons c <$> utf8_decode r1 else None
      | _ => None
      end
    else if b0 <? 0xF0 then
      match r0 with
      | b1 :: b2 :: r2 =>
        let c := (b0 - 0xE0) * 4096 + (b1 - 0x80) * 64 + (b2 - 0x80) in
        if is_cont b1 && is_cont b2 && (0x800 <=? c)
           && negb ((0xD800 <=? c) && (c <=? 0xDFFF))
        then cons c <$> utf8_decode r2 else None
      | _ => None
      end
    else if b0 <? 0xF8 then
      match r0 with
      | b1 :: b2 :: b3 :: r3 =>
        let c := (b0 - 0xF0) * 262144 + (b1 - 0x80) * 4096
                 + (b2 - 0x80) * 64 + (b3 - 0x80) in
        if is_cont b1 && is_cont b2 && is_cont b3
           && (0x10000 <=? c) && (c <? 0x110000)
        then cons c <$> utf8_decode r3 else None
      | _ => None
      end
    else None.
Proof. reflexivity. Qed.

Lemma utf8_char_roundtrip c e rest :
  utf8_encode_char c = Some e ->
  utf8_decode (e ++ rest) = cons c <$> utf8_decode rest.
Proof.
  unfold utf8_encode_char.
  destruct (Z.ltb_spec c 0); [discriminate|].
  destruct (Z.ltb_spec c 0x80).
  { intros [= <-]. cbn [app]. rewrite utf8_decode_cons. case_cmp. reflexivity. }
  destruct (Z.ltb_spec c 0x800).
  { intros [= <-]. cbn [app]. rewrite utf8_decode_cons. unfold is_cont. cbv zeta.
    case_cmp; cbn [andb]; try zlia.
    do 2 f_equal. zlia. }
  destruct (Z.ltb_spec c 0x10000).
  { destruct (Z.leb_spec 0xD800 c), (Z.leb_spec c 0xDFFF); cbn [andb];
      try discriminate; intros [= <-]; cbn [app]; rewrite utf8_decode_cons;
      unfold is_cont; cbv zeta.
    all: case_cmp; cbn [andb negb]; try zlia.
    all: do 2 f_equal; zlia. }
  destruct (Z.ltb_spec c 0x110000); [|discriminate].
  intros [= <-]; cbn [app]; rewrite utf8_decode_cons; unfold is_cont; cbv zeta.
  case_cmp; cbn [andb negb]; try zlia.
  do 2 f_equal; zlia.
Qed.

Lemma utf8_roundtrip s bs :
  utf8_encode s = Some bs -> utf8_decode bs = Some s.
Proof.
  revert bs. induction s as [|c s IH]; intros bs; cbn [utf8_encode].
  - intros [= <-]. reflexivity.
  - destruct (utf8_encode_char c) as [e|] eqn:He; [|discriminate].
    destruct (utf8_encode s) as [r|]; [|discriminate].
    intros [= <-]. rewrite (utf8_char_roundtrip _ _ _ He), (IH r eq_refl).
    reflexivity.
Qed.

Lemma utf8_encode_char_bytes c e :
  utf8_encode_char c = Some e -> Forall is_byte e.
Proof.
  unfold utf8_encode_char, is_byte.
  repeat match goal with
  | |- context [?a <? ?b] => destruct (Z.ltb_spec a b)
  | |- context [?a <=? ?b] => destruct (Z.leb_spec a b)
  end; cbn [andb]; try discriminate; intros [= <-];
  repeat constructor; zlia.
Qed.

Lemma utf8_encode_bytes s bs :
  utf8_encode s = Some bs -> Forall is_byte bs.
Proof.
  revert bs. induction s as [|c s IH]; intros bs; cbn [utf8_encode].
  - intros [= <-]. constructor.
  - destruct (utf8_encode_char c) as [e|] eqn:He; [|discriminate].
    destruct (utf8_encode s) as [r|]; [|discriminate].
    intros [= <-]. apply Forall_app. split; [eapply utf8_encode_char_bytes|]; eauto.
Qed.

Lemma b2a_sextet n :
  0 <= n < 64 -> a2b (b2a n) = Some n /\ b2a n <> PAD /\ 0 <= b2a n < 128.
Proof.
  intros Hn. unfold a2b, b2a, PAD.
  repeat match goal with
  | |- context [?a <? ?b] => destruct (Z.ltb_spec a b)
  | |- context [?a <=? ?b] => destruct (Z.leb_spec a b)
  | |- context [?a =? ?b] => destruct (Z.eqb_spec a b)
  | |- context [andb _ _] => cbn [andb]
  end; try lia; repeat split; try lia; f_equal; lia.
Qed.

(** One step of the decoder on a character of the alphabet. *)
Lemma a2b_base64_sextet n cs quad_pos leftchar pads :
  0 <= n < 64 ->
  a2b_base64 (b2a n :: cs) quad_pos leftchar pads =
    match quad_pos with
    | 0%nat => a2b_base64 cs 1 n 0
    | 1%nat =>
      try! r <- a2b_base64 cs 2 (n mod 16) 0; Ok ((leftchar * 4 + n / 16) :: r)
    | 2%nat =>
      try! r <- a2b_base64 cs 3 (n mod 4) 0; Ok ((leftchar * 16 + n / 4) :: r)
    | _ =>
      try! r <- a2b_base64 cs 0 0 0; Ok ((leftchar * 64 + n) :: r)
    end.
Proof.
  intros Hn. destruct (b2a_sextet n Hn) as (Ha & Hp & _).
  cbn [a2b_base64]. rewrite Ha.
  destruct (Z.eqb_spec (b2a n) PAD); [contradiction|reflexivity].
Qed.

Lemma list_ind3 {A} (P : list A -> Prop) :
  P [] -> (forall a, P [a]) -> (forall a b, P [a; b]) ->
  (forall a b c r, P r -> P (a :: b :: c :: r)) ->
  forall l, P l.
Proof.
  intros H0 H1 H2 H3.
  fix IH 1. intros [|a [|b [|c r]]]; [apply H0|apply H1|apply H2|apply H3, IH].
Qed.

Lemma a2b_base64_roundtrip bs :
  Forall is_byte bs -> a2b_base64 (b64encode bs) 0 0 0 = Ok bs.
Proof.
  unfold is_byte.
  induction bs as [|a|a b|a b c r IH] using list_ind3; intros Hb.
  - reflexivity.
  - apply Forall_cons_1 in Hb as [Ha _]. cbn [b64encode].
    rewrite !a2b_base64_sextet by zlia. cbn. f_equal. f_equal. zlia.
  - apply Forall_cons_1 in Hb as [Ha Hb]. apply Forall_cons_1 in Hb as [Hb _].
    cbn [b64encode].
    rewrite !a2b_base64_sextet by zlia. cbn. f_equal. f_equal; [|f_equal]; zlia.
  - apply Forall_cons_1 in Hb as [Ha Hb]. apply Forall_cons_1 in Hb as [Hb Hc].
    apply Forall_cons_1 in Hc as [Hc Hr].
    cbn [b64encode].
    rewrite !a2b_base64_sextet by zlia. rewrite (IH Hr). cbn [rbind].
    f_equal. f_equal; [|f_equal; [|f_equal]]; zlia.
Qed.

Lemma b64encode_ascii bs :
  Forall is_byte bs ->
  forallb (fun c => (0 <=? c) && (c <? 128)) (b64encode bs) = true.
Proof.
  unfold is_byte.
  assert (Hs : forall n, 0 <= n < 64 -> (0 <=? b2a n) && (b2a n <? 128) = true).
  { intros n Hn. destruct (b2a_sextet n Hn) as (_ & _ & ?).
    apply andb_true_iff. split; [apply Z.leb_le|apply Z.ltb_lt]; lia. }
  induction bs as [|a|a b|a b c r IH] using list_ind3; intros Hb.
  - reflexivity.
  - apply Forall_cons_1 in Hb as [Ha _]. cbn [b64encode forallb].
    rewrite !Hs by zlia. reflexivity.
  - apply Forall_cons_1 in Hb as [Ha Hb]. apply Forall_cons_1 in Hb as [Hb _].
    cbn [b64encode forallb]. rewrite !Hs by zlia. reflexivity.
  - apply Forall_cons_1 in Hb as [Ha Hb]. apply Forall_cons_1 in Hb as [Hb Hc].
    apply Forall_cons_1 in Hc as [Hc Hr].
    cbn [b64encode forallb]. rewrite !Hs by zlia. rewrite (IH Hr). reflexivity.
Qed.

Lemma b64_roundtrip bs :
  Forall is_byte bs -> b64decode (b64encode bs) = Ok bs.
Proof.
  intros Hb. unfold b64decode.
  rewrite (b64encode_ascii _ Hb). apply a2b_base64_roundtrip, Hb.
Qed.

Lemma lxor_byte a b : is_byte a -> is_byte b -> is_byte (Z.lxor a b).
Proof.
  unfold is_byte. intros Ha Hb.
  assert (H0 : 0 <= Z.lxor a b) by (apply Z.lxor_nonneg; lia).
  split; [exact H0|].
  destruct (Z.eq_dec (Z.lxor a b) 0) as [->|Hne]; [lia|].
  change 256 with (2 ^ 8). apply Z.log2_lt_pow2; [lia|].
  pose proof (Z.log2_lxor a b ltac:(lia) ltac:(lia)) as Hl.
  assert (Hla : Z.log2 a < 8).
  { destruct (Z.eq_dec a 0) as [->|]; [cbn; lia|]. apply Z.log2_lt_pow2; lia. }
  assert (Hlb : Z.log2 b < 8).
  { destruct (Z.eq_dec b 0) as [->|]; [cbn; lia|]. apply Z.log2_lt_pow2; lia. }
  lia.
Qed.

Lemma xor_from_involutive key i data :
  xor_from key i (xor_from key i data) = data.
Proof.
  revert i. induction data as [|b data IH]; intros i; cbn [xor_from]; [reflexivity|].
  rewrite IH, Z.lxor_assoc, Z.lxor_nilpotent, Z.lxor_0_r. reflexivity.
Qed.

Lemma xor_from_bytes key i data :
  Forall is_byte key -> Forall is_byte data -> Forall is_byte (xor_from key i data).
Proof.
  intros Hk Hd. revert i. induction Hd as [|b data Hb Hd IH]; intros i; cbn [xor_from].
  - constructor.
  - constructor; [|apply IH]. apply lxor_byte; [exact Hb|].
    destruct (nth_in_or_default (i mod length key) key 0) as [Hin| ->].
    + rewrite Forall_forall in Hk. apply Hk. apply list_elem_of_In, Hin.
    + unfold is_byte; lia.
Qed.

End CodecFacts.

Module VaultFacts.
Import Codec CodecFacts Vault.

Lemma key_of_bytes d : Forall is_byte (key_of d).
Proof.
  unfold key_of. apply Forall_map, Forall_forall. intros b _.
  pose proof (Byte.to_N_bounded b). unfold is_byte. cbn. lia.
Qed.

Lemma startswith_app p s : startswith (p ++ s) p = true.
Proof.
  induction p as [|c p IH]; cbn; [reflexivity|].
  rewrite Z.eqb_refl, IH. reflexivity.
Qed.

Lemma obfuscate_deobfuscate v s r :
  obfuscate v (Some s) = Ok r ->
  exists blob, r = V1_TAG ++ blob /\ deobfuscate v blob = Ok s.
Proof.
  unfold obfuscate, deobfuscate.
  destruct (fingerprint v) as [d|]; [|discriminate]. cbn [of_option rbind].
  destruct (utf8_encode s) as [bs|] eqn:He; [|discriminate]. cbn [of_option rbind].
  intros [= <-]. eexists. split; [reflexivity|].
  rewrite b64_roundtrip.
  2:{ apply xor_from_bytes; [apply key_of_bytes|eapply utf8_encode_bytes, He]. }
  cbn [rbind]. unfold xor_with. rewrite xor_from_involutive.
  rewrite (utf8_roundtrip _ _ He). reflexivity.
Qed.

Lemma decrypt_v1 v blob user_id :
  decrypt_cookie v (Some (V1_TAG ++ blob)) user_id =
    match deobfuscate v blob with Ok s => Some s | Raise _ => None end.
Proof. reflexivity. Qed.

Lemma decrypt_keyring v name user_id :
  decrypt_cookie v (Some (KEYRING_TAG ++ name)) user_id =
    if keyring_available v then
      match get_password v name with Ok password => password | Raise _ => None end
    else None.
Proof. reflexivity. Qed.

Lemma keyring_store_usable v name cookie :
  keyring_usable v = true ->
  exists v', keyring_store v name cookie = Ok (KEYRING_TAG ++ name, v') /\
    keyring_available v' = true /\ keyring_faulty v' = false /\
    keyring v' !! name = Some (str_of_opt cookie).
Proof.
  unfold keyring_usable. intros [Ha Hf%negb_true_iff]%andb_true_iff.
  unfold keyring_store, delete_password, set_password. rewrite Hf.
  destruct (keyring v !! name); cbn; rewrite ?Hf; cbn.
  all: eexists; split; [reflexivity|]; cbn; rewrite ?lookup_insert_eq; auto.
Qed.

Lemma keyring_store_faulty v name cookie :
  keyring_usable v = false -> keyring_available v = true ->
  exists e, keyring_store v name cookie = Raise e.
Proof.
  unfold keyring_usable. intros Hu Ha. rewrite Ha in Hu. cbn in Hu.
  apply negb_false_iff in Hu.
  unfold keyring_store, delete_password. rewrite Hu. cbn. eauto.
Qed.

(** Without a usable keyring, [encrypt_cookie] is its fallback. *)
Lemma encrypt_fallback v cookie id :
  keyring_usable v = false ->
  encrypt_cookie v cookie id =
    match obfuscate v cookie with
    | Ok r => (Some r, v)
    | Raise _ => (cookie, v)
    end.
Proof.
  intros Hu. unfold encrypt_cookie.
  destruct (keyring_available v) eqn:Ha; [|reflexivity].
  destruct (keyring_store_faulty v (account_name_of id) cookie Hu Ha) as [e ->].
  reflexivity.
Qed.

Lemma decrypt_untagged v s user_id :
  is_encrypted (Some s) = false -> truthy s = true ->
  decrypt_cookie v (Some s) user_id = Some s.
Proof.
  cbn [is_encrypted]. intros He Ht. rewrite Ht in He. cbn [andb] in He.
  apply orb_false_iff in He as [Hk H1].
  unfold decrypt_cookie. rewrite Ht, Hk, H1. reflexivity.
Qed.

Lemma unencodable_truthy s : utf8_encode s = None -> truthy s = true.
Proof. destruct s; [discriminate|reflexivity]. Qed.

(** C1 (as amended): [decrypt_cookie(encrypt_cookie(s, id), id) == s] for
    every secret and identity when the keyring is usable, and, when it is
    not and the machine fingerprint is available, for every secret that
    UTF-8 encodes or carries no encryption tag. *)
Theorem C1_encrypt_decrypt_roundtrip v s id :
  keyring_usable v = true \/
  (is_Some (fingerprint v) /\
   (is_Some (utf8_encode s) \/ is_encrypted (Some s) = false)) ->
  roundtrip v s id.
Proof.
  unfold roundtrip.
  destruct (keyring_usable v) eqn:Hu.
  - intros _.
    destruct (keyring_store_usable v (account_name_of id) (Some s) Hu)
      as (v' & Hs & Ha & Hf & Hl).
    assert (Hav : keyring_available v = true).
    { unfold keyring_usable in Hu. apply andb_true_iff in Hu. tauto. }
    unfold encrypt_cookie. rewrite Hav, Hs.
    rewrite decrypt_keyring, Ha. unfold get_password. rewrite Hf, Hl. reflexivity.
  - intros [?|[[d Hd] Hs]]; [discriminate|].
    rewrite encrypt_fallback by exact Hu.
    destruct (obfuscate v (Some s)) as [r|e] eqn:Ho.
    + destruct (obfuscate_deobfuscate _ _ _ Ho) as (blob & -> & Hb).
      rewrite decrypt_v1, Hb. reflexivity.
    + assert (Hn : utf8_encode s = None).
      { unfold obfuscate in Ho. rewrite Hd in Ho. cbn in Ho.
        destruct (utf8_encode s); [discriminate|reflexivity]. }
      destruct Hs as [[bs Hbs]|Hs]; [congruence|].
      apply decrypt_untagged; [exact Hs|apply unencodable_truthy, Hn].
Qed.

Lemma C1_roundtrip_witness :
  roundtrip vault_with_keyring surrogate_secret (lit "42") /\
  roundtrip vault_without_keyring (lit "tok123") (lit "42").
Proof.
  split.
  - apply C1_encrypt_decrypt_roundtrip. left. reflexivity.
  - apply C1_encrypt_decrypt_roundtrip. right. split.
    + eexists. reflexivity.
    + left. eexists. reflexivity.
Defined.

(** Without the keyring, a tagged secret that UTF-8 cannot encode is
    returned unmodified by [encrypt_cookie] and then refused by
    [decrypt_cookie]. *)
Lemma C1_roundtrip_counterexample :
  is_Some (fingerprint vault_without_keyring) /\
  ~ roundtrip vault_without_keyring surrogate_secret (lit "42").
Proof.
  split; [eexists; reflexivity|].
  intros Hd. vm_compute in Hd. discriminate.
Qed.

Lemma identity_prefixed p a :
  has_underscore p = true -> account_name_of (p ++ a) = p ++ a.
Proof.
  intros Hp. unfold account_name_of, has_underscore.
  rewrite existsb_app. unfold has_underscore in Hp. rewrite Hp. reflexivity.
Qed.

Lemma vault_identity_eq f a :
  has_underscore a = false ->
  vault_identity f a =
    match f with
    | FCookie => SESSION_PREFIX ++ a
    | FPlatform => APP_PLATFORM_PREFIX ++ a
    | FVersion => APP_VERSION_PREFIX ++ a
    end.
Proof.
  intros Ha. unfold vault_identity. destruct f; cbn [identity_arg].
  - unfold account_name_of. rewrite Ha. reflexivity.
  - apply identity_prefixed. reflexivity.
  - apply identity_prefixed. reflexivity.
Qed.

(** C6 (as amended): for account ids that contain no underscore, the
    identities under which the three fields are filed in the vault differ
    for any two distinct (account id, field) pairs. *)
Theorem C6_vault_identity_injective a1 f1 a2 f2 :
  has_underscore a1 = false -> has_underscore a2 = false ->
  (a1, f1) <> (a2, f2) ->
  vault_identity f1 a1 <> vault_identity f2 a2.
Proof.
  intros H1 H2 Hne Heq.
  rewrite (vault_identity_eq f1 a1 H1), (vault_identity_eq f2 a2 H2) in Heq.
  destruct f1, f2; cbn in Heq; try congruence.
Qed.

Lemma C6_vault_identity_witness :
  vault_identity FCookie (lit "42") <> vault_identity FPlatform (lit "42").
Proof.
  apply C6_vault_identity_injective; [reflexivity|reflexivity|].
  intros [= ].
Defined.

(** An account id that contains an underscore is filed under itself, so
    account "session_5" shares its vault entry with account "5". *)
Lemma C6_vault_identity_counterexample :
  (lit "session_5", FCookie) <> (lit "5", FCookie) /\
  vault_identity FCookie (lit "session_5") = vault_identity FCookie (lit "5").
Proof. split; [intros [= ]|reflexivity]. Qed.

End VaultFacts.

Module StoreFacts.
Import Codec Vault World Store More.

Lemma dict_get_set_eq {V} k (v : V) d : dict_get k (dict_set k v d) = Some v.
Proof.
  induction d as [|[k' v'] d IH]; cbn.
  - rewrite decide_True by reflexivity. reflexivity.
  - destruct (decide (k' = k)) as [->|Hne]; cbn.
    + rewrite decide_True by reflexivity. reflexivity.
    + rewrite decide_False by exact Hne. exact IH.
Qed.

Lemma dict_get_set_ne {V} k k' (v : V) d :
  k' <> k -> dict_get k' (dict_set k v d) = dict_get k' d.
Proof.
  intros Hne. induction d as [|[k0 v0] d IH]; cbn.
  - rewrite decide_False by congruence. reflexivity.
  - destruct (decide (k0 = k)) as [->|Hk]; cbn.
    + rewrite !decide_False by congruence. reflexivity.
    + destruct (decide (k0 = k')); [reflexivity|exact IH].
Qed.

Lemma dict_set_keys_in {V} k (v : V) d x :
  In x (keys (dict_set k v d)) -> x = k \/ In x (keys d).
Proof.
  induction d as [|[k0 v0] d IH]; cbn.
  - intros [<-|[]]. left. reflexivity.
  - destruct (decide (k0 = k)) as [->|Hk]; cbn.
    + intros [<-|H]; auto.
    + intros [<-|H]; auto. destruct (IH H); auto.
Qed.

Lemma dict_set_keys_nodup {V} k (v : V) d :
  List.NoDup (keys d) -> List.NoDup (keys (dict_set k v d)).
Proof.
  induction d as [|[k0 v0] d IH]; cbn; intros Hd.
  - constructor; [intros []|constructor].
  - inversion Hd as [|? ? Hin Hd']; subst.
    destruct (decide (k0 = k)) as [->|Hk]; cbn.
    + constructor; assumption.
    + constructor; [|apply IH, Hd'].
      intros Hx. apply dict_set_keys_in in Hx as [Hx|Hx]; [congruence|contradiction].
Qed.

Lemma occurrences_absent {V} k (d : dict V) :
  ~ In k (keys d) -> occurrences k d = 0%nat.
Proof.
  unfold occurrences. induction d as [|[k0 v0] d IH]; cbn; intros Hn; [reflexivity|].
  destruct (bool_decide_reflect (k0 = k)) as [->|Hk]; [tauto|].
  apply IH. tauto.
Qed.

Lemma occurrences_set {V} k (v : V) d :
  List.NoDup (keys d) -> occurrences k (dict_set k v d) = 1%nat.
Proof.
  induction d as [|[k0 v0] d IH]; cbn; intros Hd.
  - unfold occurrences. cbn. rewrite bool_decide_true by reflexivity. reflexivity.
  - inversion Hd as [|? ? Hin Hd']; subst.
    destruct (decide (k0 = k)) as [->|Hk].
    + unfold occurrences. cbn. rewrite bool_decide_true by reflexivity. cbn.
      f_equal. apply occurrences_absent, Hin.
    + unfold occurrences. cbn. rewrite bool_decide_false by exact Hk.
      apply IH, Hd'.
Qed.

(** [load_sessions] changes nothing but the error stream. *)
Lemma load_sessions_world w :
  let w1 := (load_sessions w).2 in
  disk w1 = disk w /\ disk_writable w1 = disk_writable w /\
  vault_of w1 = vault_of w /\ clock w1 = clock w /\
  requests w1 = requests w /\ logins w1 = logins w /\ stdout w1 = stdout w.
Proof.
  unfold load_sessions. destruct (read_sessions (disk w)); cbn; repeat split.
Qed.

Lemma load_sessions_document w d :
  disk w = FileSessions d -> (load_sessions w).1 = Sessions d.
Proof. unfold load_sessions. intros ->. reflexivity. Qed.

(** What is loaded depends on the document alone. *)
Lemma load_sessions_same_disk w1 w :
  disk w1 = disk w -> (load_sessions w1).1 = (load_sessions w).1.
Proof.
  unfold load_sessions. intros ->. destruct (read_sessions (disk w)); reflexivity.
Qed.

(** What a save on a writable disk leaves behind. *)
Lemma save_session_writable user_id c n m p v w d :
  disk_writable w = true ->
  (load_sessions w).1 = Sessions d ->
  let w' := save_session user_id c n m p v w in
  disk w' =
    FileSessions
      (dict_set user_id (build_record (vault_of w) (clock w) user_id c n m p v).1
         d) /\
  disk_writable w' = true /\ clock w' = clock w + 500 /\ stdout w' = stdout w.
Proof.
  intros Hw Hd. unfold save_session.
  pose proof (load_sessions_world w) as (_ & Hlw & Hlv & Hlc & _ & _ & Hls).
  destruct (load_sessions w) as [sessions w1]. cbn [fst snd] in *. subst sessions.
  rewrite Hlv, Hlc.
  destruct (build_record (vault_of w) (clock w) user_id c n m p v) as [r v'].
  cbn [with_vault disk_writable]. rewrite Hlw, Hw. cbn [fst].
  destruct (World.cookie r); cbn; rewrite ?Hlc, ?Hlw, ?Hls; auto.
Qed.

(** A save that cannot store its record (the loaded value is no mapping, or
    the disk refuses the write) leaves the document as it is. *)
Lemma save_session_refused user_id c n m p v w :
  disk_writable w = false \/ (exists j, (load_sessions w).1 = Other j) ->
  disk (save_session user_id c n m p v w) = disk w /\
  disk_writable (save_session user_id c n m p v w) = disk_writable w.
Proof.
  intros H. unfold save_session.
  pose proof (load_sessions_world w) as (Hd & Hlw & _).
  destruct (load_sessions w) as [sessions w1]. cbn [fst snd] in *.
  destruct (build_record _ _ _ _ _ _ _ _) as [r v'].
  destruct sessions as [d|j]; [|cbn; split; assumption].
  destruct H as [Hw|[j Hj]]; [|discriminate].
  cbn [with_vault disk_writable]. rewrite Hlw, Hw. cbn. split; congruence.
Qed.

(** The reference that [encrypt_cookie] returns depends on the backend (the
    two flags of the keyring and the fingerprint), not on what the keyring
    holds; and the call leaves the backend as it is. *)
Lemma encrypt_cookie_backend v c id : same_backend v (encrypt_cookie v c id).2.
Proof.
  unfold same_backend, encrypt_cookie.
  destruct (keyring_available v) eqn:Ha.
  - destruct (keyring_store v (account_name_of id) c) as [[r v']|x] eqn:Hk.
    + cbn [snd]. unfold keyring_store, delete_password, set_password in Hk.
      destruct (keyring_faulty v) eqn:Hf; [discriminate|].
      destruct (keyring v !! account_name_of id); cbn in Hk; rewrite ?Hf in Hk;
        injection Hk as <- <-; cbn; auto.
    + destruct (obfuscate v c); cbn; auto.
  - destruct (obfuscate v c); cbn; auto.
Qed.

Lemma encrypt_cookie_reference v v' c id :
  same_backend v v' ->
  (encrypt_cookie v' c id).1 = (encrypt_cookie v c id).1.
Proof.
  intros (Ha & Hf & Hp).
  assert (Ho : obfuscate v' c = obfuscate v c).
  { unfold obfuscate. rewrite Hp. reflexivity. }
  unfold encrypt_cookie. rewrite Ha, Ho.
  destruct (keyring_available v); [|destruct (obfuscate v c); reflexivity].
  unfold keyring_store, delete_password, set_password. rewrite Hf.
  destruct (keyring_faulty v) eqn:Hfv; cbn [rbind].
  - destruct (obfuscate v c); reflexivity.
  - destruct (keyring v' !! account_name_of id), (keyring v !! account_name_of id);
      cbn; rewrite ?Hf, ?Hfv; reflexivity.
Qed.

Lemma same_backend_trans v1 v2 v3 :
  same_backend v1 v2 -> same_backend v2 v3 -> same_backend v1 v3.
Proof. unfold same_backend. intros (?&?&?) (?&?&?). repeat split; congruence. Qed.

(** The fields of the record that [save_session] builds, each told by the
    arguments of the call. *)
Lemma build_record_fields v now user_id c n m p pv :
  let r := (build_record v now user_id c n m p pv).1 in
  cookie r = (encrypt_cookie v (session_of c) user_id).1 /\
  timestamp r = Some (now ÷ 1000) /\
  company_name r = slot_of n /\
  login_method r = Some m /\
  app_platform r = filed v (platform_of c p) (APP_PLATFORM_PREFIX ++ user_id) /\
  app_version r = filed v (version_of c pv) (APP_VERSION_PREFIX ++ user_id).
Proof.
  cbv zeta. unfold build_record, filed.
  destruct c as [d|c0]; cbv beta iota; cbn [session_of platform_of version_of];
  match goal with
  | |- context [encrypt_cookie v ?sc user_id] =>
    pose proof (encrypt_cookie_backend v sc user_id) as B1;
    destruct (encrypt_cookie v sc user_id) as [r1 v1]
  end; cbn [fst snd] in *;
  match goal with
  | |- context [if truthy_opt ?x then encrypt_cookie ?va ?x ?i else _] =>
    pose proof (encrypt_cookie_backend va x i) as B2;
    pose proof (encrypt_cookie_reference v va x i B1) as R2;
    destruct (truthy_opt x);
    [destruct (encrypt_cookie va x i) as [r2 v2]|]
  end; cbn [fst snd] in *;
  match goal with
  | |- context [if truthy_opt ?x then encrypt_cookie ?vb ?x ?i else _] =>
    let B := fresh "B" in
    assert (B : same_backend v vb)
      by (first [exact B1 | eapply same_backend_trans; [exact B1|exact B2]]);
    pose proof (encrypt_cookie_reference v vb x i B) as R3;
    destruct (truthy_opt x);
    [destruct (encrypt_cookie vb x i) as [r3 v3]|]
  end; cbn [fst snd] in *;
  repeat split; first [reflexivity | assumption | symmetry; assumption].
Qed.

(** C8: [load_sessions] never raises (here: it is a function to a value,
    and whatever its [try] raises is turned into the empty mapping with a
    logged error) and changes nothing but the error stream. It returns the
    empty mapping for a missing, unreadable or unparseable file, and the
    parsed JSON value for a file that parses; so what it returns is a
    mapping for every document but one that holds a JSON value which is not
    an object, and that value is returned as it is. *)
Theorem C8_load_sessions_never_raises w :
  let sessions := (load_sessions w).1 in
  let w' := (load_sessions w).2 in
  (forall x, read_sessions (disk w) = Raise x ->
     sessions = Sessions [] /\ stderr w' = stderr w ++ [DLoadError]) /\
  (forall s, read_sessions (disk w) = Ok s ->
     sessions = s /\ stderr w' = stderr w) /\
  (disk w = FileMissing \/ disk w = FileUnreadable \/ disk w = FileCorrupt ->
     sessions = Sessions []) /\
  (forall d, disk w = FileSessions d -> sessions = Sessions d) /\
  (forall v, disk w = FileValue v -> sessions = Other v) /\
  ((forall v, disk w <> FileValue v) -> exists d, sessions = Sessions d) /\
  disk w' = disk w /\ disk_writable w' = disk_writable w /\
  vault_of w' = vault_of w /\ clock w' = clock w /\
  requests w' = requests w /\ logins w' = logins w /\ stdout w' = stdout w.
Proof.
  cbv zeta. split; [|split; [|split; [|split; [|split; [|split]]]]].
  - intros x Hx. unfold load_sessions. rewrite Hx. split; reflexivity.
  - intros s Hs. unfold load_sessions. rewrite Hs. split; reflexivity.
  - unfold load_sessions. intros [-> | [-> | ->]]; reflexivity.
  - intros d Hd. unfold load_sessions. rewrite Hd. reflexivity.
  - intros v Hv. unfold load_sessions. rewrite Hv. reflexivity.
  - intros Hn. unfold load_sessions.
    destruct (disk w) as [| | |d|v]; cbn; eauto. destruct (Hn v eq_refl).
  - apply load_sessions_world.
Qed.

(** For a sessions.json that holds the JSON array [[1, 2]] the function
    returns that array: not a mapping. *)
Lemma C8_not_a_mapping_counterexample :
  (load_sessions array_world).1 = Other (JArray 2) /\
  forall d, (load_sessions array_world).1 <> Sessions d.
Proof. split; [reflexivity|]. intros d. discriminate. Qed.

(** C5: on a disk that can be written, with a document whose loaded value
    is a mapping, two saves for one account leave exactly one record under
    its key. Every field of that record is told by the second call alone:
    the references of its cookie, platform and version (a field that the
    second call does not give is absent, whatever the first call gave), its
    company name, its login method and the time of the second save. The
    records of all other keys are as they were loaded. *)
Theorem C5_save_twice_overwrites w d0 user_id c1 n1 m1 p1 v1 c2 n2 m2 p2 v2 :
  disk_writable w = true ->
  (load_sessions w).1 = Sessions d0 ->
  List.NoDup (keys d0) ->
  let w1 := save_session user_id c1 n1 m1 p1 v1 w in
  let w2 := save_session user_id c2 n2 m2 p2 v2 w1 in
  exists d r,
    disk w2 = FileSessions d /\
    occurrences user_id d = 1%nat /\
    dict_get user_id d = Some r /\
    cookie r = (encrypt_cookie (vault_of w1) (session_of c2) user_id).1 /\
    timestamp r = Some (clock w1 ÷ 1000) /\
    company_name r = slot_of n2 /\
    login_method r = Some m2 /\
    app_platform r
    = filed (vault_of w1) (platform_of c2 p2) (APP_PLATFORM_PREFIX ++ user_id) /\
    app_version r
    = filed (vault_of w1) (version_of c2 v2) (APP_VERSION_PREFIX ++ user_id) /\
    forall k, k <> user_id -> dict_get k d = dict_get k d0.
Proof.
  intros Hw Hl Hd w1 w2.
  destruct (save_session_writable user_id c1 n1 m1 p1 v1 w d0 Hw Hl)
    as (Hd1 & Hw1 & Hc1 & _).
  fold w1 in Hd1, Hw1, Hc1.
  destruct (save_session_writable user_id c2 n2 m2 p2 v2 w1 _ Hw1
              (load_sessions_document _ _ Hd1)) as (Hd2 & _).
  fold w2 in Hd2.
  destruct (build_record_fields (vault_of w1) (clock w1) user_id c2 n2 m2 p2 v2)
    as (F1 & F2 & F3 & F4 & F5 & F6).
  eexists _, _. split; [exact Hd2|].
  split; [apply occurrences_set, dict_set_keys_nodup, Hd|].
  split; [apply dict_get_set_eq|].
  repeat (split; [assumption|]).
  intros k Hk. rewrite !dict_get_set_ne by exact Hk. reflexivity.
Qed.

Lemma C5_save_twice_witness :
  let user_id := lit "42" in
  let w := Samples.fresh_world in
  let c2 := Plain (Some (lit "tok2")) in
  let w1 :=
    save_session user_id (Plain (Some (lit "tok1"))) (Some (lit "Acme Co"))
      BROWSER (Some (lit "ios")) None w in
  let w2 := save_session user_id c2 None BROWSER None None w1 in
  exists d r,
    disk w2 = FileSessions d /\
    occurrences user_id d = 1%nat /\
    dict_get user_id d = Some r /\
    cookie r = (encrypt_cookie (vault_of w1) (session_of c2) user_id).1 /\
    timestamp r = Some (clock w1 ÷ 1000) /\
    company_name r = slot_of None /\
    login_method r = Some BROWSER /\
    app_platform r
    = filed (vault_of w1) (platform_of c2 None) (APP_PLATFORM_PREFIX ++ user_id) /\
    app_version r
    = filed (vault_of w1) (version_of c2 None) (APP_VERSION_PREFIX ++ user_id) /\
    forall k, k <> user_id -> dict_get k d = dict_get k [].
Proof.
  apply (C5_save_twice_overwrites Samples.fresh_world [] (lit "42")).
  - reflexivity.
  - reflexivity.
  - constructor.
Defined.

(** On a disk that refuses the write, two saves for account 42 leave no
    record under its key: the file is still missing and nothing is loaded
    from it. *)
Lemma C5_read_only_counterexample :
  let w2 :=
    save_session (lit "42") (Plain (Some (lit "tok2"))) (Some (lit "Acme Co"))
      BROWSER None None
      (save_session (lit "42") (Plain (Some (lit "tok1"))) (Some (lit "Acme Co"))
         BROWSER None None read_only_world) in
  disk w2 = FileMissing /\
  (load_sessions w2).1 = Sessions [] /\
  stderr w2 = [DSaveError; DSaveError].
Proof. vm_compute. repeat split. Qed.

End StoreFacts.

Module ValidatorFacts.
Import Vault World Store Validator StoreFacts.

Lemma untouched_refl w : untouched w w.
Proof. repeat split. Qed.

Lemma untouched_trans w1 w2 w3 :
  untouched w1 w2 -> untouched w2 w3 -> untouched w1 w3.
Proof. unfold untouched. intros (?&?&?&?) (?&?&?&?). repeat split; congruence. Qed.

Lemma untouched_log d w : untouched w (log d w).
Proof. repeat split. Qed.

Lemma untouched_sleep ms w : untouched w (sleep ms w).
Proof. repeat split. Qed.

Lemma untouched_sent h w : untouched w (sent h w).
Proof. repeat split. Qed.

Lemma untouched_login_started w : untouched w (login_started w).
Proof. repeat split. Qed.

Lemma untouched_load w : untouched w (load_sessions w).2.
Proof.
  pose proof (load_sessions_world w) as (?&?&?&?&?&?&?). repeat split; assumption.
Qed.

Ltac untouched_step :=
  first [ apply untouched_refl
        | eapply untouched_trans; [|apply untouched_log]
        | eapply untouched_trans; [|apply untouched_sleep]
        | eapply untouched_trans; [|apply untouched_sent]
        | apply untouched_login_started ].

Lemma check_remote_untouched e c p v w :
  untouched w (check_remote e c p v w).2.
Proof.
  unfold check_remote, post.
  destruct (remote e (requests w) (cookie_header c p v)) as [|status []];
    try destruct (status =? 200); cbn [snd]; repeat untouched_step.
Qed.

Lemma validate_session_cookie_untouched e c user_id w :
  untouched w (validate_session_cookie e c user_id w).2.
Proof.
  unfold validate_session_cookie. destruct c as [d|c].
  - apply check_remote_untouched.
  - destruct (is_encrypted c); [|apply check_remote_untouched].
    destruct (negb (truthy_opt user_id)); [apply untouched_log|].
    destruct (negb (truthy_opt _)); [apply untouched_refl|].
    apply check_remote_untouched.
Qed.

Lemma tagged_is_encrypted c :
  startswith c KEYRING_TAG = true \/ startswith c V1_TAG = true ->
  is_encrypted (Some c) = true.
Proof.
  intros H. cbn [is_encrypted].
  assert (Ht : truthy c = true).
  { destruct c; [|reflexivity]. destruct H; discriminate. }
  rewrite Ht. cbn [andb]. destruct H as [-> | ->]; [reflexivity|apply orb_true_r].
Qed.

(** C9: a string cookie that carries an encryption tag, given without a
    user id ([None] or the empty string), is answered with [None], and no
    request is sent to the service. *)
Theorem C9_tagged_cookie_needs_user_id e c user_id w :
  startswith c KEYRING_TAG = true \/ startswith c V1_TAG = true ->
  user_id = None \/ user_id = Some [] ->
  (validate_session_cookie e (Plain (Some c)) user_id w).1 = None /\
  requests (validate_session_cookie e (Plain (Some c)) user_id w).2 = requests w.
Proof.
  intros Htag Hid. unfold validate_session_cookie.
  rewrite (tagged_is_encrypted c Htag).
  destruct Hid as [-> | ->]; cbn; split; reflexivity.
Qed.

Lemma C9_tagged_cookie_witness :
  (validate_session_cookie Samples.steady_env (Plain (Some (lit "v1:QQ==")))
     None Samples.fresh_world).1 = None /\
  requests (validate_session_cookie Samples.steady_env
              (Plain (Some (lit "v1:QQ=="))) None Samples.fresh_world).2
  = requests Samples.fresh_world.
Proof.
  apply C9_tagged_cookie_needs_user_id.
  - right. reflexivity.
  - left. reflexivity.
Defined.

End ValidatorFacts.

Module BrowserFacts.
Import Vault World Store Validator Browser ValidatorFacts.

Lemma wait_for_login_untouched e b rounds n start w r w' :
  wait_for_login e b rounds n start w = Some (r, w') -> untouched w w'.
Proof.
  revert n w. induction rounds as [|rounds IH]; intros n w; cbn [wait_for_login];
    [discriminate|].
  destruct (clock w - start <? MAX_WAIT); [|intros [= <- <-]; apply untouched_refl].
  destruct (poll b n) as [| |cookies].
  - intros [= <- <-]. apply untouched_log.
  - intros H%IH. eapply untouched_trans; [|exact H]. repeat untouched_step.
  - destruct (find_target e cookies) as [c|];
      [destruct (truthy c)|].
    + unfold post.
      destruct (login_confirmed _).
      * intros [= <- <-]. apply untouched_sent.
      * intros H%IH. eapply untouched_trans; [|exact H]. repeat untouched_step.
    + intros H%IH. eapply untouched_trans; [|exact H]. repeat untouched_step.
    + intros H%IH. eapply untouched_trans; [|exact H]. repeat untouched_step.
Qed.

Lemma browser_login_untouched e w o w' :
  browser_login e w = Some (o, w') -> untouched w w'.
Proof.
  unfold browser_login. cbv zeta. set (b := browsers e (logins w)).
  destruct (driver_found b); cbn [negb]; [|intros [= <- <-]; repeat untouched_step].
  destruct (navigation_ok b); cbn [negb]; [|intros [= <- <-]; repeat untouched_step].
  destruct (wait_for_login e b ROUNDS 0 (clock (login_started w)) (login_started w))
    as [[r w1]|] eqn:Hw; [|discriminate].
  apply wait_for_login_untouched in Hw.
  assert (H0 : untouched w w1).
  { eapply untouched_trans; [apply untouched_login_started|exact Hw]. }
  destruct r; intros [= <- <-]; try exact H0.
  - destruct (overlay_ok b), (final_cookies b); cbn;
      (eapply untouched_trans; [exact H0|]); repeat split.
Qed.

Lemma rounds_value : Z.of_nat ROUNDS = 151.
Proof. reflexivity. Qed.

(** The rounds given to the loop suffice: it always ends. *)
Lemma wait_for_login_total e b rounds n start w :
  clock w - start < MAX_WAIT + POLL_INTERVAL ->
  MAX_WAIT - (clock w - start) + POLL_INTERVAL <= POLL_INTERVAL * Z.of_nat rounds ->
  exists r w', wait_for_login e b rounds n start w = Some (r, w').
Proof.
  unfold MAX_WAIT, POLL_INTERVAL.
  revert n w. induction rounds as [|rounds IH]; intros n w Hlt Hr; [lia|].
  cbn [wait_for_login]. unfold MAX_WAIT.
  destruct (Z.ltb_spec (clock w - start) 300000); [|eauto].
  assert (Hnext : forall w1, clock w1 = clock w + 2000 ->
            exists r w', wait_for_login e b rounds (S n) start w1 = Some (r, w')).
  { intros w1 Hc. apply IH; rewrite Hc; lia. }
  destruct (poll b n) as [| |cookies]; [eauto|apply Hnext; reflexivity|].
  destruct (find_target e cookies) as [c|]; [|apply Hnext; reflexivity].
  destruct (truthy c); [|apply Hnext; reflexivity].
  unfold post. destruct (login_confirmed _); [eauto|apply Hnext; reflexivity].
Qed.

Lemma browser_login_total e w : exists o w', browser_login e w = Some (o, w').
Proof.
  unfold browser_login. cbv zeta. set (b := browsers e (logins w)).
  destruct (driver_found b); cbn [negb]; [|eauto].
  destruct (navigation_ok b); cbn [negb]; [|eauto].
  destruct (wait_for_login_total e b ROUNDS 0
              (clock (login_started w)) (login_started w)) as (r & w1 & ->).
  - unfold MAX_WAIT, POLL_INTERVAL. lia.
  - rewrite rounds_value. unfold MAX_WAIT, POLL_INTERVAL. lia.
  - destruct r; eauto.
Qed.

(** While every poll is fruitless the loop runs to its deadline. *)
Lemma wait_for_login_deadline e b rounds n start w :
  (forall k, fruitless e (poll b k)) ->
  clock w - start < MAX_WAIT + POLL_INTERVAL ->
  MAX_WAIT - (clock w - start) + POLL_INTERVAL <= POLL_INTERVAL * Z.of_nat rounds ->
  exists w', wait_for_login e b rounds n start w = Some (DeadlinePassed, w') /\
    MAX_WAIT <= clock w' - start /\
    (clock w' = clock w \/ clock w' - start < MAX_WAIT + POLL_INTERVAL).
Proof.
  intros Hf. unfold MAX_WAIT, POLL_INTERVAL.
  revert n w. induction rounds as [|rounds IH]; intros n w Hlt Hr; [lia|].
  cbn [wait_for_login]. unfold MAX_WAIT.
  destruct (Z.ltb_spec (clock w - start) 300000).
  2:{ eexists. split; [reflexivity|]. split; [lia|]. left. reflexivity. }
  assert (Hnext : forall w1, clock w1 = clock w + 2000 ->
            exists w', wait_for_login e b rounds (S n) start w1
                       = Some (DeadlinePassed, w') /\
              300000 <= clock w' - start /\
              (clock w' = clock w \/ clock w' - start < 300000 + 2000)).
  { intros w1 Hc. destruct (IH (S n) w1) as (w' & Hw & Hge & Hle); try (rewrite Hc; lia).
    exists w'. split; [exact Hw|]. split; [exact Hge|]. right.
    destruct Hle as [Hle|Hle]; [rewrite Hle, Hc; lia|exact Hle]. }
  specialize (Hf n). unfold fruitless in Hf.
  destruct (poll b n) as [| |cookies]; [contradiction|apply Hnext; reflexivity|].
  destruct (find_target e cookies) as [c|]; [|apply Hnext; reflexivity].
  destruct (truthy c) eqn:Ht; [|apply Hnext; reflexivity].
  unfold post. rewrite (Hf eq_refl). apply Hnext. reflexivity.
Qed.

Lemma never_exposes_fruitless e b :
  never_exposes b -> forall n, fruitless e (poll b n).
Proof.
  intros Hn n. destruct (Hn n) as (cookies & -> & Hall). cbn.
  unfold find_target.
  destruct (List.find _ cookies) as [c|] eqn:Hfind; [|exact I].
  apply find_some in Hfind as [Hin Hname].
  apply bool_decide_eq_true in Hname.
  rewrite Forall_forall in Hall. exfalso. eapply Hall; [|exact Hname].
  apply list_elem_of_In, Hin.
Qed.

(** C4: when the window stays open and no poll can confirm a login (the
    session cookie never shows, or shows and is never confirmed),
    [browser_login] returns no cookie with the time-out message, at least
    300 seconds and at most 300 seconds and one poll interval after its
    start: validations that fail do not move the deadline. *)
Theorem C4_login_times_out e w :
  driver_found (browsers e (logins w)) = true ->
  navigation_ok (browsers e (logins w)) = true ->
  (forall n, fruitless e (poll (browsers e (logins w)) n)) ->
  exists w',
    browser_login e w = Some (NoCookie, w') /\
    last (stderr w') = Some DLoginTimeout /\
    MAX_WAIT <= clock w' - clock w <= MAX_WAIT + POLL_INTERVAL.
Proof.
  intros Hd Hn Hf. unfold browser_login. cbv zeta. rewrite Hd, Hn. cbn [negb].
  destruct (wait_for_login_deadline e (browsers e (logins w)) ROUNDS 0
              (clock (login_started w)) (login_started w) Hf)
    as (w1 & -> & Hge & Hle).
  - unfold MAX_WAIT, POLL_INTERVAL. lia.
  - rewrite rounds_value. unfold MAX_WAIT, POLL_INTERVAL. lia.
  - eexists. split; [reflexivity|]. split.
    + cbn. apply last_snoc.
    + cbn in *. unfold MAX_WAIT, POLL_INTERVAL in *. lia.
Qed.

Lemma C4_login_times_out_witness :
  never_exposes Samples.idle_browser /\
  exists w',
    browser_login Samples.idle_env Samples.fresh_world = Some (NoCookie, w') /\
    last (stderr w') = Some DLoginTimeout /\
    MAX_WAIT <= clock w' - clock Samples.fresh_world <= MAX_WAIT + POLL_INTERVAL.
Proof.
  assert (Hn : never_exposes Samples.idle_browser).
  { intros n. exists []. split; [reflexivity|constructor]. }
  split; [exact Hn|].
  apply (C4_login_times_out Samples.idle_env Samples.fresh_world);
    [reflexivity|reflexivity|].
  apply never_exposes_fruitless, Hn.
Defined.

Lemma last_value_snoc e nm cookies c :
  last_value e nm (cookies ++ [c]) =
    if bool_decide (name c = nm) then Some (normalize e (value c))
    else last_value e nm cookies.
Proof.
  unfold last_value. rewrite rev_app_distr. cbn [rev app List.find].
  destruct (bool_decide (name c = nm)); reflexivity.
Qed.

Lemma or_else_None {A} (o : option A) : or_else o None = o.
Proof. destruct o; reflexivity. Qed.

(** The loop that fills [all_cookies] keeps, for each of the three names,
    the last cookie of the jar. *)
Lemma fold_extract e cookies acc :
  fold_left (extract_one e) cookies acc =
    {| shipping_manager_session :=
         or_else (last_value e TARGET_COOKIE_NAME cookies)
           (shipping_manager_session acc);
       cd_app_platform :=
         or_else (last_value e APP_PLATFORM cookies) (cd_app_platform acc);
       cd_app_version :=
         or_else (last_value e APP_VERSION cookies) (cd_app_version acc) |}.
Proof.
  induction cookies as [|c cookies IH] using rev_ind.
  - destruct acc; reflexivity.
  - rewrite fold_left_app. cbn [fold_left]. rewrite IH, !last_value_snoc.
    unfold extract_one.
    destruct (bool_decide_reflect (name c = TARGET_COOKIE_NAME)) as [->|Ht];
      [reflexivity|].
    destruct (bool_decide_reflect (name c = APP_PLATFORM)) as [->|Hp];
      [reflexivity|].
    destruct (bool_decide_reflect (name c = APP_VERSION)) as [Hv|Hv];
      reflexivity.
Qed.

(** A cookie leaves the loop as validated only when it is non-empty and the
    service has confirmed it. *)
Lemma wait_for_login_validated e b rounds n start w cookie w1 :
  wait_for_login e b rounds n start w = Some (Validated cookie, w1) ->
  truthy cookie = true /\
  exists sent_before,
    login_confirmed (remote e sent_before (TARGET_COOKIE_NAME ++ EQUALS ++ cookie))
    = true.
Proof.
  revert n w. induction rounds as [|rounds IH]; intros n w; cbn [wait_for_login];
    [discriminate|].
  destruct (clock w - start <? MAX_WAIT); [|discriminate].
  destruct (poll b n) as [| |cookies]; [discriminate|apply IH|].
  destruct (find_target e cookies) as [c|]; [|apply IH].
  destruct (truthy c) eqn:Ht; [|apply IH].
  unfold post.
  destruct (login_confirmed _) eqn:Hc; [|apply IH].
  intros [= <- <-]. split; [exact Ht|]. eexists. exact Hc.
Qed.

(** C10 (as amended): a successful [browser_login] returns a dict that holds
    'shipping_manager_session'. Its value is the session cookie of the jar
    as read again after the login (the last cookie of that name,
    normalized), and the token that the loop validated when that reading
    fails or finds no session cookie; 'app_platform' and 'app_version' are
    present exactly when the jar read again holds such cookies. *)
Theorem C10_login_returns_session_cookie e w all_cookies w' :
  browser_login e w = Some (LoggedIn all_cookies, w') ->
  exists cookie w1,
    wait_for_login e (browsers e (logins w)) ROUNDS 0 (clock w) (login_started w)
      = Some (Validated cookie, w1) /\
    truthy cookie = true /\
    shipping_manager_session all_cookies =
      Some (get_default
              (final_cookies (browsers e (logins w))
                 ≫= last_value e TARGET_COOKIE_NAME) cookie) /\
    cd_app_platform all_cookies =
      (final_cookies (browsers e (logins w)) ≫= last_value e APP_PLATFORM) /\
    cd_app_version all_cookies =
      (final_cookies (browsers e (logins w)) ≫= last_value e APP_VERSION).
Proof.
  unfold browser_login. cbv zeta. set (b := browsers e (logins w)).
  destruct (driver_found b); cbn [negb]; [|discriminate].
  destruct (navigation_ok b); cbn [negb]; [|discriminate].
  change (clock (login_started w)) with (clock w).
  destruct (wait_for_login e b ROUNDS 0 (clock w) (login_started w))
    as [[[cookie| |] w1]|] eqn:Hw; try discriminate.
  intros [= <- _]. exists cookie, w1. split; [reflexivity|].
  split; [eapply wait_for_login_validated, Hw|].
  unfold extract_all. destruct (final_cookies b) as [cookies|]; cbn [mbind option_bind].
  - rewrite fold_extract.
    cbn [shipping_manager_session cd_app_platform cd_app_version no_cookies].
    rewrite !or_else_None.
    destruct (last_value e TARGET_COOKIE_NAME cookies);
      cbn [shipping_manager_session cd_app_platform cd_app_version get_default];
      repeat split.
  - repeat split.
Qed.

Lemma C10_login_returns_session_cookie_witness :
  exists cookie w1,
    wait_for_login Samples.renewing_env Samples.renewing_browser ROUNDS 0 0
      (login_started Samples.fresh_world) = Some (Validated cookie, w1) /\
    truthy cookie = true /\
    Some (lit "B") =
      Some (get_default
              (final_cookies Samples.renewing_browser
                 ≫= last_value Samples.renewing_env TARGET_COOKIE_NAME) cookie) /\
    None = (final_cookies Samples.renewing_browser
              ≫= last_value Samples.renewing_env APP_PLATFORM) /\
    None = (final_cookies Samples.renewing_browser
              ≫= last_value Samples.renewing_env APP_VERSION).
Proof.
  refine (C10_login_returns_session_cookie Samples.renewing_env Samples.fresh_world
            {| shipping_manager_session := Some (lit "B");
               cd_app_platform := None; cd_app_version := None |}
            (sleep 3000 (sent (TARGET_COOKIE_NAME ++ EQUALS ++ lit "A")
                           (login_started Samples.fresh_world))) _).
  vm_compute. reflexivity.
Defined.

(** The loop validates the token "A"; the jar read again holds "B", and "B"
    is what the result carries under 'shipping_manager_session'. *)
Lemma C10_validated_token_counterexample :
  exists all_cookies w' w1,
    browser_login Samples.renewing_env Samples.fresh_world
      = Some (LoggedIn all_cookies, w') /\
    wait_for_login Samples.renewing_env Samples.renewing_browser ROUNDS 0 0
      (login_started Samples.fresh_world) = Some (Validated (lit "A"), w1) /\
    shipping_manager_session all_cookies = Some (lit "B") /\
    lit "B" <> lit "A".
Proof.
  do 3 eexists. split; [vm_compute; reflexivity|].
  split; [vm_compute; reflexivity|]. split; [reflexivity|]. intros [= ].
Qed.

End BrowserFacts.

Module FlowFacts.
Import Vault World Store Validator Browser Flow.
Import StoreFacts ValidatorFacts BrowserFacts.

Lemma validate_one_untouched e x acc w : untouched w (validate_one e x acc w).2.
Proof.
  unfold validate_one. destruct x as [user_id session_data].
  assert (Hv : forall c,
    untouched w
      (let '(user_data, w1) :=
         validate_session_cookie e (Plain c) (Some user_id) w in
       match user_data with
       | Some p =>
         (acc ++ [{| vs_user_id := user_id; vs_cookie := c;
                     vs_company_name :=
                       get_or (profile_company_name p)
                         (get_or (company_name session_data) (Some UNKNOWN));
                     vs_user_data := p;
                     vs_login_method :=
                       get_default (login_method session_data) UNKNOWN_METHOD |}],
          w1)
       | None => (acc, log (DExpired user_id) w1)
       end).2).
  { intros c.
    pose proof (validate_session_cookie_untouched e (Plain c) (Some user_id) w) as H.
    destruct (validate_session_cookie e (Plain c) (Some user_id) w) as [[p|] w1];
      exact H. }
  destruct (is_encrypted (cookie session_data)); [|apply Hv].
  destruct (negb (truthy_opt _)); [apply untouched_log|apply Hv].
Qed.

Lemma validate_each_untouched e items acc w :
  untouched w (validate_each e items acc w).2.
Proof.
  revert acc w. induction items as [|x items IH]; intros acc w; cbn [validate_each].
  - apply untouched_refl.
  - pose proof (validate_one_untouched e x acc w) as H1.
    destruct (validate_one e x acc w) as [acc1 w1].
    eapply untouched_trans; [exact H1|apply IH].
Qed.

Lemma validate_all_sessions_untouched e w :
  untouched w (validate_all_sessions e w).2.
Proof.
  unfold validate_all_sessions. pose proof (untouched_load w) as Hl.
  destruct (load_sessions w) as [sessions w1]. cbn [snd] in Hl.
  destruct (negb (truthy_loaded sessions)); [exact Hl|].
  destruct sessions as [d|j]; [|exact Hl].
  pose proof (validate_each_untouched e (sorted_desc d) [] w1) as H1.
  destruct (validate_each e (sorted_desc d) [] w1) as [valid w2].
  eapply untouched_trans; [exact Hl|exact H1].
Qed.

Lemma expired_one_untouched e x acc w : untouched w (expired_one e x acc w).2.
Proof.
  unfold expired_one. destruct x as [user_id session_data].
  pose proof (validate_session_cookie_untouched e
                (Plain (cookie session_data)) (Some user_id) w) as H.
  destruct (validate_session_cookie _ _ _ _) as [[p|] w1]; exact H.
Qed.

Lemma expired_each_untouched e items acc w :
  untouched w (expired_each e items acc w).2.
Proof.
  revert acc w. induction items as [|x items IH]; intros acc w; cbn [expired_each].
  - apply untouched_refl.
  - pose proof (expired_one_untouched e x acc w) as H1.
    destruct (expired_one e x acc w) as [acc1 w1].
    eapply untouched_trans; [exact H1|apply IH].
Qed.

Lemma get_expired_untouched e w :
  untouched w (get_expired_sessions_with_methods e w).2.
Proof.
  unfold get_expired_sessions_with_methods. pose proof (untouched_load w) as Hl.
  destruct (load_sessions w) as [sessions w1]. cbn [snd] in Hl.
  destruct (negb (truthy_loaded sessions)); [exact Hl|].
  destruct sessions as [d|j]; [|exact Hl].
  pose proof (expired_each_untouched e d [] w1) as H1.
  destruct (expired_each e d [] w1) as [expired w2].
  eapply untouched_trans; [exact Hl|exact H1].
Qed.

Lemma save_session_stdout user_id c n m p v w :
  stdout (save_session user_id c n m p v w) = stdout w.
Proof.
  unfold save_session.
  pose proof (load_sessions_world w) as (_ & _ & _ & _ & _ & _ & Hs).
  destruct (load_sessions w) as [sessions w1]. cbn [snd] in Hs.
  destruct (build_record _ _ _ _ _ _ _ _) as [r v'].
  destruct sessions as [d|j]; [|exact Hs].
  cbn [with_vault disk_writable].
  destruct (disk_writable w1); [destruct (World.cookie r)|]; exact Hs.
Qed.

Lemma browser_login_exit e w code w' :
  browser_login e w = Some (ProcessExit code, w') ->
  code = 1 /\ last (stderr w') = Some DBrowserUnavailable.
Proof.
  unfold browser_login. cbv zeta. set (b := browsers e (logins w)).
  destruct (driver_found b); cbn [negb].
  - destruct (navigation_ok b); cbn [negb]; [|discriminate].
    destruct (wait_for_login e b ROUNDS 0 (clock (login_started w)) (login_started w))
      as [[[]]|]; discriminate.
  - intros [= <- <-]. split; [reflexivity|]. cbn. apply last_snoc.
Qed.

Lemma get_user_untouched e c w : untouched w (get_user_from_cookie e c w).2.
Proof. apply validate_session_cookie_untouched. Qed.

(** C2: when the browser login of a refresh authenticates an account whose
    id differs from the selected one, or the service gives no user data for
    the returned cookies, the attempt ends with the wrong-account message
    and the document, the vault and the output are as before; and whenever
    an attempt changes any of them, the authenticated id equals the selected
    one. *)
Theorem C2_refresh_wrong_account e selected_user_id w :
  (forall renewal_cookie w1,
     browser_login e w = Some (LoggedIn renewal_cookie, w1) ->
     has_key renewal_cookie = true ->
     match (get_user_from_cookie e (Bundle renewal_cookie) w1).1 with
     | Some p => str_of_opt_id (profile_id p) <> str_of_opt_id selected_user_id
     | None => True
     end ->
     exists w',
       refresh_attempt e selected_user_id w = Some (None, w') /\
       untouched w w' /\
       last (stderr w') = Some DWrongAccount)
  /\
  (forall out w',
     refresh_attempt e selected_user_id w = Some (out, w') ->
     ~ untouched w w' ->
     exists p,
       authenticated e w = Some p /\
       str_of_opt_id (profile_id p) = str_of_opt_id selected_user_id).
Proof.
  split.
  - intros d w1 Hb Hk Hm. unfold refresh_attempt. rewrite Hb, Hk.
    pose proof (browser_login_untouched _ _ _ _ Hb) as H1.
    pose proof (get_user_untouched e (Bundle d) w1) as H2.
    destruct (get_user_from_cookie e (Bundle d) w1) as [[p|] w2]; cbn [fst snd] in *.
    + rewrite bool_decide_false by exact Hm.
      eexists. split; [reflexivity|]. split.
      * eapply untouched_trans; [exact H1|exact H2].
      * cbn. apply last_snoc.
    + eexists. split; [reflexivity|]. split.
      * eapply untouched_trans; [exact H1|exact H2].
      * cbn. apply last_snoc.
  - intros out w'. unfold refresh_attempt, authenticated.
    destruct (browser_login e w) as [[[d| |code] w1]|] eqn:Hb; [| | |discriminate].
    + pose proof (browser_login_untouched _ _ _ _ Hb) as H1.
      destruct (has_key d); [|intros [= <- <-] Hn; contradiction].
      pose proof (get_user_untouched e (Bundle d) w1) as H2.
      destruct (get_user_from_cookie e (Bundle d) w1) as [[p|] w2]; cbn [fst snd] in *.
      * destruct (bool_decide_reflect
                    (str_of_opt_id (profile_id p) = str_of_opt_id selected_user_id))
          as [Heq|Hne].
        -- intros _ _. exists p. split; [reflexivity|exact Heq].
        -- intros [= <- <-] Hn. exfalso. apply Hn.
           eapply untouched_trans; [exact H1|exact H2].
      * intros [= <- <-] Hn. exfalso. apply Hn.
        eapply untouched_trans; [exact H1|exact H2].
    + intros [= <- <-] Hn. exfalso. apply Hn.
      exact (browser_login_untouched _ _ _ _ Hb).
    + intros [= <- <-] Hn. exfalso. apply Hn.
      exact (browser_login_untouched _ _ _ _ Hb).
Qed.

Lemma C2_refresh_wrong_account_witness :
  exists w',
    refresh_attempt Samples.steady_env (Some (IdStr (lit "7"))) Samples.stored_world
      = Some (None, w') /\
    untouched Samples.stored_world w' /\
    last (stderr w') = Some DWrongAccount.
Proof.
  eapply (proj1 (C2_refresh_wrong_account Samples.steady_env
                   (Some (IdStr (lit "7"))) Samples.stored_world)).
  - vm_compute. reflexivity.
  - reflexivity.
  - vm_compute. intros [= ].
Defined.

Lemma refresh_attempt_surface e selected_user_id w out w' :
  refresh_attempt e selected_user_id w = Some (out, w') ->
  stdout w' = stdout w /\
  forall code, out = Some code ->
    code = 1 /\ last (stderr w') = Some DBrowserUnavailable.
Proof.
  unfold refresh_attempt.
  destruct (browser_login e w) as [[[d| |code] w1]|] eqn:Hb; [| | |discriminate].
  - pose proof (browser_login_untouched _ _ _ _ Hb) as (_ & _ & _ & H1).
    destruct (has_key d); [|intros [= <- <-]; split; [exact H1|discriminate]].
    pose proof (get_user_untouched e (Bundle d) w1) as (_ & _ & _ & H2).
    destruct (get_user_from_cookie e (Bundle d) w1) as [[p|] w2]; cbn [fst snd] in *.
    + destruct (bool_decide _); intros [= <- <-]; (split; [|discriminate]).
      * cbn [log stdout]. rewrite save_session_stdout. congruence.
      * cbn. congruence.
    + intros [= <- <-]. split; [cbn; congruence|discriminate].
  - pose proof (browser_login_untouched _ _ _ _ Hb) as (_ & _ & _ & H1).
    intros [= <- <-]. split; [exact H1|discriminate].
  - pose proof (browser_login_untouched _ _ _ _ Hb) as (_ & _ & _ & H1).
    intros [= <- <-]. split; [exact H1|].
    intros c [= <-]. eapply browser_login_exit, Hb.
Qed.

(** *** The rounds of the main loop

    An induction over the answers of the operator: [I] holds of the script
    that is left, the valid sessions and the world at the head of every
    round, [R] of the world after a refresh, and [Q] of every way the loop
    ends. *)

Section Rounds.

Variables (e : env) (as_main : bool).
Variable I : list selector_result -> list valid_session -> world -> Prop.
Variable R : list selector_result -> world -> Prop.
Variable Q : outcome -> world -> Prop.

Hypothesis Hnew : forall s v w,
  I s v w -> Q (new_login e as_main w).1 (new_login e as_main w).2.
Hypothesis Huse : forall r s v w,
  I (Some (Object r) :: s) v w ->
  get (action r) = Some USE_SESSION ->
  Q (use_session as_main (get (chosen_user_id r)) v w).1
    (use_session as_main (get (chosen_user_id r)) v w).2.
Hypothesis Hcancel : forall s v w,
  I s v w -> Q (leave as_main 0 None) (log DSelectionCancelled w).
Hypothesis Hinvalid : forall s v w,
  I s v w -> Q (Exit 1) (log DInvalidSelectorResult w).
Hypothesis Hstray : forall s v w, I s v w -> Q (Uncaught AttributeError) w.
Hypothesis Hwait : forall s v w, I s v w -> Q Waiting w.
Hypothesis Hdrop : forall a s v w, I (a :: s) v w -> I s v w.
Hypothesis Hexit : forall s v w selected code w1,
  I s v w ->
  refresh_attempt e selected w = Some (Some code, w1) -> Q (Exit code) w1.
Hypothesis Hrenew : forall s v w selected w1,
  I s v w -> refresh_attempt e selected w = Some (None, w1) -> R s w1.
Hypothesis Hround : forall s w,
  R s w ->
  match validate_all_sessions e w with
  | (Raise x, w1) => Q (Uncaught x) w1
  | (Ok valid_sessions, w1) =>
    match get_expired_sessions_with_methods e w1 with
    | (Raise x, w2) => Q (Uncaught x) w2
    | (Ok _, w2) => I s valid_sessions w2
    end
  end.

Lemma main_loop_rounds : forall n script valid_sessions expired_sessions w,
  (length script <= n)%nat ->
  I script valid_sessions w ->
  Q (main_loop e as_main script valid_sessions expired_sessions w).1
    (main_loop e as_main script valid_sessions expired_sessions w).2.
Proof.
  induction n as [|n IH]; intros script valid expired w Hlen Hs.
  - destruct script; [|cbn in Hlen; lia].
    destruct valid, expired; cbn [main_loop];
      solve [eapply Hnew, Hs | eapply Hwait, Hs].
  - destruct script as [|a script1].
    { destruct valid, expired; cbn [main_loop];
        solve [eapply Hnew, Hs | eapply Hwait, Hs]. }
    cbn in Hlen.
    pose proof (Hdrop _ _ _ _ Hs) as Hs1.
    destruct valid as [|v valid], expired as [|x expired]; cbn [main_loop];
      [eapply Hnew, Hs| | |].
    all: destruct (no_result a); [eapply Hcancel, Hs|].
    all: destruct a as [[r|j]|]; [|eapply Hstray, Hs|eapply Hcancel, Hs].
    all: destruct (bool_decide (get (action r) = Some NEW_SESSION));
      [eapply Hnew, Hs|].
    all: destruct (bool_decide (get (action r) = Some REFRESH_SESSIONS));
      [|destruct (bool_decide_reflect (get (action r) = Some USE_SESSION)) as [Hu|Hu];
        [exact (Huse _ _ _ _ Hs Hu)|eapply Hinvalid, Hs]].
    all: match goal with
         | |- context [map vs_user_id ?a ++ map es_user_id ?b] =>
           destruct (map vs_user_id a ++ map es_user_id b) as [|k ks]
         end; [apply IH; [lia|exact Hs1]|].
    all: destruct script1 as [|a2 script2]; [eapply Hwait, Hs|]; cbn in Hlen.
    all: pose proof (Hdrop _ _ _ _ Hs1) as Hs2.
    all: destruct (no_result a2); [apply IH; [lia|exact Hs2]|].
    all: destruct a2 as [[r2|j2]|];
      [|eapply Hstray, Hs|apply IH; [lia|exact Hs2]].
    all: destruct (bool_decide (get (action r2) = Some USE_SESSION));
      [|apply IH; [lia|exact Hs2]].
    all: destruct (List.find _ (k :: ks)); [|apply IH; [lia|exact Hs2]].
    all: destruct (refresh_attempt e (get (chosen_user_id r2)) w)
           as [[[code|] w1]|] eqn:Hr;
      [exact (Hexit _ _ _ _ _ _ Hs2 Hr)| |eapply Hwait, Hs].
    all: pose proof (Hround _ _ (Hrenew _ _ _ _ _ Hs2 Hr)) as Hrd.
    all: destruct (validate_all_sessions e w1) as [[valid'|x1] w2]; [|exact Hrd].
    all: destruct (get_expired_sessions_with_methods e w2) as [[expired'|x2] w3];
      [|exact Hrd].
    all: apply IH; [lia|exact Hrd].
Qed.

Lemma main_rounds script w :
  R script w -> Q (main e as_main script w).1 (main e as_main script w).2.
Proof.
  intros Hw. unfold main. pose proof (Hround _ _ Hw) as Hrd.
  destruct (validate_all_sessions e w) as [[valid|x1] w1]; [|exact Hrd].
  destruct (get_expired_sessions_with_methods e w1) as [[expired|x2] w2];
    [|exact Hrd].
  eapply main_loop_rounds; [reflexivity|exact Hrd].
Qed.

End Rounds.

(** *** The surface of the process *)












End FlowFacts.

Module PartitionFacts.
Import Vault World Store Validator.
Import StoreFacts ValidatorFacts FlowFacts.

(** *** The stable descending sort *)

Lemma insert_desc_in x l y : In y (insert_desc x l) <-> y = x \/ In y l.
Proof.
  induction l as [|z l IH]; cbn; [intuition congruence|].
  destruct (sort_key x <? sort_key z); cbn; [rewrite IH|]; intuition congruence.
Qed.

Lemma sorted_desc_in l y : In y (sorted_desc l) <-> In y l.
Proof.
  induction l as [|x l IH]; cbn; [tauto|].
  rewrite insert_desc_in, IH. intuition congruence.
Qed.

Lemma insert_desc_filter_length f x l :
  length (List.filter f (insert_desc x l)) = length (List.filter f (x :: l)).
Proof.
  induction l as [|z l IH]; [reflexivity|]. cbn [insert_desc].
  destruct (sort_key x <? sort_key z); [|reflexivity].
  cbn [List.filter] in *. destruct (f z), (f x); cbn [length] in *; lia.
Qed.

Lemma sorted_desc_filter_length f l :
  length (List.filter f (sorted_desc l)) = length (List.filter f l).
Proof.
  induction l as [|x l IH]; [reflexivity|]. cbn [sorted_desc foldr].
  rewrite insert_desc_filter_length. cbn [List.filter].
  fold (sorted_desc l). destruct (f x); cbn [length]; rewrite IH; reflexivity.
Qed.

Lemma insert_desc_descending x l : descending l -> descending (insert_desc x l).
Proof.
  unfold descending. induction l as [|z l IH]; intros Hl; cbn [insert_desc].
  - repeat constructor.
  - inversion Hl as [|? ? Hl' Hz]; subst.
    destruct (Z.ltb_spec (sort_key x) (sort_key z)).
    + constructor; [apply IH, Hl'|].
      apply List.Forall_forall. intros y Hy. apply insert_desc_in in Hy as [->|Hy];
        [lia|]. rewrite List.Forall_forall in Hz. apply Hz, Hy.
    + constructor; [exact Hl|].
      constructor; [lia|]. eapply List.Forall_impl; [|exact Hz].
      cbn. intros; lia.
Qed.

Lemma sorted_desc_descending l : descending (sorted_desc l).
Proof.
  induction l as [|x l IH]; cbn; [constructor|]. apply insert_desc_descending, IH.
Qed.

Lemma filter_descending f l : descending l -> descending (List.filter f l).
Proof.
  unfold descending. induction 1 as [|x l Hl IH Hx]; cbn; [constructor|].
  destruct (f x); [|exact IH]. constructor; [exact IH|].
  apply List.Forall_forall. intros y Hy. apply filter_In in Hy as [Hy _].
  rewrite List.Forall_forall in Hx. apply Hx, Hy.
Qed.

(** *** Lookups in a dict with unique keys *)

Lemma dict_get_in {V} (d : dict V) k v :
  List.NoDup (keys d) -> In (k, v) d -> dict_get k d = Some v.
Proof.
  induction d as [|[k0 v0] d IH]; cbn; intros Hd Hin; [contradiction|].
  inversion Hd as [|? ? Hn Hd']; subst.
  destruct Hin as [[= -> ->]|Hin].
  - rewrite decide_True by reflexivity. reflexivity.
  - destruct (decide (k0 = k)) as [->|Hne]; [|apply IH; assumption].
    exfalso. apply Hn. change k with (k, v).1. apply in_map, Hin.
Qed.

Lemma stored_timestamp_in sessions x :
  List.NoDup (keys sessions) -> In x sessions ->
  stored_timestamp sessions x.1 = sort_key x.
Proof.
  intros Hd Hin. unfold stored_timestamp. destruct x as [k r]. cbn [fst].
  rewrite (dict_get_in _ _ _ Hd Hin). reflexivity.
Qed.

(** *** The checks under a stub service *)

Lemma check_remote_verdict e c p v w :
  (check_remote e c p v w).1 = accepted (remote e (requests w) (cookie_header c p v)).
Proof.
  unfold check_remote, post.
  destruct (remote e (requests w) (cookie_header c p v)) as [|status []];
    try destruct (status =? 200); reflexivity.
Qed.

Lemma plain_verdict e c w :
  deterministic e -> is_encrypted c = false ->
  forall user_id,
    (validate_session_cookie e (Plain c) user_id w).1
    = accepted (remote e [] (cookie_header c None None)).
Proof.
  intros Hdet Hc user_id. unfold validate_session_cookie. rewrite Hc.
  rewrite check_remote_verdict. f_equal. apply Hdet.
Qed.

(** What [get_expired_sessions_with_methods] finds for a record. *)
Lemma stored_verdict e x w :
  deterministic e -> well_kept (vault_of w) x ->
  (validate_session_cookie e (Plain (cookie x.2)) (Some x.1) w).1 = None
  <-> live e (vault_of w) x = false.
Proof.
  intros Hdet Hk. unfold well_kept, live, plaintext_of in *.
  destruct (is_encrypted (cookie x.2)) eqn:He.
  - destruct (Hk eq_refl) as (Hid & Hp & Hu).
    unfold validate_session_cookie. rewrite He. cbn [truthy_opt]. rewrite Hid.
    cbn [negb]. rewrite Hp. cbn [negb]. rewrite check_remote_verdict.
    rewrite (Hdet _ (requests w) []).
    destruct (accepted _); split; congruence.
  - rewrite (plain_verdict e _ w Hdet He).
    destruct (accepted _); split; congruence.
Qed.

(** What [validate_all_sessions] finds for a record. *)
Lemma validate_one_keys e x acc w :
  deterministic e -> well_kept (vault_of w) x ->
  map vs_user_id (validate_one e x acc w).1
  = map vs_user_id acc ++ (if live e (vault_of w) x then [x.1] else []).
Proof.
  intros Hdet Hk. unfold well_kept, validate_one, live, plaintext_of in *.
  destruct x as [user_id session_data]. cbn [fst snd] in *.
  destruct (is_encrypted (cookie session_data)) eqn:He.
  - destruct (Hk eq_refl) as (Hid & Hp & Hu). rewrite Hp. cbn [negb].
    pose proof (plain_verdict e _ w Hdet Hu (Some user_id)) as Hv.
    destruct (validate_session_cookie e (Plain _) (Some user_id) w) as [[p|] w1];
      cbn [fst] in Hv; rewrite <- Hv; cbn [fst].
    + rewrite map_app. reflexivity.
    + rewrite app_nil_r. reflexivity.
  - pose proof (plain_verdict e _ w Hdet He (Some user_id)) as Hv.
    destruct (validate_session_cookie e (Plain _) (Some user_id) w) as [[p|] w1];
      cbn [fst] in Hv; rewrite <- Hv; cbn [fst].
    + rewrite map_app. reflexivity.
    + rewrite app_nil_r. reflexivity.
Qed.

Lemma validate_each_keys e items : forall acc w,
  deterministic e -> List.Forall (well_kept (vault_of w)) items ->
  map vs_user_id (validate_each e items acc w).1
  = map vs_user_id acc ++ keys (List.filter (live e (vault_of w)) items).
Proof.
  induction items as [|x items IH]; intros acc w Hdet Hk; cbn [validate_each].
  - cbn. rewrite app_nil_r. reflexivity.
  - inversion Hk as [|? ? Hx Hk']; subst.
    pose proof (validate_one_keys e x acc w Hdet Hx) as H1.
    pose proof (validate_one_untouched e x acc w) as (_ & _ & Hv & _).
    destruct (validate_one e x acc w) as [acc1 w1]. cbn [fst snd] in *.
    rewrite IH by (try rewrite Hv; assumption).
    rewrite H1, Hv. cbn [List.filter].
    destruct (live e (vault_of w) x); cbn; rewrite <- app_assoc; reflexivity.
Qed.

Lemma expired_each_keys e items : forall acc w,
  deterministic e -> List.Forall (well_kept (vault_of w)) items ->
  map es_user_id (expired_each e items acc w).1
  = map es_user_id acc
    ++ keys (List.filter (fun x => negb (live e (vault_of w) x)) items).
Proof.
  induction items as [|x items IH]; intros acc w Hdet Hk; cbn [expired_each].
  - cbn. rewrite app_nil_r. reflexivity.
  - inversion Hk as [|? ? Hx Hk']; subst.
    pose proof (stored_verdict e x w Hdet Hx) as H1.
    pose proof (expired_one_untouched e x acc w) as (_ & _ & Hv & _).
    unfold expired_one in *. destruct x as [user_id session_data].
    cbn [fst snd] in *.
    destruct (validate_session_cookie e (Plain (cookie session_data))
                (Some user_id) w) as [[p|] w1]; cbn [fst snd] in *.
    + rewrite IH by (try rewrite Hv; assumption). rewrite Hv. cbn [List.filter].
      destruct (live e (vault_of w) (user_id, session_data)); cbn [negb].
      * reflexivity.
      * destruct H1 as [_ H1]. discriminate (H1 eq_refl).
    + rewrite IH by (try rewrite Hv; assumption). rewrite Hv. cbn [List.filter].
      rewrite (proj1 H1 eq_refl). cbn [negb keys map].
      rewrite map_app, <- app_assoc. reflexivity.
Qed.

Lemma filter_split_length {A} (f : A -> bool) l :
  (length (List.filter f l)
   + length (List.filter (fun x => negb (f x)) l) = length l)%nat.
Proof.
  induction l as [|x l IH]; [reflexivity|]. cbn [List.filter].
  destruct (f x); cbn [negb length]; lia.
Qed.

Lemma unique_entry {V} (d : dict V) x y :
  List.NoDup (keys d) -> In x d -> In y d -> x.1 = y.1 -> x = y.
Proof.
  intros Hd Hx Hy Heq. destruct x as [k v], y as [k' v']. cbn in Heq. subst k'.
  pose proof (dict_get_in _ _ _ Hd Hx) as H1.
  pose proof (dict_get_in _ _ _ Hd Hy) as H2. congruence.
Qed.

Lemma descending_timestamps sessions items :
  List.NoDup (keys sessions) ->
  (forall x, In x items -> In x sessions) ->
  descending items ->
  StronglySorted Z.ge (map (stored_timestamp sessions) (keys items)).
Proof.
  intros Hd Hsub Hs. unfold descending in Hs.
  induction Hs as [|x l Hl IH Hx]; cbn; [constructor|].
  constructor.
  - apply IH. intros y Hy. apply Hsub. right. exact Hy.
  - apply List.Forall_forall. intros t Ht.
    apply in_map_iff in Ht as (k & <- & Hk).
    apply in_map_iff in Hk as (y & <- & Hy).
    rewrite (stored_timestamp_in sessions x Hd) by (apply Hsub; left; reflexivity).
    rewrite (stored_timestamp_in sessions y Hd) by (apply Hsub; right; exact Hy).
    rewrite List.Forall_forall in Hx. apply Hx, Hy.
Qed.

(** The sort is stable: the records with a given key are in the sorted
    list in the order they have in the store. *)
Lemma insert_desc_stable t x l :
  List.filter (fun y => sort_key y =? t) (insert_desc x l)
  = List.filter (fun y => sort_key y =? t) (x :: l).
Proof.
  induction l as [|z l IH]; [reflexivity|]. cbn [insert_desc].
  destruct (Z.ltb_spec (sort_key x) (sort_key z)) as [Hlt|Hge]; [|reflexivity].
  cbn [List.filter] in *. rewrite IH.
  destruct (Z.eqb_spec (sort_key x) t) as [Hx|Hx],
           (Z.eqb_spec (sort_key z) t) as [Hz|Hz]; try reflexivity.
  lia.
Qed.

Lemma sorted_desc_stable t l :
  List.filter (fun y => sort_key y =? t) (sorted_desc l)
  = List.filter (fun y => sort_key y =? t) l.
Proof.
  induction l as [|x l IH]; [reflexivity|]. cbn [sorted_desc foldr].
  rewrite insert_desc_stable. fold (sorted_desc l). cbn [List.filter].
  rewrite IH. reflexivity.
Qed.

Lemma filter_filter_and {A} (f g : A -> bool) l :
  List.filter f (List.filter g l) = List.filter (fun x => g x && f x) l.
Proof.
  induction l as [|x l IH]; [reflexivity|]. cbn [List.filter].
  destruct (g x); cbn [List.filter andb]; [destruct (f x)|]; rewrite IH;
    reflexivity.
Qed.

Lemma filter_stored_timestamp sessions t items :
  List.NoDup (keys sessions) ->
  (forall x, In x items -> In x sessions) ->
  List.filter (fun k => stored_timestamp sessions k =? t) (keys items)
  = keys (List.filter (fun x => sort_key x =? t) items).
Proof.
  intros Hd. induction items as [|x items IH]; intros Hsub; [reflexivity|].
  cbn [keys map List.filter].
  rewrite (stored_timestamp_in sessions x Hd) by (apply Hsub; left; reflexivity).
  fold (keys items). rewrite IH by (intros y Hy; apply Hsub; right; exact Hy).
  destruct (sort_key x =? t); reflexivity.
Qed.

Lemma validate_all_keys e w sessions :
  deterministic e -> disk w = FileSessions sessions ->
  List.Forall (well_kept (vault_of w)) sessions ->
  exists valid,
    (validate_all_sessions e w).1 = Ok valid /\
    map vs_user_id valid
    = keys (List.filter (live e (vault_of w)) (sorted_desc sessions)).
Proof.
  intros Hdet Hdisk Hk. unfold validate_all_sessions, load_sessions.
  rewrite Hdisk. cbn [read_sessions].
  destruct sessions as [|x sessions]; [exists []; split; reflexivity|].
  cbn [truthy_loaded negb].
  pose proof (validate_each_keys e (sorted_desc (x :: sessions)) [] w Hdet) as H.
  destruct (validate_each e (sorted_desc (x :: sessions)) [] w) as [valid w2].
  exists valid. split; [reflexivity|]. apply H.
  apply List.Forall_forall. intros y Hy. apply (proj1 (sorted_desc_in _ _)) in Hy.
  rewrite List.Forall_forall in Hk. apply Hk, Hy.
Qed.

Lemma get_expired_keys e w sessions :
  deterministic e -> disk w = FileSessions sessions ->
  List.Forall (well_kept (vault_of w)) sessions ->
  exists expired,
    (get_expired_sessions_with_methods e w).1 = Ok expired /\
    map es_user_id expired
    = keys (List.filter (fun x => negb (live e (vault_of w) x)) sessions).
Proof.
  intros Hdet Hdisk Hk. unfold get_expired_sessions_with_methods, load_sessions.
  rewrite Hdisk. cbn [read_sessions].
  destruct sessions as [|x sessions]; [exists []; split; reflexivity|].
  cbn [truthy_loaded negb].
  pose proof (expired_each_keys e (x :: sessions) [] w Hdet Hk) as H.
  destruct (expired_each e (x :: sessions) [] w) as [expired w2].
  exists expired. split; [reflexivity|exact H].
Qed.

(** C3 (as amended): with a stub service and a store of N records with
    distinct account ids whose tagged cookies are filed under a non-empty id
    and decrypt to untagged credentials, of which exactly K pass the
    liveness check,
    [validate_all_sessions] yields K valid entries,
    [get_expired_sessions_with_methods] yields N-K expired entries, every
    account lands in exactly one of the two lists, the stored timestamps
    never increase along the valid list, and the valid accounts with one and
    the same stored timestamp are the live records with that timestamp in
    the order of the store. *)
Theorem C3_validation_partitions e w sessions :
  deterministic e ->
  disk w = FileSessions sessions ->
  List.NoDup (keys sessions) ->
  List.Forall (well_kept (vault_of w)) sessions ->
  let K := length (List.filter (live e (vault_of w)) sessions) in
  exists valid expired,
    (validate_all_sessions e w).1 = Ok valid /\
    (get_expired_sessions_with_methods e (validate_all_sessions e w).2).1
      = Ok expired /\
    length valid = K /\
    length expired = (length sessions - K)%nat /\
    (forall user_id, In user_id (keys sessions) ->
       (In user_id (map vs_user_id valid)
        /\ ~ In user_id (map es_user_id expired))
       \/ (~ In user_id (map vs_user_id valid)
           /\ In user_id (map es_user_id expired))) /\
    StronglySorted Z.ge
      (map (stored_timestamp sessions) (map vs_user_id valid)) /\
    (forall t,
       List.filter (fun k => stored_timestamp sessions k =? t)
         (map vs_user_id valid)
       = keys (List.filter
                 (fun x => (sort_key x =? t) && live e (vault_of w) x)
                 sessions)).
Proof.
  intros Hdet Hdisk Hd Hk K.
  destruct (validate_all_keys e w sessions Hdet Hdisk Hk) as (valid & Hok & Hv).
  pose proof (validate_all_sessions_untouched e w) as (Hd1 & _ & Hv1 & _).
  destruct (get_expired_keys e (validate_all_sessions e w).2 sessions Hdet)
    as (expired & Hoke & He); [congruence|rewrite Hv1; exact Hk|].
  rewrite Hv1 in He.
  exists valid, expired. split; [exact Hok|]. split; [exact Hoke|].
  assert (Hlv : length valid = K).
  { rewrite <- (length_map vs_user_id), Hv. unfold keys. rewrite length_map.
    apply sorted_desc_filter_length. }
  assert (Hle : length expired = (length sessions - K)%nat).
  { rewrite <- (length_map es_user_id), He. unfold keys. rewrite length_map.
    pose proof (filter_split_length (live e (vault_of w)) sessions). fold K in H. lia. }
  split; [exact Hlv|]. split; [exact Hle|]. split; [|split].
  - intros user_id Hin. rewrite Hv, He.
    apply in_map_iff in Hin as (x & <- & Hx).
    destruct (live e (vault_of w) x) eqn:Hl.
    + left. split.
      * apply in_map. apply filter_In. split; [apply sorted_desc_in, Hx|exact Hl].
      * intros Hy. apply in_map_iff in Hy as (y & Heq & Hy).
        apply filter_In in Hy as [Hy Hny].
        rewrite (unique_entry sessions y x Hd Hy Hx Heq), Hl in Hny. discriminate.
    + right. split.
      * intros Hy. apply in_map_iff in Hy as (y & Heq & Hy).
        apply filter_In in Hy as [Hy Hly]. apply (proj1 (sorted_desc_in _ _)) in Hy.
        rewrite (unique_entry sessions y x Hd Hy Hx Heq), Hl in Hly. discriminate.
      * apply in_map. apply filter_In. split; [exact Hx|]. rewrite Hl. reflexivity.
  - rewrite Hv. apply descending_timestamps; [exact Hd| |].
    + intros x Hx. apply filter_In in Hx as [Hx _].
      apply (proj1 (sorted_desc_in _ _)), Hx.
    + apply filter_descending, sorted_desc_descending.
  - intros t. rewrite Hv.
    rewrite (filter_stored_timestamp sessions t _ Hd).
    + f_equal.
      transitivity
        (List.filter (fun x => (sort_key x =? t) && live e (vault_of w) x)
           (sorted_desc sessions)).
      { rewrite filter_filter_and. apply filter_ext. intros x. apply andb_comm. }
      rewrite <- (filter_filter_and (live e (vault_of w))
                    (fun x => sort_key x =? t) (sorted_desc sessions)).
      rewrite sorted_desc_stable. apply filter_filter_and.
    + intros x Hx. apply filter_In in Hx as [Hx _].
      apply (proj1 (sorted_desc_in _ _)), Hx.
Qed.

Lemma steady_env_deterministic : deterministic Samples.steady_env.
Proof. intros header before before'. reflexivity. Qed.

Lemma C3_validation_partitions_witness :
  let K :=
    length (List.filter (live Samples.steady_env (vault_of Samples.twin_world))
              Samples.twin_sessions) in
  exists valid expired,
    (validate_all_sessions Samples.steady_env Samples.twin_world).1 = Ok valid /\
    (get_expired_sessions_with_methods Samples.steady_env
       (validate_all_sessions Samples.steady_env Samples.twin_world).2).1
      = Ok expired /\
    length valid = K /\
    length expired = (length Samples.twin_sessions - K)%nat /\
    (forall user_id, In user_id (keys Samples.twin_sessions) ->
       (In user_id (map vs_user_id valid)
        /\ ~ In user_id (map es_user_id expired))
       \/ (~ In user_id (map vs_user_id valid)
           /\ In user_id (map es_user_id expired))) /\
    StronglySorted Z.ge
      (map (stored_timestamp Samples.twin_sessions) (map vs_user_id valid)) /\
    (forall t,
       List.filter (fun k => stored_timestamp Samples.twin_sessions k =? t)
         (map vs_user_id valid)
       = keys (List.filter
                 (fun x => (sort_key x =? t)
                           && live Samples.steady_env
                                (vault_of Samples.twin_world) x)
                 Samples.twin_sessions)).
Proof.
  apply (C3_validation_partitions Samples.steady_env Samples.twin_world
           Samples.twin_sessions).
  - exact steady_env_deterministic.
  - reflexivity.
  - repeat constructor; cbn; intuition discriminate.
  - repeat constructor; intros He; discriminate He.
Defined.

(** Two live records saved in the same second: both are valid, with equal
    timestamps, so the valid list is not strictly descending. *)
Lemma C3_strictly_descending_counterexample :
  exists valid,
    (validate_all_sessions Samples.steady_env Samples.twin_world).1 = Ok valid /\
    length valid = 2%nat /\
    ~ StronglySorted Z.gt
        (map (stored_timestamp Samples.twin_sessions) (map vs_user_id valid)).
Proof.
  destruct (validate_all_sessions Samples.steady_env Samples.twin_world).1
    as [valid|x] eqn:Hv; [|vm_compute in Hv; discriminate].
  exists valid. split; [reflexivity|].
  vm_compute in Hv. injection Hv as <-.
  split; [reflexivity|].
  assert (Hts : forall l, l = [1700000000; 1700000000] -> ~ StronglySorted Z.gt l).
  { intros l -> H. inversion H as [|? ? _ Hf]; subst.
    inversion Hf as [|? ? Hgt _]; subst. lia. }
  apply Hts. vm_compute. reflexivity.
Qed.

(** Why the account id of a tagged record must not be empty: the record
    below is decrypted and found valid by [validate_all_sessions], and
    reported expired by [get_expired_sessions_with_methods], which refuses
    to decrypt without a user id. *)
Lemma empty_account_id_lands_in_both_lists :
  exists valid expired,
    (validate_all_sessions Samples.steady_env Samples.nameless_world).1
      = Ok valid /\
    (get_expired_sessions_with_methods Samples.steady_env
       (validate_all_sessions Samples.steady_env Samples.nameless_world).2).1
      = Ok expired /\
    map vs_user_id valid = [[]] /\ map es_user_id expired = [[]].
Proof. eexists _, _. vm_compute. repeat split. Qed.

(** Why the decrypted cookie must carry no tag of its own: the first pass
    decrypts the record below twice (down to the live token), the second
    pass once. *)
Lemma tagged_plaintext_lands_in_both_lists :
  exists valid expired,
    (validate_all_sessions Samples.steady_env Samples.nested_world).1
      = Ok valid /\
    (get_expired_sessions_with_methods Samples.steady_env
       (validate_all_sessions Samples.steady_env Samples.nested_world).2).1
      = Ok expired /\
    map vs_user_id valid = [lit "7"] /\ map es_user_id expired = [lit "7"].
Proof. eexists _, _. vm_compute. repeat split. Qed.

End PartitionFacts.

(** ** The definitions at work on small inputs *)

Module Examples.
Import Codec Vault World Store Validator Browser Flow More.

Example utf8_euro : utf8_encode [0x20AC] = Some [0xE2; 0x82; 0xAC].
Proof. reflexivity. Qed.

Example utf8_emoji : utf8_encode [0x1F600] = Some [0xF0; 0x9F; 0x98; 0x80].
Proof. reflexivity. Qed.

Example utf8_lone_surrogate : utf8_encode [0xD800] = None.
Proof. reflexivity. Qed.

Example utf8_overlong_refused : utf8_decode [0xC0; 0x80] = None.
Proof. reflexivity. Qed.

Example b64_three_bytes : b64encode (lit "Man") = lit "TWFu".
Proof. reflexivity. Qed.

Example b64_two_bytes : b64encode (lit "Ma") = lit "TWE=".
Proof. reflexivity. Qed.

Example b64_one_byte : b64encode (lit "M") = lit "TQ==".
Proof. reflexivity. Qed.

Example b64_skips_newlines :
  b64decode (lit "TW" ++ [10] ++ lit "Fu") = Ok (lit "Man").
Proof. reflexivity. Qed.

Example b64_incorrect_padding : b64decode (lit "TWF") = Raise BinasciiError.
Proof. reflexivity. Qed.

Example str_of_int_id : str_of_id (IdInt 42) = lit "42".
Proof. reflexivity. Qed.

Example account_name_numeric : account_name_of (lit "42") = lit "session_42".
Proof. reflexivity. Qed.

Example account_name_platform :
  vault_identity FPlatform (lit "42") = lit "app_platform_42".
Proof. reflexivity. Qed.

Example encrypt_fallback_token :
  (encrypt_cookie vault_without_keyring (Some (lit "A")) (lit "42")).1
  = Some (lit "v1:QQ==").
Proof. reflexivity. Qed.

Example encrypt_keyring_token :
  (encrypt_cookie vault_with_keyring (Some (lit "A")) (lit "42")).1
  = Some (lit "KEYRING:session_42").
Proof. reflexivity. Qed.

Example decrypt_plaintext :
  decrypt_cookie vault_without_keyring (Some (lit "legacy")) None
  = Some (lit "legacy").
Proof. reflexivity. Qed.

Example strip_both_ends : strip (lit "  tok123 ") = lit "tok123".
Proof. reflexivity. Qed.

Example header_with_platform :
  cookie_header (Some (lit "t")) (Some (lit "ios")) None
  = lit "shipping_manager_session=t; app_platform=ios".
Proof. reflexivity. Qed.

(** An empty store and a browser that logs in as account 42: the process
    prints "42", exits with code 0 and leaves one record under "42". *)
Example first_login :
  let '(out, w') := main Samples.steady_env true [] Samples.fresh_world in
  out = Exit 0 /\
  stdout w' = [lit "42"] /\
  disk w' =
    FileSessions
      [(lit "42",
        {| cookie := Some (lit "v1:QQ==");
           timestamp := Some 3;
           company_name := Holds (lit "Acme Co");
           login_method := Some (lit "browser");
           app_platform := None;
           app_version := None |})].
Proof. vm_compute. repeat split. Qed.

(** [int()] drops the fraction towards zero: half a second before 1970 is
    second 0, one and a half seconds before is second -1. *)
Example timestamp_before_1970 :
  timestamp (build_record vault_without_keyring (-500) (lit "42") (Plain None)
               None BROWSER None None).1 = Some 0 /\
  timestamp (build_record vault_without_keyring (-1500) (lit "42") (Plain None)
               None BROWSER None None).1 = Some (-1).
Proof. split; reflexivity. Qed.

(** A profile with "company_name": null is filed with a null company name,
    not with "Unknown". *)
Example null_company_name_is_stored :
  let w' := (main unnamed_env true [] Samples.fresh_world).2 in
  exists r,
    disk w' = FileSessions [(lit "42", r)] /\ company_name r = Null.
Proof. eexists. vm_compute. split; reflexivity. Qed.

(** A sessions.json that holds [[1, 2]]: both passes raise, and so does
    [main]; a save logs its error and leaves the file alone. *)
Example array_document :
  (validate_all_sessions Samples.steady_env array_world).1 = Raise AttributeError /\
  (get_expired_sessions_with_methods Samples.steady_env array_world).1
    = Raise AttributeError /\
  (main Samples.steady_env true [] array_world).1 = Uncaught AttributeError /\
  disk (save_session (lit "42") (Plain (Some (lit "A"))) None BROWSER None None
          array_world) = FileValue (JArray 2).
Proof. vm_compute. repeat split. Qed.

(** A sessions.json that holds a number has no [len()]. *)
Example number_document :
  (validate_all_sessions Samples.steady_env
     (with_disk Samples.fresh_world (FileValue (JNumber 7)))).1 = Raise TypeError.
Proof. reflexivity. Qed.

(** A sessions.json that holds null counts as an empty store. *)
Example null_document :
  (validate_all_sessions Samples.steady_env
     (with_disk Samples.fresh_world (FileValue JNull))).1 = Ok [].
Proof. reflexivity. Qed.

(** The selector answers {"foo": 1}: an invalid result, exit code 1. *)
Example foreign_object_is_invalid :
  let '(out, w') :=
    main Samples.idle_env true [Some foreign_object] Samples.stored_world in
  out = Exit 1 /\ stdout w' = [] /\
  last (stderr w') = Some DInvalidSelectorResult.
Proof. vm_compute. repeat split. Qed.

(** The selector answers [[1]]: [.get] raises on a list. *)
Example stray_answer_raises :
  (main Samples.idle_env true [Some (Stray (JArray 1))] Samples.stored_world).1
  = Uncaught AttributeError.
Proof. vm_compute. reflexivity. Qed.

End Examples.

(** * Further properties of the vault *)

Module VaultMore.
Import Codec CodecFacts Vault VaultFacts.

Lemma keyring_reference_tagged name : is_encrypted (Some (KEYRING_TAG ++ name)) = true.
Proof. cbn [is_encrypted]. rewrite startswith_app. reflexivity. Qed.

Lemma v1_reference_tagged blob : is_encrypted (Some (V1_TAG ++ blob)) = true.
Proof. reflexivity. Qed.

Lemma encrypt_tagged v s id :
  keyring_usable v = true \/
  (is_Some (fingerprint v) /\ is_Some (utf8_encode s)) ->
  is_encrypted (encrypt_cookie v (Some s) id).1 = true.
Proof.
  destruct (keyring_usable v) eqn:Hu.
  - intros _.
    destruct (keyring_store_usable v (account_name_of id) (Some s) Hu)
      as (v' & Hs & _).
    assert (Hav : keyring_available v = true).
    { unfold keyring_usable in Hu. apply andb_true_iff in Hu. tauto. }
    unfold encrypt_cookie. rewrite Hav, Hs. apply keyring_reference_tagged.
  - intros [?|[[d Hd] [bs Hbs]]]; [discriminate|].
    rewrite encrypt_fallback by exact Hu.
    unfold obfuscate. rewrite Hd. cbn [of_option rbind]. rewrite Hbs.
    cbn [of_option rbind fst]. apply v1_reference_tagged.
Qed.

(** A tagged reference is not a secret that carries no tag. *)
Lemma tagged_differs r s :
  is_encrypted r = true -> is_encrypted (Some s) = false -> r <> Some s.
Proof. intros Hr Hs ->. congruence. Qed.

(** X1: once a backend takes the secret (the keyring is usable, or the machine
    fingerprint is there and the secret UTF-8 encodes), the reference that
    [encrypt_cookie] returns carries an encryption tag; so for a secret that
    carries no tag itself, the reference is not the plaintext. *)
Theorem encrypt_cookie_result_tagged v s id :
  keyring_usable v = true \/
  (is_Some (fingerprint v) /\ is_Some (utf8_encode s)) ->
  let reference := (encrypt_cookie v (Some s) id).1 in
  is_encrypted reference = true /\
  (is_encrypted (Some s) = false -> reference <> Some s).
Proof.
  intros Hb reference.
  assert (Ht : is_encrypted reference = true) by (apply encrypt_tagged, Hb).
  split; [exact Ht|]. apply tagged_differs, Ht.
Qed.

Lemma encrypt_cookie_result_tagged_witness :
  let reference :=
    (encrypt_cookie vault_without_keyring (Some (lit "tok123")) (lit "42")).1 in
  is_encrypted reference = true /\
  (is_encrypted (Some (lit "tok123")) = false -> reference <> Some (lit "tok123")).
Proof.
  apply encrypt_cookie_result_tagged. right.
  split; eexists; reflexivity.
Defined.

Lemma encrypt_cookie_frame v cookie id name :
  name <> account_name_of id ->
  let v' := (encrypt_cookie v cookie id).2 in
  keyring v' !! name = keyring v !! name /\
  keyring_available v' = keyring_available v /\
  keyring_faulty v' = keyring_faulty v /\
  fingerprint v' = fingerprint v.
Proof.
  intros Hne. unfold encrypt_cookie.
  assert (Hfb : forall x : option str * vault,
            x = match obfuscate v cookie with
                | Ok r => (Some r, v) | Raise _ => (cookie, v) end ->
            keyring x.2 !! name = keyring v !! name /\
            keyring_available x.2 = keyring_available v /\
            keyring_faulty x.2 = keyring_faulty v /\
            fingerprint x.2 = fingerprint v).
  { intros x ->. destruct (obfuscate v cookie); repeat split. }
  destruct (keyring_available v) eqn:Ha; cbv zeta; [|apply Hfb; reflexivity].
  unfold keyring_store, delete_password, set_password.
  destruct (keyring_faulty v) eqn:Hf; cbn [rbind]; [apply Hfb; reflexivity|].
  destruct (keyring v !! account_name_of id); cbn [rbind with_keyring keyring_faulty];
    rewrite Hf;
    cbn [rbind snd with_keyring keyring keyring_available keyring_faulty fingerprint].
  - rewrite lookup_insert_ne, lookup_delete_ne by congruence. auto.
  - rewrite lookup_insert_ne by congruence. auto.
Qed.

(** X2: [encrypt_cookie] changes nothing of the vault but the keyring entry of
    the account name it derives: every other entry, the two keyring flags
    and the fingerprint stay. *)
Theorem encrypt_cookie_keeps_other_entries v cookie id name :
  name <> account_name_of id ->
  let v' := (encrypt_cookie v cookie id).2 in
  keyring v' !! name = keyring v !! name /\
  keyring_available v' = keyring_available v /\
  keyring_faulty v' = keyring_faulty v /\
  fingerprint v' = fingerprint v.
Proof. apply encrypt_cookie_frame. Qed.

Lemma encrypt_cookie_keeps_other_entries_witness :
  let v' := (encrypt_cookie vault_with_keyring (Some (lit "tok123")) (lit "42")).2 in
  keyring v' !! lit "session_7" = keyring vault_with_keyring !! lit "session_7" /\
  keyring_available v' = keyring_available vault_with_keyring /\
  keyring_faulty v' = keyring_faulty vault_with_keyring /\
  fingerprint v' = fingerprint vault_with_keyring.
Proof.
  apply (encrypt_cookie_keeps_other_entries vault_with_keyring
           (Some (lit "tok123")) (lit "42") (lit "session_7")).
  intros [= ].
Defined.

Lemma encrypt_cookie_usable v cookie id :
  keyring_usable v = true ->
  (encrypt_cookie v cookie id).1 = Some (KEYRING_TAG ++ account_name_of id) /\
  keyring_usable (encrypt_cookie v cookie id).2 = true /\
  keyring (encrypt_cookie v cookie id).2 !! account_name_of id
    = Some (str_of_opt cookie).
Proof.
  intros Hu.
  destruct (keyring_store_usable v (account_name_of id) cookie Hu)
    as (v' & Hs & Ha & Hf & Hl).
  assert (Hav : keyring_available v = true).
  { unfold keyring_usable in Hu. apply andb_true_iff in Hu. tauto. }
  unfold encrypt_cookie. rewrite Hav, Hs. cbn [fst snd].
  unfold keyring_usable. rewrite Ha, Hf. auto.
Qed.

(** X3: with a usable keyring, two identities with one account name share one
    entry: the second encryption returns the same reference as the first,
    and the first reference then decrypts to the second secret. *)
Theorem keyring_references_alias v s1 s2 id1 id2 :
  keyring_usable v = true ->
  account_name_of id1 = account_name_of id2 ->
  let '(r1, v1) := encrypt_cookie v (Some s1) id1 in
  let '(r2, v2) := encrypt_cookie v1 (Some s2) id2 in
  r1 = r2 /\ decrypt_cookie v2 r1 (Some id1) = Some s2.
Proof.
  intros Hu Hn.
  destruct (encrypt_cookie_usable v (Some s1) id1 Hu) as (Hr1 & Hu1 & _).
  destruct (encrypt_cookie v (Some s1) id1) as [r1 v1]. cbn [fst snd] in *.
  destruct (encrypt_cookie_usable v1 (Some s2) id2 Hu1) as (Hr2 & Hu2 & Hl2).
  destruct (encrypt_cookie v1 (Some s2) id2) as [r2 v2]. cbn [fst snd] in *.
  subst r1 r2. rewrite Hn. split; [reflexivity|].
  rewrite decrypt_keyring.
  unfold keyring_usable in Hu2. apply andb_true_iff in Hu2 as [Ha Hf].
  apply negb_true_iff in Hf. rewrite Ha. unfold get_password. rewrite Hf. exact Hl2.
Qed.

Lemma keyring_references_alias_witness :
  let '(r1, v1) := encrypt_cookie vault_with_keyring (Some (lit "five")) (lit "5") in
  let '(r2, v2) := encrypt_cookie v1 (Some (lit "other")) (lit "session_5") in
  r1 = r2 /\ decrypt_cookie v2 r1 (Some (lit "5")) = Some (lit "other").
Proof.
  apply (keyring_references_alias vault_with_keyring (lit "five") (lit "other")
           (lit "5") (lit "session_5")); reflexivity.
Defined.

Lemma app_longer {A} (p l : list A) : p <> [] -> l <> p ++ l.
Proof.
  intros Hp Heq. apply (f_equal (@length A)) in Heq.
  rewrite length_app in Heq. destruct p; [congruence|cbn in Heq; lia].
Qed.

Lemma field_names_differ user_id f1 f2 :
  f1 <> f2 -> vault_identity f1 user_id <> vault_identity f2 user_id.
Proof.
  intros Hne.
  assert (Hp : vault_identity FPlatform user_id = APP_PLATFORM_PREFIX ++ user_id)
    by (apply identity_prefixed; reflexivity).
  assert (Hv : vault_identity FVersion user_id = APP_VERSION_PREFIX ++ user_id)
    by (apply identity_prefixed; reflexivity).
  assert (Hc : vault_identity FCookie user_id <> APP_PLATFORM_PREFIX ++ user_id /\
               vault_identity FCookie user_id <> APP_VERSION_PREFIX ++ user_id).
  { unfold vault_identity, account_name_of. cbn [identity_arg].
    destruct (has_underscore user_id).
    - split; apply app_longer; discriminate.
    - split; cbn; congruence. }
  destruct Hc as [Hc1 Hc2].
  destruct f1, f2; try congruence; rewrite ?Hp, ?Hv; try congruence.
  - cbn. congruence.
  - cbn. congruence.
Qed.

(** X4: for every account id, with or without an underscore, the three fields
    of its record are filed under three different vault identities. *)
Theorem field_identities_distinct user_id f1 f2 :
  f1 <> f2 -> vault_identity f1 user_id <> vault_identity f2 user_id.
Proof. apply field_names_differ. Qed.

Lemma field_identities_distinct_witness :
  vault_identity FCookie (lit "app_version_7")
  <> vault_identity FVersion (lit "app_version_7").
Proof. apply field_identities_distinct. intros [= ]. Defined.

Lemma encrypt_cookie_unusable v cookie id :
  keyring_usable v = false -> (encrypt_cookie v cookie id).2 = v.
Proof.
  intros Hu. rewrite encrypt_fallback by exact Hu.
  destruct (obfuscate v cookie); reflexivity.
Qed.

Lemma deobfuscate_fingerprint v v' blob :
  fingerprint v' = fingerprint v -> deobfuscate v' blob = deobfuscate v blob.
Proof. intros H. unfold deobfuscate. rewrite H. reflexivity. Qed.

(** X5: a reference written by the fallback is read back on every vault with
    the same machine fingerprint, whatever the state of its keyring and
    whatever user id is given: the obfuscation is keyed by the machine
    alone. *)
Theorem obfuscated_reference_portable v v' s id user_id :
  keyring_usable v = false ->
  is_Some (fingerprint v) -> is_Some (utf8_encode s) ->
  fingerprint v' = fingerprint v ->
  decrypt_cookie v' (encrypt_cookie v (Some s) id).1 user_id = Some s.
Proof.
  intros Hu [d Hd] [bs Hbs] Hfp.
  rewrite encrypt_fallback by exact Hu.
  destruct (obfuscate v (Some s)) as [r|e] eqn:Ho.
  - destruct (obfuscate_deobfuscate _ _ _ Ho) as (blob & -> & Hb).
    cbn [fst]. rewrite decrypt_v1, (deobfuscate_fingerprint _ _ _ Hfp), Hb.
    reflexivity.
  - unfold obfuscate in Ho. rewrite Hd in Ho. cbn [of_option rbind] in Ho.
    rewrite Hbs in Ho. discriminate.
Qed.

Lemma obfuscated_reference_portable_witness :
  decrypt_cookie vault_with_keyring
    (encrypt_cookie vault_without_keyring (Some (lit "tok123")) (lit "42")).1 None
  = Some (lit "tok123").
Proof.
  apply obfuscated_reference_portable;
    [reflexivity|eexists; reflexivity|eexists; reflexivity|reflexivity].
Defined.

End VaultMore.

(** * Further properties of the session store *)

Module StoreMore.
Import Codec Vault World Store More VaultFacts StoreFacts VaultMore.

Lemma load_sessions_unreadable w :
  disk w = FileMissing \/ disk w = FileUnreadable \/ disk w = FileCorrupt ->
  (load_sessions w).1 = Sessions [].
Proof. unfold load_sessions. intros [-> | [-> | ->]]; reflexivity. Qed.

(** X6: a save over a missing, unreadable or unparseable file leaves a document
    that holds the saved record and nothing else: whatever the file held
    is gone. *)
Theorem save_session_over_unreadable user_id c n m p v w :
  disk_writable w = true ->
  disk w = FileMissing \/ disk w = FileUnreadable \/ disk w = FileCorrupt ->
  disk (save_session user_id c n m p v w) =
    FileSessions
      [(user_id, (build_record (vault_of w) (clock w) user_id c n m p v).1)].
Proof.
  intros Hw Hd.
  destruct (save_session_writable user_id c n m p v w [] Hw
              (load_sessions_unreadable w Hd)) as (H & _).
  exact H.
Qed.

Lemma save_session_over_unreadable_witness :
  disk (save_session (lit "42") (Plain (Some (lit "tok"))) (Some (lit "Acme Co"))
          BROWSER None None (with_disk Samples.fresh_world FileCorrupt)) =
    FileSessions
      [(lit "42",
        (build_record (vault_of (with_disk Samples.fresh_world FileCorrupt))
           (clock (with_disk Samples.fresh_world FileCorrupt)) (lit "42")
           (Plain (Some (lit "tok"))) (Some (lit "Acme Co")) BROWSER None None).1)].
Proof.
  apply save_session_over_unreadable; [reflexivity|]. right. right. reflexivity.
Defined.

Lemma build_record_cookie v now user_id c n m p pv :
  cookie (build_record v now user_id c n m p pv).1
  = (encrypt_cookie v (session_of c) user_id).1.
Proof. apply build_record_fields. Qed.

(** The vault after [build_record]: the session entry written by the first
    encryption is still there after the encryptions of the other fields. *)
Lemma build_record_vault v now user_id c n m p pv :
  let v1 := (encrypt_cookie v (session_of c) user_id).2 in
  let v' := (build_record v now user_id c n m p pv).2 in
  keyring v' !! account_name_of user_id = keyring v1 !! account_name_of user_id /\
  keyring_available v' = keyring_available v /\
  keyring_faulty v' = keyring_faulty v /\
  fingerprint v' = fingerprint v /\
  (keyring_usable v = false -> v' = v).
Proof.
  assert (Hplat : account_name_of user_id
                  <> account_name_of (APP_PLATFORM_PREFIX ++ user_id)).
  { apply (field_names_differ user_id FCookie FPlatform). discriminate. }
  assert (Hvers : account_name_of user_id
                  <> account_name_of (APP_VERSION_PREFIX ++ user_id)).
  { apply (field_names_differ user_id FCookie FVersion). discriminate. }
  assert (Husable : forall a b : vault,
            keyring_available a = keyring_available b ->
            keyring_faulty a = keyring_faulty b ->
            keyring_usable a = keyring_usable b).
  { intros a b Ha Hf. unfold keyring_usable. rewrite Ha, Hf. reflexivity. }
  unfold build_record, session_of.
  set (sc := match c with Bundle d => shipping_manager_session d | Plain c0 => c0 end).
  set (ap := match c with
             | Bundle d => match cd_app_platform d with Some x => Some x | None => p end
             | Plain _ => p end).
  set (av := match c with
             | Bundle d => match cd_app_version d with Some x => Some x | None => pv end
             | Plain _ => pv end).
  assert (Hshape :
    (let '(shipping_cookie, app_platform, app_version) :=
       match c with
       | Bundle d =>
         (shipping_manager_session d,
          match cd_app_platform d with Some p0 => Some p0 | None => p end,
          match cd_app_version d with Some p0 => Some p0 | None => pv end)
       | Plain c0 => (c0, p, pv)
       end in
     let '(encrypted_cookie, v1) := encrypt_cookie v shipping_cookie user_id in
     let '(platform_field, v2) :=
       if truthy_opt app_platform
       then encrypt_cookie v1 app_platform (APP_PLATFORM_PREFIX ++ user_id)
       else (None, v1) in
     let '(version_field, v3) :=
       if truthy_opt app_version
       then encrypt_cookie v2 app_version (APP_VERSION_PREFIX ++ user_id)
       else (None, v2) in
     ({| cookie := encrypted_cookie; timestamp := Some (now ÷ 1000);
         company_name := slot_of n; login_method := Some m;
         app_platform := platform_field; app_version := version_field |}, v3)).2
    = (let v1 := (encrypt_cookie v sc user_id).2 in
       let v2 := if truthy_opt ap
                 then (encrypt_cookie v1 ap (APP_PLATFORM_PREFIX ++ user_id)).2
                 else v1 in
       if truthy_opt av
       then (encrypt_cookie v2 av (APP_VERSION_PREFIX ++ user_id)).2
       else v2)).
  { unfold sc, ap, av. destruct c as [d|c0];
      repeat match goal with
      | |- context [if truthy_opt ?x then _ else _] =>
        destruct (truthy_opt x); cbn [fst snd]
      | |- context [let '(_, _) := ?x in _] => destruct x; cbn [fst snd]
      end; reflexivity. }
  rewrite Hshape. clear Hshape. cbv zeta.
  pose proof (encrypt_cookie_frame v sc user_id) as F1.
  set (v1 := (encrypt_cookie v sc user_id).2) in *.
  pose proof (encrypt_cookie_unusable v sc user_id) as U1. fold v1 in U1.
  assert (F1' : keyring_available v1 = keyring_available v /\
                keyring_faulty v1 = keyring_faulty v /\
                fingerprint v1 = fingerprint v).
  { destruct (F1 (0 :: account_name_of user_id)) as (_ & ? & ? & ?); auto.
    intros H. apply (f_equal (@length Z)) in H. cbn in H. lia. }
  destruct F1' as (A1 & B1 & C1).
  set (v2 := if truthy_opt ap
             then (encrypt_cookie v1 ap (APP_PLATFORM_PREFIX ++ user_id)).2
             else v1).
  assert (F2 : keyring v2 !! account_name_of user_id
               = keyring v1 !! account_name_of user_id /\
               keyring_available v2 = keyring_available v /\
               keyring_faulty v2 = keyring_faulty v /\
               fingerprint v2 = fingerprint v /\
               (keyring_usable v = false -> v2 = v)).
  { unfold v2. destruct (truthy_opt ap).
    - destruct (encrypt_cookie_frame v1 ap (APP_PLATFORM_PREFIX ++ user_id)
                  (account_name_of user_id) Hplat) as (K & A & B & C).
      repeat split; try congruence.
      intros Hu. rewrite encrypt_cookie_unusable.
      + apply U1, Hu.
      + rewrite (Husable v1 v A1 B1). exact Hu.
    - repeat split; auto. }
  destruct F2 as (K2 & A2 & B2 & C2 & U2).
  destruct (truthy_opt av).
  - destruct (encrypt_cookie_frame v2 av (APP_VERSION_PREFIX ++ user_id)
                (account_name_of user_id) Hvers) as (K & A & B & C).
    repeat split; try congruence.
    intros Hu. rewrite encrypt_cookie_unusable.
    + apply U2, Hu.
    + rewrite (Husable v2 v A2 B2). exact Hu.
  - repeat split; auto.
Qed.

Lemma save_session_vault user_id c n m p pv w :
  vault_of (save_session user_id c n m p pv w)
  = (build_record (vault_of w) (clock w) user_id c n m p pv).2.
Proof.
  unfold save_session.
  pose proof (load_sessions_world w) as (_ & _ & Hlv & Hlc & _).
  destruct (load_sessions w) as [sessions w1]. cbn [snd] in *. rewrite Hlv, Hlc.
  destruct (build_record (vault_of w) (clock w) user_id c n m p pv) as [r v'].
  destruct sessions as [d|j]; [|reflexivity].
  cbn [with_vault disk_writable snd].
  destruct (disk_writable w1); [destruct (World.cookie r)|]; reflexivity.
Qed.

(** X7: on a disk that cannot be written, [save_session] leaves the document as
    it is and logs the error, but the keyring has already received the
    session cookie under the account name. *)
Theorem save_session_read_only user_id c n m p pv w :
  disk_writable w = false ->
  keyring_usable (vault_of w) = true ->
  let w' := save_session user_id c n m p pv w in
  disk w' = disk w /\
  last (stderr w') = Some DSaveError /\
  keyring (vault_of w') !! account_name_of user_id
    = Some (str_of_opt (session_of c)).
Proof.
  intros Hw Hu w'. split; [|split].
  - apply save_session_refused. left. exact Hw.
  - unfold w', save_session.
    pose proof (load_sessions_world w) as (_ & Hlw & _).
    destruct (load_sessions w) as [sessions w1]. cbn [snd] in *.
    destruct (build_record _ _ _ _ _ _ _ _) as [r v'].
    destruct sessions as [d|j]; [|cbn; apply last_snoc].
    cbn [with_vault disk_writable]. rewrite Hlw, Hw. cbn. apply last_snoc.
  - unfold w'. rewrite save_session_vault.
    destruct (build_record_vault (vault_of w) (clock w) user_id c n m p pv)
      as (K & _).
    rewrite K.
    destruct (encrypt_cookie_usable (vault_of w) (session_of c) user_id Hu)
      as (_ & _ & Hl). exact Hl.
Qed.

Lemma save_session_read_only_witness :
  let w :=
    {| disk := FileMissing; disk_writable := false;
       vault_of := vault_with_keyring; clock := 0; requests := [];
       logins := 0; stdout := []; stderr := [] |} in
  let w' := save_session (lit "42") (Plain (Some (lit "tok")))
              (Some (lit "Acme Co")) BROWSER None None w in
  disk w' = disk w /\
  last (stderr w') = Some DSaveError /\
  keyring (vault_of w') !! account_name_of (lit "42")
    = Some (str_of_opt (session_of (Plain (Some (lit "tok"))))).
Proof.
  apply (save_session_read_only (lit "42") (Plain (Some (lit "tok")))); reflexivity.
Defined.

Lemma dict_set_keys {V} k (v : V) d :
  (In k (keys d) -> keys (dict_set k v d) = keys d) /\
  (~ In k (keys d) -> keys (dict_set k v d) = keys d ++ [k]).
Proof.
  induction d as [|[k0 v0] d [IH1 IH2]]; cbn.
  - split; [intros []|reflexivity].
  - destruct (decide (k0 = k)) as [->|Hne]; cbn.
    + split; [reflexivity|tauto].
    + split.
      * intros [?|Hin]; [contradiction|]. f_equal. apply IH1, Hin.
      * intros Hn. f_equal. apply IH2. tauto.
Qed.

(** X8: a save to a mapping on a disk that can be written never drops a
    record and never moves one: when the account is already in the document
    its record is replaced in place, otherwise the new record goes last; the
    keys of all the others stay in their order. *)
Theorem save_session_keeps_keys user_id c n m p pv w d :
  disk_writable w = true ->
  (load_sessions w).1 = Sessions d ->
  exists d',
    disk (save_session user_id c n m p pv w) = FileSessions d' /\
    (In user_id (keys d) -> keys d' = keys d) /\
    (~ In user_id (keys d) -> keys d' = keys d ++ [user_id]).
Proof.
  intros Hw Hd.
  destruct (save_session_writable user_id c n m p pv w d Hw Hd) as (H & _).
  eexists. split; [exact H|]. apply dict_set_keys.
Qed.

Lemma save_session_keeps_keys_witness :
  exists d',
    disk (save_session (lit "42") (Plain (Some (lit "tok"))) (Some (lit "Acme Co"))
            BROWSER None None Samples.stored_world) = FileSessions d' /\
    (In (lit "42") (keys [(lit "7", Samples.stale_record)]) ->
     keys d' = keys [(lit "7", Samples.stale_record)]) /\
    (~ In (lit "42") (keys [(lit "7", Samples.stale_record)]) ->
     keys d' = keys [(lit "7", Samples.stale_record)] ++ [lit "42"]).
Proof. apply save_session_keeps_keys; reflexivity. Defined.

(** X9: once a backend takes the session cookie, the record that a save
    writes into a mapping holds a tagged reference in its cookie field; so
    for a cookie that carries no tag itself, the field is not the cookie. *)
Theorem saved_cookie_is_tagged user_id c n m p pv w s d :
  disk_writable w = true ->
  (load_sessions w).1 = Sessions d ->
  session_of c = Some s ->
  keyring_usable (vault_of w) = true \/
  (is_Some (fingerprint (vault_of w)) /\ is_Some (utf8_encode s)) ->
  exists d' r,
    disk (save_session user_id c n m p pv w) = FileSessions d' /\
    dict_get user_id d' = Some r /\
    is_encrypted (cookie r) = true /\
    (is_encrypted (Some s) = false -> cookie r <> Some s).
Proof.
  intros Hw Hd Hs Hb.
  destruct (save_session_writable user_id c n m p pv w d Hw Hd) as (H & _).
  do 2 eexists. split; [exact H|]. split; [apply dict_get_set_eq|].
  assert (Ht : is_encrypted
                 (cookie (build_record (vault_of w) (clock w) user_id c n m p pv).1)
               = true).
  { rewrite build_record_cookie, Hs. apply encrypt_tagged, Hb. }
  split; [exact Ht|]. apply tagged_differs, Ht.
Qed.

Lemma saved_cookie_is_tagged_witness :
  exists d' r,
    disk (save_session (lit "42") (Plain (Some (lit "tok"))) (Some (lit "Acme Co"))
            BROWSER None None Samples.fresh_world) = FileSessions d' /\
    dict_get (lit "42") d' = Some r /\
    is_encrypted (cookie r) = true /\
    (is_encrypted (Some (lit "tok")) = false -> cookie r <> Some (lit "tok")).
Proof.
  apply (saved_cookie_is_tagged (lit "42") (Plain (Some (lit "tok")))
           (Some (lit "Acme Co")) BROWSER None None Samples.fresh_world (lit "tok")
           []);
    [reflexivity|reflexivity|reflexivity|].
  right. split; eexists; reflexivity.
Defined.

Lemma save_session_is_quiet user_id c n m p pv w :
  let w' := save_session user_id c n m p pv w in
  requests w' = requests w /\ logins w' = logins w /\ stdout w' = stdout w /\
  disk_writable w' = disk_writable w.
Proof.
  unfold save_session.
  pose proof (load_sessions_world w) as (_ & Hlw & _ & _ & Hr & Hl & Hs).
  destruct (load_sessions w) as [sessions w1]. cbn [snd] in *.
  destruct (build_record _ _ _ _ _ _ _ _) as [r v'].
  destruct sessions as [d|j]; [|cbn; repeat split; congruence].
  cbn [with_vault disk_writable].
  destruct (disk_writable w1) eqn:E; [destruct (World.cookie r)|]; cbn;
    repeat split; congruence.
Qed.

(** X11: [save_session] talks to nobody: it sends no request, starts no browser
    login and writes nothing to the primary output, whether the write
    succeeds or not. *)
Theorem save_session_is_silent user_id c n m p pv w :
  let w' := save_session user_id c n m p pv w in
  requests w' = requests w /\ logins w' = logins w /\ stdout w' = stdout w /\
  disk_writable w' = disk_writable w.
Proof. apply save_session_is_quiet. Qed.

End StoreMore.

(** * Further properties of the validator *)

Module ValidatorMore.
Import Codec Vault World Store Validator More.
Import VaultFacts StoreFacts ValidatorFacts FlowFacts PartitionFacts VaultMore StoreMore.

Lemma accepted_inv r p :
  accepted r = Some p -> r = Http 200 (User p) /\ truthy_id (profile_id p) = true.
Proof.
  destruct r as [|status [| |q]]; cbn; try discriminate.
  destruct (Z.eqb_spec status 200) as [->|]; cbn; [|discriminate].
  destruct (truthy_id (profile_id q)) eqn:Ht; [|discriminate].
  intros [= ->]. auto.
Qed.

Lemma check_remote_requests e c p v w :
  requests (check_remote e c p v w).2 = requests w ++ [cookie_header c p v].
Proof.
  unfold check_remote, post.
  destruct (remote e (requests w) (cookie_header c p v)) as [|status []];
    try destruct (status =? 200); reflexivity.
Qed.

(** How many requests a validation sends: none or one. *)
Lemma validate_session_cookie_requests e c user_id w :
  requests (validate_session_cookie e c user_id w).2 = requests w \/
  exists header,
    requests (validate_session_cookie e c user_id w).2 = requests w ++ [header] /\
    (validate_session_cookie e c user_id w).1
    = accepted (remote e (requests w) header).
Proof.
  unfold validate_session_cookie. destruct c as [d|c].
  - right. eexists. split; [apply check_remote_requests|apply check_remote_verdict].
  - destruct (is_encrypted c).
    + destruct (negb (truthy_opt user_id)); [left; reflexivity|].
      destruct (negb (truthy_opt _)); [left; reflexivity|].
      right. eexists. split; [apply check_remote_requests|apply check_remote_verdict].
    + right. eexists. split; [apply check_remote_requests|apply check_remote_verdict].
Qed.

(** X12: [validate_session_cookie] sends at most one request, and it returns a
    profile only when the service answered that request with status 200 and
    that profile, whose id is truthy; in every other case (no request,
    network failure, other status, no user) it returns [None]. *)
Theorem validation_needs_confirmed_user e c user_id w :
  let r := (validate_session_cookie e c user_id w).1 in
  let w' := (validate_session_cookie e c user_id w).2 in
  (requests w' = requests w \/ exists header, requests w' = requests w ++ [header])
  /\
  forall p, r = Some p ->
    truthy_id (profile_id p) = true /\
    exists header,
      requests w' = requests w ++ [header] /\
      remote e (requests w) header = Http 200 (User p).
Proof.
  cbv zeta. destruct (validate_session_cookie_requests e c user_id w) as [H|(h & H & Hv)].
  - split; [left; exact H|]. intros p Hp.
    exfalso. revert H Hp. unfold validate_session_cookie.
    destruct c as [d|c].
    + rewrite check_remote_requests. intros H. apply (f_equal (@length (list Z))) in H.
      rewrite length_app in H. cbn in H. lia.
    + destruct (is_encrypted c).
      * destruct (negb (truthy_opt user_id)); [discriminate|].
        destruct (negb (truthy_opt _)); [discriminate|].
        rewrite check_remote_requests. intros H. apply (f_equal (@length (list Z))) in H.
        rewrite length_app in H. cbn in H. lia.
      * rewrite check_remote_requests. intros H. apply (f_equal (@length (list Z))) in H.
        rewrite length_app in H. cbn in H. lia.
  - split; [right; eauto|]. intros p Hp. rewrite Hv in Hp.
    apply accepted_inv in Hp as [Hr Ht]. split; [exact Ht|]. eauto.
Qed.

Lemma validate_one_step e x acc w :
  (map vs_user_id (validate_one e x acc w).1 = map vs_user_id acc \/
   map vs_user_id (validate_one e x acc w).1 = map vs_user_id acc ++ [x.1]) /\
  exists sent, requests (validate_one e x acc w).2 = requests w ++ sent /\
               (length sent <= 1)%nat.
Proof.
  unfold validate_one. destruct x as [user_id session_data]. cbn [fst].
  assert (Hv : forall c,
    let res :=
      (let '(user_data, w1) :=
         validate_session_cookie e (Plain c) (Some user_id) w in
       match user_data with
       | Some p =>
         (acc ++ [{| vs_user_id := user_id; vs_cookie := c;
                     vs_company_name :=
                       get_or (profile_company_name p)
                         (get_or (company_name session_data) (Some UNKNOWN));
                     vs_user_data := p;
                     vs_login_method :=
                       get_default (login_method session_data) UNKNOWN_METHOD |}],
          w1)
       | None => (acc, log (DExpired user_id) w1)
       end) in
    (map vs_user_id res.1 = map vs_user_id acc \/
     map vs_user_id res.1 = map vs_user_id acc ++ [user_id]) /\
    exists sent, requests res.2 = requests w ++ sent /\ (length sent <= 1)%nat).
  { intros c. cbv zeta.
    pose proof (validate_session_cookie_requests e (Plain c) (Some user_id) w) as Hr.
    destruct (validate_session_cookie e (Plain c) (Some user_id) w) as [[p|] w1];
      cbv beta iota zeta; cbn [fst snd log requests] in *.
    - split; [right; rewrite map_app; reflexivity|].
      destruct Hr as [Hr|(h & Hr & _)]; rewrite Hr.
      + exists []. rewrite app_nil_r. split; [reflexivity|cbn; lia].
      + exists [h]. split; [reflexivity|cbn; lia].
    - split; [left; reflexivity|].
      destruct Hr as [Hr|(h & Hr & _)]; rewrite Hr.
      + exists []. rewrite app_nil_r. split; [reflexivity|cbn; lia].
      + exists [h]. split; [reflexivity|cbn; lia]. }
  destruct (is_encrypted (cookie session_data)); [|apply Hv].
  destruct (negb (truthy_opt _)); [|apply Hv].
  cbn [fst snd]. split; [left; reflexivity|].
  exists []. rewrite app_nil_r. split; [reflexivity|cbn; lia].
Qed.

Lemma validate_each_steps e items : forall acc w,
  (exists ids, map vs_user_id (validate_each e items acc w).1
               = map vs_user_id acc ++ ids /\ sublist ids (keys items)) /\
  exists sent, requests (validate_each e items acc w).2 = requests w ++ sent /\
               (length sent <= length items)%nat.
Proof.
  induction items as [|x items IH]; intros acc w; cbn [validate_each].
  - split.
    + exists []. rewrite app_nil_r. split; [reflexivity|constructor].
    + exists []. rewrite app_nil_r. split; [reflexivity|cbn; lia].
  - destruct (validate_one_step e x acc w) as (Hid & sent1 & Hs1 & Hl1).
    destruct (validate_one e x acc w) as [acc1 w1]. cbn [fst snd] in *.
    destruct (IH acc1 w1) as ((ids & Hi & Hsub) & sent & Hs & Hl).
    split.
    + destruct Hid as [Hid|Hid]; rewrite Hi, Hid.
      * exists ids. split; [reflexivity|]. cbn. apply sublist_cons, Hsub.
      * exists (x.1 :: ids). rewrite <- app_assoc. split; [reflexivity|].
        cbn. apply sublist_skip, Hsub.
    + exists (sent1 ++ sent). rewrite Hs, Hs1, <- app_assoc.
      split; [reflexivity|]. rewrite length_app. cbn. lia.
Qed.

Lemma expired_one_step e x acc w :
  (map es_user_id (expired_one e x acc w).1 = map es_user_id acc \/
   map es_user_id (expired_one e x acc w).1 = map es_user_id acc ++ [x.1]) /\
  exists sent, requests (expired_one e x acc w).2 = requests w ++ sent /\
               (length sent <= 1)%nat.
Proof.
  unfold expired_one. destruct x as [user_id session_data]. cbn [fst].
  pose proof (validate_session_cookie_requests e (Plain (cookie session_data))
                (Some user_id) w) as Hr.
  destruct (validate_session_cookie e (Plain (cookie session_data))
              (Some user_id) w) as [[p|] w1]; cbn [fst snd] in *.
  - split; [left; reflexivity|].
    destruct Hr as [Hr|(h & Hr & _)]; rewrite Hr.
    + exists []. rewrite app_nil_r. split; [reflexivity|cbn; lia].
    + exists [h]. split; [reflexivity|cbn; lia].
  - split; [right; rewrite map_app; reflexivity|].
    destruct Hr as [Hr|(h & Hr & _)]; rewrite Hr.
    + exists []. rewrite app_nil_r. split; [reflexivity|cbn; lia].
    + exists [h]. split; [reflexivity|cbn; lia].
Qed.

Lemma expired_each_steps e items : forall acc w,
  (exists ids, map es_user_id (expired_each e items acc w).1
               = map es_user_id acc ++ ids /\ sublist ids (keys items)) /\
  exists sent, requests (expired_each e items acc w).2 = requests w ++ sent /\
               (length sent <= length items)%nat.
Proof.
  induction items as [|x items IH]; intros acc w; cbn [expired_each].
  - split.
    + exists []. rewrite app_nil_r. split; [reflexivity|constructor].
    + exists []. rewrite app_nil_r. split; [reflexivity|cbn; lia].
  - destruct (expired_one_step e x acc w) as (Hid & sent1 & Hs1 & Hl1).
    destruct (expired_one e x acc w) as [acc1 w1]. cbn [fst snd] in *.
    destruct (IH acc1 w1) as ((ids & Hi & Hsub) & sent & Hs & Hl).
    split.
    + destruct Hid as [Hid|Hid]; rewrite Hi, Hid.
      * exists ids. split; [reflexivity|]. cbn. apply sublist_cons, Hsub.
      * exists (x.1 :: ids). rewrite <- app_assoc. split; [reflexivity|].
        cbn. apply sublist_skip, Hsub.
    + exists (sent1 ++ sent). rewrite Hs, Hs1, <- app_assoc.
      split; [reflexivity|]. rewrite length_app. cbn. lia.
Qed.

Lemma insert_desc_length x l : length (insert_desc x l) = S (length l).
Proof.
  induction l as [|z l IH]; [reflexivity|]. cbn [insert_desc].
  destruct (sort_key x <? sort_key z); cbn [length]; [rewrite IH|]; reflexivity.
Qed.

Lemma sorted_desc_length l : length (sorted_desc l) = length l.
Proof.
  induction l as [|x l IH]; [reflexivity|]. cbn [sorted_desc foldr].
  rewrite insert_desc_length. fold (sorted_desc l). rewrite IH. reflexivity.
Qed.

Lemma load_sessions_requests w : requests (load_sessions w).2 = requests w.
Proof. pose proof (load_sessions_world w) as (_ & _ & _ & _ & H & _). exact H. Qed.




(** X14: checking the store costs at most one request per record in each of the
    two passes. *)
Theorem validation_sends_one_request_per_record e w :
  (exists sent,
     requests (validate_all_sessions e w).2 = requests w ++ sent /\
     (length sent <= length (records (load_sessions w).1))%nat) /\
  (exists sent,
     requests (get_expired_sessions_with_methods e w).2 = requests w ++ sent /\
     (length sent <= length (records (load_sessions w).1))%nat).
Proof.
  unfold validate_all_sessions, get_expired_sessions_with_methods.
  pose proof (load_sessions_requests w) as Hr.
  destruct (load_sessions w) as [sessions w1]. cbn [fst snd] in *.
  assert (Hnone : exists sent,
            requests w1 = requests w ++ sent /\
            (length sent <= length (records sessions))%nat).
  { exists []. rewrite app_nil_r. split; [exact Hr|cbn; lia]. }
  destruct (negb (truthy_loaded sessions)); [split; exact Hnone|].
  destruct sessions as [d|v]; [|split; exact Hnone]. cbn [records].
  split.
  - destruct (validate_each_steps e (sorted_desc d) [] w1)
      as (_ & sent & Hs & Hl).
    destruct (validate_each e (sorted_desc d) [] w1) as [valid w2].
    cbn [snd] in *.
    exists sent. rewrite Hs, Hr. split; [reflexivity|].
    rewrite sorted_desc_length in Hl. exact Hl.
  - destruct (expired_each_steps e d [] w1) as (_ & sent & Hs & Hl).
    destruct (expired_each e d [] w1) as [expired w2]. cbn [snd] in *.
    exists sent. rewrite Hs, Hr. split; [reflexivity|exact Hl].
Qed.

Lemma dict_set_in {V} k (v : V) d : In (k, v) (dict_set k v d).
Proof.
  induction d as [|[k0 v0] d IH]; cbn; [left; reflexivity|].
  destruct (decide (k0 = k)); [left; reflexivity|right; exact IH].
Qed.

Lemma validate_one_keeps e x acc w y :
  In y acc -> In y (validate_one e x acc w).1.
Proof.
  intros Hy. unfold validate_one. destruct x as [user_id session_data].
  assert (Hv : forall c,
    In y
      (let '(user_data, w1) :=
         validate_session_cookie e (Plain c) (Some user_id) w in
       match user_data with
       | Some p =>
         (acc ++ [{| vs_user_id := user_id; vs_cookie := c;
                     vs_company_name :=
                       get_or (profile_company_name p)
                         (get_or (company_name session_data) (Some UNKNOWN));
                     vs_user_data := p;
                     vs_login_method :=
                       get_default (login_method session_data) UNKNOWN_METHOD |}],
          w1)
       | None => (acc, log (DExpired user_id) w1)
       end).1).
  { intros c.
    destruct (validate_session_cookie e (Plain c) (Some user_id) w) as [[p|] w1];
      cbn [fst]; [apply in_or_app; left|]; exact Hy. }
  destruct (is_encrypted (cookie session_data)); [|apply Hv].
  destruct (negb (truthy_opt _)); [exact Hy|apply Hv].
Qed.

Lemma validate_each_keeps e items : forall acc w y,
  In y acc -> In y (validate_each e items acc w).1.
Proof.
  induction items as [|x items IH]; intros acc w y Hy; cbn [validate_each];
    [exact Hy|].
  pose proof (validate_one_keeps e x acc w y Hy) as H1.
  destruct (validate_one e x acc w) as [acc1 w1]. apply IH, H1.
Qed.

Lemma validate_each_finds e x entry items : forall acc w,
  In x items ->
  (forall acc0 w0, vault_of w0 = vault_of w ->
     (validate_one e x acc0 w0).1 = acc0 ++ [entry]) ->
  In entry (validate_each e items acc w).1.
Proof.
  induction items as [|z items IH]; intros acc w Hin Hx; [contradiction|].
  cbn [validate_each].
  pose proof (validate_one_untouched e z acc w) as (_ & _ & Hv & _).
  destruct Hin as [->|Hin].
  - specialize (Hx acc w eq_refl).
    destruct (validate_one e x acc w) as [acc1 w1]. cbn [fst] in Hx. subst acc1.
    apply validate_each_keeps, in_or_app. right. left. reflexivity.
  - destruct (validate_one e z acc w) as [acc1 w1]. cbn [snd] in Hv.
    apply IH; [exact Hin|]. intros acc0 w0 H0. apply Hx. congruence.
Qed.

(** The record that a save writes decrypts, in the vault that the save
    leaves, to the session cookie that was saved. *)
Lemma saved_cookie_decrypts v now user_id c n m p pv s uid :
  session_of c = Some s ->
  keyring_usable v = true \/
  (is_Some (fingerprint v) /\ is_Some (utf8_encode s)) ->
  decrypt_cookie (build_record v now user_id c n m p pv).2
    (cookie (build_record v now user_id c n m p pv).1) uid = Some s.
Proof.
  intros Hs Hb. rewrite build_record_cookie, Hs.
  destruct (build_record_vault v now user_id c n m p pv) as (K & A & B & C & U).
  rewrite Hs in K.
  destruct (keyring_usable v) eqn:Hu.
  - destruct (encrypt_cookie_usable v (Some s) user_id Hu) as (Hr & _ & Hl).
    rewrite Hr, decrypt_keyring.
    unfold keyring_usable in Hu. apply andb_true_iff in Hu as [Ha Hf].
    apply negb_true_iff in Hf.
    rewrite A, Ha. unfold get_password. rewrite B, Hf, K, Hl. reflexivity.
  - destruct Hb as [?|[[d Hd] [bs Hbs]]]; [discriminate|].
    rewrite (U eq_refl), encrypt_fallback by exact Hu.
    destruct (obfuscate v (Some s)) as [r|ex] eqn:Ho.
    + destruct (obfuscate_deobfuscate _ _ _ Ho) as (blob & -> & Hb).
      cbn [fst]. rewrite decrypt_v1, Hb. reflexivity.
    + unfold obfuscate in Ho. rewrite Hd in Ho. cbn [of_option rbind] in Ho.
      rewrite Hbs in Ho. discriminate.
Qed.

(** X15: save, then check: a session saved into a mapping with a non-empty,
    untagged token that a backend took and that the service accepts is found
    valid by the next [validate_all_sessions], under its account id, with
    the token it was saved with and the profile the service gives. *)
Theorem saved_session_is_found_valid e w d user_id c n m pp pv s p :
  disk_writable w = true ->
  (load_sessions w).1 = Sessions d ->
  session_of c = Some s ->
  truthy s = true ->
  is_encrypted (Some s) = false ->
  keyring_usable (vault_of w) = true \/
  (is_Some (fingerprint (vault_of w)) /\ is_Some (utf8_encode s)) ->
  (forall before,
     accepted (remote e before (cookie_header (Some s) None None)) = Some p) ->
  exists valid entry,
    (validate_all_sessions e (save_session user_id c n m pp pv w)).1 = Ok valid /\
    In entry valid /\
    vs_user_id entry = user_id /\
    vs_cookie entry = Some s /\
    vs_user_data entry = p.
Proof.
  intros Hw Hl Hs Ht Hu Hb Hacc.
  destruct (save_session_writable user_id c n m pp pv w d Hw Hl) as (Hd & _).
  pose proof (save_session_vault user_id c n m pp pv w) as Hv.
  set (w' := save_session user_id c n m pp pv w) in *.
  set (br := build_record (vault_of w) (clock w) user_id c n m pp pv) in *.
  pose proof (saved_cookie_decrypts (vault_of w) (clock w) user_id c n m pp pv s
                (Some user_id) Hs Hb) as Hdec.
  fold br in Hdec.
  assert (Htag : is_encrypted (cookie br.1) = true).
  { unfold br. rewrite build_record_cookie, Hs. apply encrypt_tagged, Hb. }
  set (entry :=
    {| vs_user_id := user_id; vs_cookie := Some s;
       vs_company_name :=
         get_or (profile_company_name p)
           (get_or (company_name br.1) (Some UNKNOWN));
       vs_user_data := p;
       vs_login_method := get_default (login_method br.1) UNKNOWN_METHOD |}).
  unfold validate_all_sessions, load_sessions. rewrite Hd. cbn [read_sessions].
  destruct (dict_set user_id br.1 d) as [|x0 rest] eqn:Hset.
  { pose proof (dict_set_in user_id br.1 d) as Hin.
    rewrite Hset in Hin. contradiction. }
  cbn [truthy_loaded negb]. rewrite <- Hset.
  pose proof (validate_each_finds e (user_id, br.1) entry
                (sorted_desc (dict_set user_id br.1 d)) [] w') as Hfind.
  destruct (validate_each e (sorted_desc (dict_set user_id br.1 d)) [] w')
    as [valid w2].
  exists valid, entry. split; [reflexivity|]. split; [|repeat split].
  apply Hfind.
  - apply sorted_desc_in, dict_set_in.
  - intros acc0 w0 H0. unfold validate_one. rewrite Htag, H0, Hv, Hdec.
    cbn [truthy_opt]. rewrite Ht. cbn [negb].
    unfold validate_session_cookie. rewrite Hu.
    pose proof (check_remote_verdict e (Some s) None None w0) as Hc.
    rewrite Hacc in Hc.
    destruct (check_remote e (Some s) None None w0) as [r w1]. cbn [fst] in Hc.
    subst r. reflexivity.
Qed.

Lemma saved_session_is_found_valid_witness :
  exists valid entry,
    (validate_all_sessions Samples.steady_env
       (save_session (lit "42") (Plain (Some (lit "A"))) (Some (lit "Acme Co"))
          BROWSER None None Samples.fresh_world)).1 = Ok valid /\
    In entry valid /\
    vs_user_id entry = lit "42" /\
    vs_cookie entry = Some (lit "A") /\
    vs_user_data entry = Samples.acme.
Proof.
  apply (saved_session_is_found_valid Samples.steady_env Samples.fresh_world []
           (lit "42") (Plain (Some (lit "A"))) (Some (lit "Acme Co")) BROWSER
           None None (lit "A") Samples.acme);
    try reflexivity.
  right. split; eexists; reflexivity.
Defined.

End ValidatorMore.

(** * Further properties of the browser login *)

Module BrowserMore.
Import Vault World Store Validator Browser More.
Import ValidatorFacts BrowserFacts.

(** The loop, whatever the browser shows: it ends, its clock only moves
    forward and stays below the deadline plus one poll, it starts no login
    of its own, and a validated cookie is there before the deadline. *)
Lemma wait_for_login_bounded e b rounds : forall n start w,
  0 <= clock w - start < MAX_WAIT + POLL_INTERVAL ->
  MAX_WAIT - (clock w - start) + POLL_INTERVAL <= POLL_INTERVAL * Z.of_nat rounds ->
  exists r w',
    wait_for_login e b rounds n start w = Some (r, w') /\
    clock w <= clock w' /\
    clock w' - start < MAX_WAIT + POLL_INTERVAL /\
    logins w' = logins w /\
    (forall c, r = Validated c -> clock w' - start < MAX_WAIT).
Proof.
  unfold MAX_WAIT, POLL_INTERVAL.
  induction rounds as [|rounds IH]; intros n start w Hlt Hr; [lia|].
  cbn [wait_for_login]. unfold MAX_WAIT.
  destruct (Z.ltb_spec (clock w - start) 300000).
  2:{ do 2 eexists. split; [reflexivity|].
      repeat split; first [lia | discriminate]. }
  assert (Hnext : forall w1, clock w1 = clock w + 2000 -> logins w1 = logins w ->
            exists r w',
              wait_for_login e b rounds (S n) start w1 = Some (r, w') /\
              clock w <= clock w' /\ clock w' - start < 300000 + 2000 /\
              logins w' = logins w /\
              (forall c, r = Validated c -> clock w' - start < 300000)).
  { intros w1 Hc Hl.
    destruct (IH (S n) start w1) as (r & w' & Hw & H1 & H2 & H3 & H4);
      try (rewrite Hc; lia).
    exists r, w'. repeat split; first [assumption | lia | congruence]. }
  destruct (poll b n) as [| |cookies].
  - do 2 eexists. split; [reflexivity|]. cbn.
    repeat split; first [lia | discriminate].
  - apply Hnext; reflexivity.
  - destruct (find_target e cookies) as [c|]; [|apply Hnext; reflexivity].
    destruct (truthy c); [|apply Hnext; reflexivity].
    unfold post. destruct (login_confirmed _); [|apply Hnext; reflexivity].
    do 2 eexists. split; [reflexivity|]. cbn. repeat split; lia.
Qed.

(** X16: whatever the browser and the service do, [browser_login] ends, less
    than 303 seconds after its start (the deadline and the 3 seconds of its
    success message); it counts as one login and leaves the document, the
    vault and the primary output alone. *)
Theorem browser_login_always_ends e w :
  exists outcome w',
    browser_login e w = Some (outcome, w') /\
    clock w <= clock w' < clock w + MAX_WAIT + 3000 /\
    logins w' = S (logins w) /\
    untouched w w'.
Proof.
  destruct (browser_login_total e w) as (o & w' & Hb).
  exists o, w'. split; [exact Hb|].
  split; [|split; [|exact (browser_login_untouched _ _ _ _ Hb)]];
    revert Hb; unfold browser_login; cbv zeta; set (b := browsers e (logins w)).
  - destruct (driver_found b); cbn [negb];
      [|intros [= <- <-]; cbn; unfold MAX_WAIT, POLL_INTERVAL; lia].
    destruct (navigation_ok b); cbn [negb];
      [|intros [= <- <-]; cbn; unfold MAX_WAIT, POLL_INTERVAL; lia].
    destruct (wait_for_login_bounded e b ROUNDS 0 (clock (login_started w))
                (login_started w)) as (r & w1 & -> & H1 & H2 & _ & H4).
    + unfold MAX_WAIT, POLL_INTERVAL. lia.
    + rewrite rounds_value. unfold MAX_WAIT, POLL_INTERVAL. lia.
    + cbn [login_started clock] in *. unfold MAX_WAIT, POLL_INTERVAL in *.
      destruct r as [c| |]; intros [= <- <-].
      * specialize (H4 c eq_refl).
        destruct (overlay_ok b), (final_cookies b); cbn; lia.
      * lia.
      * cbn. lia.
  - destruct (driver_found b); cbn [negb]; [|intros [= <- <-]; reflexivity].
    destruct (navigation_ok b); cbn [negb]; [|intros [= <- <-]; reflexivity].
    destruct (wait_for_login_bounded e b ROUNDS 0 (clock (login_started w))
                (login_started w)) as (r & w1 & -> & _ & _ & H3 & _).
    + unfold MAX_WAIT, POLL_INTERVAL. lia.
    + rewrite rounds_value. unfold MAX_WAIT, POLL_INTERVAL. lia.
    + cbn [login_started logins] in H3.
      destruct r as [c| |]; intros [= <- <-]; try exact H3.
      destruct (overlay_ok b), (final_cookies b); cbn; exact H3.
Qed.

(** [j] fruitless polls before the deadline move the loop [j] polls and
    [j] poll intervals on, and nothing else. *)
Lemma wait_for_login_skips e b start : forall j rounds n w,
  (forall i, (i < j)%nat -> fruitless e (poll b (n + i))) ->
  clock w - start + POLL_INTERVAL * Z.of_nat j < MAX_WAIT + POLL_INTERVAL ->
  exists wj,
    wait_for_login e b (j + rounds) n start w
    = wait_for_login e b rounds (n + j) start wj /\
    clock wj = clock w + POLL_INTERVAL * Z.of_nat j /\
    logins wj = logins w /\ untouched w wj /\
    (j = 0%nat -> wj = w).
Proof.
  unfold MAX_WAIT, POLL_INTERVAL.
  induction j as [|j IH]; intros rounds n w Hf Hlt.
  - exists w. rewrite Nat.add_0_r. repeat split. lia.
  - cbn [Nat.add wait_for_login]. unfold MAX_WAIT.
    destruct (Z.ltb_spec (clock w - start) 300000); [|lia].
    assert (Hnext : forall w1,
              clock w1 = clock w + 2000 -> logins w1 = logins w -> untouched w w1 ->
              exists wj,
                wait_for_login e b (j + rounds) (S n) start w1
                = wait_for_login e b rounds (n + S j) start wj /\
                clock wj = clock w + 2000 * Z.of_nat (S j) /\
                logins wj = logins w /\ untouched w wj /\
                (S j = 0%nat -> wj = w)).
    { intros w1 Hc Hl Hu.
      destruct (IH rounds (S n) w1) as (wj & Hw & Hcj & Hlj & Huj & _).
      - intros i Hi. replace (S n + i)%nat with (n + S i)%nat by lia.
        apply Hf. lia.
      - rewrite Hc. lia.
      - exists wj. replace (n + S j)%nat with (S n + j)%nat by lia.
        split; [exact Hw|]. split; [lia|]. split; [congruence|].
        split; [eapply untouched_trans; eassumption|discriminate]. }
    pose proof (Hf 0%nat ltac:(lia)) as Hf0. rewrite Nat.add_0_r in Hf0.
    unfold fruitless in Hf0.
    destruct (poll b n) as [| |cookies]; [contradiction| |].
    + apply Hnext; [reflexivity|reflexivity|repeat split].
    + destruct (find_target e cookies) as [c|];
        [|apply Hnext; [reflexivity|reflexivity|repeat split]].
      destruct (truthy c) eqn:Ht;
        [|apply Hnext; [reflexivity|reflexivity|repeat split]].
      unfold post. rewrite (Hf0 eq_refl).
      apply Hnext; [reflexivity|reflexivity|repeat split].
Qed.

Lemma rounds_split n :
  POLL_INTERVAL * Z.of_nat n < MAX_WAIT -> exists k, ROUNDS = (n + S k)%nat.
Proof.
  unfold MAX_WAIT, POLL_INTERVAL. intros H.
  exists (150 - n)%nat. pose proof rounds_value. lia.
Qed.

(** X17: when the operator closes the window, the login is over at once: if the
    [n] polls before saw nothing that confirms a login and poll [n], before
    the deadline, finds the window gone, [browser_login] returns no cookie
    [n] poll intervals after its start, with the closed-window message and
    not the time-out one. *)
Theorem closed_window_aborts_login e w n :
  driver_found (browsers e (logins w)) = true ->
  navigation_ok (browsers e (logins w)) = true ->
  (forall i, (i < n)%nat -> fruitless e (poll (browsers e (logins w)) i)) ->
  poll (browsers e (logins w)) n = WindowClosed ->
  POLL_INTERVAL * Z.of_nat n < MAX_WAIT ->
  exists w',
    browser_login e w = Some (NoCookie, w') /\
    last (stderr w') = Some DBrowserClosed /\
    clock w' = clock w + POLL_INTERVAL * Z.of_nat n.
Proof.
  intros Hd Hn Hf Hc Hlt.
  unfold browser_login. cbv zeta. rewrite Hd, Hn. cbn [negb].
  destruct (rounds_split n Hlt) as [k ->].
  destruct (wait_for_login_skips e (browsers e (logins w))
              (clock (login_started w)) n (S k) 0 (login_started w))
    as (wj & -> & Hcj & _ & _ & _).
  - intros i Hi. apply Hf, Hi.
  - cbn [login_started clock]. unfold MAX_WAIT, POLL_INTERVAL in *. lia.
  - cbn [Nat.add wait_for_login].
    destruct (Z.ltb_spec (clock wj - clock (login_started w)) MAX_WAIT).
    + rewrite Hc. eexists. split; [reflexivity|]. split; [cbn; apply last_snoc|].
      cbn. exact Hcj.
    + cbn [login_started clock] in *. unfold MAX_WAIT, POLL_INTERVAL in *. lia.
Qed.

Lemma closed_window_aborts_login_witness :
  exists w',
    browser_login closing_env Samples.fresh_world = Some (NoCookie, w') /\
    last (stderr w') = Some DBrowserClosed /\
    clock w' = clock Samples.fresh_world + POLL_INTERVAL * Z.of_nat 3.
Proof.
  apply (closed_window_aborts_login closing_env Samples.fresh_world 3);
    try reflexivity.
  intros i Hi. cbn [closing_env browsers closing_browser poll].
  replace (Nat.ltb i 3) with true by (symmetry; apply Nat.ltb_lt; exact Hi).
  exact I.
Defined.

(** X18: when poll [n], before the deadline and after [n] polls that confirmed
    nothing, shows a non-empty session cookie that the service confirms,
    [browser_login] returns the cookies extracted for that token, [n] poll
    intervals and 3 seconds after its start. *)
Theorem confirmed_cookie_ends_login e w n cookies c :
  driver_found (browsers e (logins w)) = true ->
  navigation_ok (browsers e (logins w)) = true ->
  (forall i, (i < n)%nat -> fruitless e (poll (browsers e (logins w)) i)) ->
  poll (browsers e (logins w)) n = Cookies cookies ->
  find_target e cookies = Some c ->
  truthy c = true ->
  (forall before,
     login_confirmed (remote e before (TARGET_COOKIE_NAME ++ EQUALS ++ c)) = true) ->
  POLL_INTERVAL * Z.of_nat n < MAX_WAIT ->
  exists w',
    browser_login e w
    = Some (LoggedIn (extract_all e c (final_cookies (browsers e (logins w)))), w') /\
    clock w' = clock w + POLL_INTERVAL * Z.of_nat n + 3000.
Proof.
  intros Hd Hn Hf Hp Hc Ht Hok Hlt.
  unfold browser_login. cbv zeta. rewrite Hd, Hn. cbn [negb].
  destruct (rounds_split n Hlt) as [k ->].
  destruct (wait_for_login_skips e (browsers e (logins w))
              (clock (login_started w)) n (S k) 0 (login_started w))
    as (wj & -> & Hcj & _ & _ & _).
  - intros i Hi. apply Hf, Hi.
  - cbn [login_started clock]. unfold MAX_WAIT, POLL_INTERVAL in *. lia.
  - cbn [Nat.add wait_for_login].
    destruct (Z.ltb_spec (clock wj - clock (login_started w)) MAX_WAIT).
    + rewrite Hp, Hc, Ht. unfold post. rewrite Hok.
      eexists. split; [reflexivity|].
      destruct (overlay_ok _), (final_cookies _); cbn; cbn in Hcj; lia.
    + cbn [login_started clock] in *. unfold MAX_WAIT, POLL_INTERVAL in *. lia.
Qed.

Lemma confirmed_cookie_ends_login_witness :
  exists w',
    browser_login Samples.steady_env Samples.fresh_world
    = Some (LoggedIn
              (extract_all Samples.steady_env (lit "A")
                 (final_cookies Samples.steady_browser)), w') /\
    clock w' = clock Samples.fresh_world + POLL_INTERVAL * Z.of_nat 0 + 3000.
Proof.
  apply (confirmed_cookie_ends_login Samples.steady_env Samples.fresh_world 0
           [Samples.session_cookie (lit "A")] (lit "A"));
    try reflexivity.
  intros i Hi. lia.
Defined.

End BrowserMore.

(** * [detect_browser] *)

Module DetectFacts.
Import More.

Lemma find_first {A} (f : A -> bool) l x :
  List.find f l = Some x ->
  exists before after,
    l = before ++ x :: after /\ f x = true /\
    List.Forall (fun y => f y = false) before.
Proof.
  induction l as [|a l IH]; cbn; [discriminate|].
  destruct (f a) eqn:Ha.
  - intros [= <-]. exists [], l. repeat split; [exact Ha|constructor].
  - intros H. destruct (IH H) as (before & after & -> & Hx & Hb).
    exists (a :: before), after. repeat split; [exact Hx|].
    constructor; assumption.
Qed.

(** X19: [detect_browser] returns the first browser of the platform's order that
    starts: every browser before it in the order failed to start, Safari is
    returned on macOS only, and the process is ended exactly when Selenium
    is missing or no browser of the order starts. *)
Theorem detect_browser_takes_first_that_starts m :
  match detect_browser m with
  | Some browser =>
    selenium_available m = true /\
    try_browser m browser = true /\
    (browser = Safari -> platform_system m = Darwin) /\
    exists before after,
      browsers_to_try (platform_system m) = before ++ browser :: after /\
      List.Forall (fun b => try_browser m b = false) before
  | None =>
    selenium_available m = false \/
    List.Forall (fun b => try_browser m b = false)
      (browsers_to_try (platform_system m))
  end.
Proof.
  unfold detect_browser. destruct (selenium_available m); [|left; reflexivity].
  destruct (List.find _ _) as [browser|] eqn:Hf.
  - destruct (find_first _ _ _ Hf) as (before & after & Hl & Hx & Hb).
    split; [reflexivity|]. split; [exact Hx|]. split; [|eauto].
    intros ->. cbn in Hx. destruct (platform_system m); [reflexivity| |];
      discriminate.
  - right. apply List.Forall_forall. intros b Hb.
    exact (find_none _ _ Hf b Hb).
Qed.

Example firefox_when_chrome_fails : detect_browser firefox_only = Some Firefox.
Proof. reflexivity. Qed.

End DetectFacts.

(** * Further properties of the flow *)

Module FlowMore.
Import Codec Vault World Store Validator Browser Flow More.
Import VaultFacts StoreFacts ValidatorFacts BrowserFacts FlowFacts.
Import VaultMore StoreMore ValidatorMore BrowserMore.

(** *** Who starts a login *)

Lemma check_remote_logins e c p v w : logins (check_remote e c p v w).2 = logins w.
Proof.
  unfold check_remote, post.
  destruct (remote e (requests w) (cookie_header c p v)) as [|status []];
    try destruct (status =? 200); reflexivity.
Qed.

Lemma validate_session_cookie_logins e c user_id w :
  logins (validate_session_cookie e c user_id w).2 = logins w.
Proof.
  unfold validate_session_cookie. destruct c as [d|c].
  - apply check_remote_logins.
  - destruct (is_encrypted c); [|apply check_remote_logins].
    destruct (negb (truthy_opt user_id)); [reflexivity|].
    destruct (negb (truthy_opt _)); [reflexivity|apply check_remote_logins].
Qed.

Lemma validate_one_logins e x acc w : logins (validate_one e x acc w).2 = logins w.
Proof.
  unfold validate_one. destruct x as [user_id session_data].
  assert (Hv : forall c,
    logins
      (let '(user_data, w1) :=
         validate_session_cookie e (Plain c) (Some user_id) w in
       match user_data with
       | Some p =>
         (acc ++ [{| vs_user_id := user_id; vs_cookie := c;
                     vs_company_name :=
                       get_or (profile_company_name p)
                         (get_or (company_name session_data) (Some UNKNOWN));
                     vs_user_data := p;
                     vs_login_method :=
                       get_default (login_method session_data) UNKNOWN_METHOD |}],
          w1)
       | None => (acc, log (DExpired user_id) w1)
       end).2 = logins w).
  { intros c.
    pose proof (validate_session_cookie_logins e (Plain c) (Some user_id) w) as H.
    destruct (validate_session_cookie e (Plain c) (Some user_id) w) as [[p|] w1];
      exact H. }
  destruct (is_encrypted (cookie session_data)); [|apply Hv].
  destruct (negb (truthy_opt _)); [reflexivity|apply Hv].
Qed.

Lemma validate_each_logins e items : forall acc w,
  logins (validate_each e items acc w).2 = logins w.
Proof.
  induction items as [|x items IH]; intros acc w; cbn [validate_each]; [reflexivity|].
  pose proof (validate_one_logins e x acc w) as H1.
  destruct (validate_one e x acc w) as [acc1 w1]. rewrite IH. exact H1.
Qed.

Lemma load_sessions_logins w : logins (load_sessions w).2 = logins w.
Proof. pose proof (load_sessions_world w) as (_ & _ & _ & _ & _ & H & _). exact H. Qed.

Lemma validate_all_sessions_logins e w :
  logins (validate_all_sessions e w).2 = logins w.
Proof.
  unfold validate_all_sessions. pose proof (load_sessions_logins w) as Hl.
  destruct (load_sessions w) as [sessions w1]. cbn [snd] in Hl.
  destruct (negb (truthy_loaded sessions)); [exact Hl|].
  destruct sessions as [d|v]; [|exact Hl].
  pose proof (validate_each_logins e (sorted_desc d) [] w1) as H1.
  destruct (validate_each e (sorted_desc d) [] w1) as [valid w2].
  cbn [snd] in *. congruence.
Qed.

Lemma expired_each_logins e items : forall acc w,
  logins (expired_each e items acc w).2 = logins w.
Proof.
  induction items as [|x items IH]; intros acc w; cbn [expired_each]; [reflexivity|].
  assert (H1 : logins (expired_one e x acc w).2 = logins w).
  { unfold expired_one. destruct x as [user_id session_data].
    pose proof (validate_session_cookie_logins e (Plain (cookie session_data))
                  (Some user_id) w) as H.
    destruct (validate_session_cookie _ _ _ _) as [[p|] w1]; exact H. }
  destruct (expired_one e x acc w) as [acc1 w1]. rewrite IH. exact H1.
Qed.

Lemma get_expired_logins e w :
  logins (get_expired_sessions_with_methods e w).2 = logins w.
Proof.
  unfold get_expired_sessions_with_methods. pose proof (load_sessions_logins w) as Hl.
  destruct (load_sessions w) as [sessions w1]. cbn [snd] in Hl.
  destruct (negb (truthy_loaded sessions)); [exact Hl|].
  destruct sessions as [d|v]; [|exact Hl].
  pose proof (expired_each_logins e d [] w1) as H1.
  destruct (expired_each e d [] w1) as [expired w2].
  cbn [snd] in *. congruence.
Qed.

Lemma wait_for_login_logins e b rounds : forall n start w r w',
  wait_for_login e b rounds n start w = Some (r, w') -> logins w' = logins w.
Proof.
  induction rounds as [|rounds IH]; intros n start w r w'; cbn [wait_for_login];
    [discriminate|].
  destruct (clock w - start <? MAX_WAIT); [|intros [= <- <-]; reflexivity].
  destruct (poll b n) as [| |cookies].
  - intros [= <- <-]. reflexivity.
  - intros H%IH. exact H.
  - destruct (find_target e cookies) as [c|]; [destruct (truthy c)|].
    + unfold post. destruct (login_confirmed _).
      * intros [= <- <-]. reflexivity.
      * intros H%IH. exact H.
    + intros H%IH. exact H.
    + intros H%IH. exact H.
Qed.

Lemma browser_login_logins e w o w' :
  browser_login e w = Some (o, w') -> logins w' = S (logins w).
Proof.
  unfold browser_login. cbv zeta. set (b := browsers e (logins w)).
  destruct (driver_found b); cbn [negb]; [|intros [= <- <-]; reflexivity].
  destruct (navigation_ok b); cbn [negb]; [|intros [= <- <-]; reflexivity].
  destruct (wait_for_login e b ROUNDS 0 (clock (login_started w)) (login_started w))
    as [[r w1]|] eqn:Hw; [|discriminate].
  apply wait_for_login_logins in Hw. cbn [login_started logins] in Hw.
  destruct r; intros [= <- <-]; try exact Hw.
  destruct (overlay_ok b), (final_cookies b); cbn; exact Hw.
Qed.

Lemma save_session_logins user_id c n m p pv w :
  logins (save_session user_id c n m p pv w) = logins w.
Proof. apply save_session_is_quiet. Qed.

Lemma refresh_attempt_logins e selected_user_id w out w' :
  refresh_attempt e selected_user_id w = Some (out, w') ->
  logins w' = S (logins w).
Proof.
  unfold refresh_attempt.
  destruct (browser_login e w) as [[[d| |code] w1]|] eqn:Hb; [| | |discriminate];
    apply browser_login_logins in Hb.
  - destruct (has_key d); [|intros [= <- <-]; exact Hb].
    pose proof (validate_session_cookie_logins e (Bundle d) None w1) as H2.
    unfold get_user_from_cookie.
    destruct (validate_session_cookie e (Bundle d) None w1) as [[p|] w2];
      cbn [snd] in H2.
    + destruct (bool_decide _); intros [= <- <-]; cbn [log logins];
        rewrite ?save_session_logins; congruence.
    + intros [= <- <-]. cbn. congruence.
  - intros [= <- <-]. exact Hb.
  - intros [= <- <-]. exact Hb.
Qed.

Lemma new_login_logins e as_main w :
  (new_login e as_main w).2 = w \/
  logins (new_login e as_main w).2 = S (logins w).
Proof.
  unfold new_login.
  destruct (browser_login e w) as [[[d| |code] w1]|] eqn:Hb; [| | |left; reflexivity];
    apply browser_login_logins in Hb; right.
  - destruct (has_key d); [|exact Hb].
    pose proof (validate_session_cookie_logins e (Bundle d) None w1) as H2.
    unfold get_user_from_cookie.
    destruct (validate_session_cookie e (Bundle d) None w1) as [[p|] w2];
      cbn [snd] in H2.
    + destruct as_main; cbn [snd print logins]; rewrite save_session_logins; congruence.
    + cbn. congruence.
  - exact Hb.
  - exact Hb.
Qed.

(** *** The imported module *)

Lemma imported_main e script w :
  stdout (main e false script w).2 = stdout w /\
  match (main e false script w).1 with
  | Exit code => code = 1
  | Return _ | Uncaught _ | Waiting => True
  end.
Proof.
  apply (main_rounds e false
           (fun _ _ w0 => stdout w0 = stdout w)
           (fun _ w0 => stdout w0 = stdout w)
           (fun out w' =>
              stdout w' = stdout w /\
              match out with Exit code => code = 1 | _ => True end)).
  - intros _ _ w0 H0. unfold new_login.
    destruct (browser_login e w0) as [[[d| |code] w1]|] eqn:Hb; cbn [fst snd].
    + pose proof (browser_login_untouched _ _ _ _ Hb) as (_ & _ & _ & H1).
      destruct (has_key d); [|split; [cbn; congruence|exact I]].
      pose proof (get_user_untouched e (Bundle d) w1) as (_ & _ & _ & H2).
      destruct (get_user_from_cookie e (Bundle d) w1) as [[p|] w2]; cbn [fst snd] in *.
      * rewrite save_session_stdout. split; [congruence|exact I].
      * split; [cbn; congruence|exact I].
    + pose proof (browser_login_untouched _ _ _ _ Hb) as (_ & _ & _ & H1).
      split; [cbn; congruence|exact I].
    + pose proof (browser_login_untouched _ _ _ _ Hb) as (_ & _ & _ & H1).
      apply browser_login_exit in Hb as [-> _]. split; [congruence|reflexivity].
    + split; [exact H0|exact I].
  - intros r _ valid w0 H0 _. unfold use_session.
    destruct (List.find _ valid) as [session|];
      [destruct (truthy_opt (vs_cookie session))|]; cbn [fst snd];
      (split; [exact H0|first [exact I|reflexivity]]).
  - intros _ _ w0 H0. split; [exact H0|exact I].
  - intros _ _ w0 H0. split; [exact H0|reflexivity].
  - intros _ _ w0 H0. split; [exact H0|exact I].
  - intros _ _ w0 H0. split; [exact H0|exact I].
  - intros _ _ _ w0 H0. exact H0.
  - intros _ _ w0 selected code w1 H0 Hr.
    apply refresh_attempt_surface in Hr as [Hs Hc].
    destruct (Hc code eq_refl) as [-> _]. split; [congruence|reflexivity].
  - intros _ _ w0 selected w1 H0 Hr.
    apply refresh_attempt_surface in Hr as [Hs _]. congruence.
  - intros _ w0 H0.
    pose proof (validate_all_sessions_untouched e w0) as (_ & _ & _ & H1).
    destruct (validate_all_sessions e w0) as [[valid|x1] w1]; cbn [snd] in H1;
      [|split; [congruence|exact I]].
    pose proof (get_expired_untouched e w1) as (_ & _ & _ & H2).
    destruct (get_expired_sessions_with_methods e w1) as [[expired|x2] w2];
      cbn [snd] in H2; [congruence|split; [congruence|exact I]].
  - reflexivity.
Qed.

(** X20: run as an imported module, [main] writes nothing to the primary
    output and never ends the process with code 0: it returns to its caller,
    exits with code 1, or lets an exception through; [get_user_session],
    which catches that exit and returns [None] for it, leaves the primary
    output as it was too. *)
Theorem imported_run_is_silent e script w :
  stdout (main e false script w).2 = stdout w /\
  match (main e false script w).1 with
  | Exit code => code = 1
  | Return _ | Uncaught _ | Waiting => True
  end /\
  stdout (get_user_session e script w).2 = stdout w /\
  (forall code, (get_user_session e script w).1 <> Exit code).
Proof.
  destruct (imported_main e script w) as [Hs Hc].
  split; [exact Hs|]. split; [exact Hc|].
  unfold get_user_session.
  destruct (main e false script w) as [[code|v|x|] w'];
    (split; [exact Hs|intros c; discriminate]).
Qed.

(** *** The store is written by a login only *)

Lemma store_kept e as_main script w :
  let w' := (main e as_main script w).2 in
  (logins w <= logins w')%nat /\
  (logins w' = logins w -> disk w' = disk w /\ vault_of w' = vault_of w).
Proof.
  set (Inv := fun w0 : world =>
    (logins w <= logins w0)%nat /\
    (logins w0 = logins w -> disk w0 = disk w /\ vault_of w0 = vault_of w)).
  apply (main_rounds e as_main (fun _ _ w0 => Inv w0) (fun _ w0 => Inv w0)
           (fun _ w' => Inv w')).
  - intros _ _ w0 [Hle Hk].
    destruct (new_login_logins e as_main w0) as [-> | Hn].
    + split; assumption.
    + split; [lia|]. intros Heq. lia.
  - intros r _ valid w0 H0 _. unfold use_session.
    destruct (List.find _ valid) as [session|];
      [destruct (truthy_opt (vs_cookie session)); [destruct as_main|]|];
      exact H0.
  - intros _ _ w0 H0. exact H0.
  - intros _ _ w0 H0. exact H0.
  - intros _ _ w0 H0. exact H0.
  - intros _ _ w0 H0. exact H0.
  - intros _ _ _ w0 H0. exact H0.
  - intros _ _ w0 selected code w1 [Hle Hk] Hr.
    apply refresh_attempt_logins in Hr. split; [lia|intros Heq; lia].
  - intros _ _ w0 selected w1 [Hle Hk] Hr.
    apply refresh_attempt_logins in Hr. split; [lia|intros Heq; lia].
  - intros _ w0 [Hle Hk].
    pose proof (validate_all_sessions_untouched e w0) as (Hd & _ & Hv & _).
    pose proof (validate_all_sessions_logins e w0) as Hl.
    destruct (validate_all_sessions e w0) as [[valid|x1] w1]; cbn [snd] in *;
      [|split; [lia|]; rewrite Hl, Hd, Hv; exact Hk].
    pose proof (get_expired_untouched e w1) as (Hd2 & _ & Hv2 & _).
    pose proof (get_expired_logins e w1) as Hl2.
    destruct (get_expired_sessions_with_methods e w1) as [[expired|x2] w2];
      cbn [snd] in *;
      (split; [lia|]; rewrite Hl2, Hd2, Hv2, Hl, Hd, Hv; exact Hk).
  - split; [lia|]. intros _. split; reflexivity.
Qed.

(** X21: [main] changes the sessions document and the vault only in a run
    that has started a browser login: when it ends without one (a stored
    session was used, or the selection was cancelled or invalid), both are
    what they were. *)
Theorem store_written_only_after_login e as_main script w :
  logins (main e as_main script w).2 = logins w ->
  disk (main e as_main script w).2 = disk w /\
  vault_of (main e as_main script w).2 = vault_of w.
Proof. intros H. apply (proj2 (store_kept e as_main script w)), H. Qed.

Lemma store_written_only_after_login_witness :
  disk (main Samples.idle_env true [None] Samples.stored_world).2
    = disk Samples.stored_world /\
  vault_of (main Samples.idle_env true [None] Samples.stored_world).2
    = vault_of Samples.stored_world.
Proof.
  apply (store_written_only_after_login Samples.idle_env true [None]
           Samples.stored_world).
  vm_compute. reflexivity.
Defined.

(** *** A run with no stored session *)

Lemma main_empty_store e as_main script w :
  truthy_loaded (load_sessions w).1 = false ->
  main e as_main script w
  = new_login e as_main (load_sessions (load_sessions w).2).2.
Proof.
  intros He. unfold main, validate_all_sessions, get_expired_sessions_with_methods.
  pose proof (load_sessions_world w) as (Hd & _).
  pose proof (load_sessions_same_disk _ _ Hd) as H1.
  destruct (load_sessions w) as [sessions w1]. cbn [fst snd] in *.
  rewrite He. cbn [negb].
  destruct (load_sessions w1) as [sessions1 w2]. cbn [fst snd] in *.
  subst sessions1. rewrite He. cbn [negb].
  destruct script; reflexivity.
Qed.

(** X22: with no stored session (the document is missing, unreadable, corrupt,
    an empty mapping or another JSON value that counts as false) [main] does
    not consult the operator: whatever the script of answers, it starts
    exactly one browser login and ends, without waiting for an answer. *)
Theorem empty_store_goes_to_login e as_main script w :
  truthy_loaded (load_sessions w).1 = false ->
  main e as_main script w = main e as_main [] w /\
  (main e as_main script w).1 <> Waiting /\
  logins (main e as_main script w).2 = S (logins w).
Proof.
  intros He. rewrite !(main_empty_store e as_main _ w He).
  split; [reflexivity|].
  pose proof (load_sessions_world w) as (_ & _ & _ & _ & _ & Hl1 & _).
  pose proof (load_sessions_world (load_sessions w).2) as (_ & _ & _ & _ & _ & Hl2 & _).
  cbv zeta in Hl1, Hl2.
  set (w2 := (load_sessions (load_sessions w).2).2) in *.
  assert (Hl : logins w2 = logins w) by congruence. clearbody w2.
  unfold new_login.
  destruct (browser_login_total e w2) as (o & w3 & Hb). rewrite Hb.
  apply browser_login_logins in Hb.
  destruct o as [d| |code]; cbn [fst snd].
  - destruct (has_key d).
    + pose proof (validate_session_cookie_logins e (Bundle d) None w3) as H2.
      unfold get_user_from_cookie.
      destruct (validate_session_cookie e (Bundle d) None w3) as [[p|] w4];
        cbn [snd] in H2.
      * destruct as_main; cbn [fst snd print logins]; rewrite save_session_logins;
          (split; [discriminate|congruence]).
      * destruct as_main; cbn; (split; [discriminate|congruence]).
    + destruct as_main; cbn; (split; [discriminate|congruence]).
  - destruct as_main; cbn; (split; [discriminate|congruence]).
  - split; [discriminate|congruence].
Qed.

Lemma empty_store_goes_to_login_witness :
  main Samples.steady_env true [None; None] Samples.fresh_world
    = main Samples.steady_env true [] Samples.fresh_world /\
  (main Samples.steady_env true [None; None] Samples.fresh_world).1 <> Waiting /\
  logins (main Samples.steady_env true [None; None] Samples.fresh_world).2
    = S (logins Samples.fresh_world).
Proof.
  apply (empty_store_goes_to_login Samples.steady_env true [None; None]
           Samples.fresh_world).
  reflexivity.
Defined.

(** *** What a login leaves in the store *)

Lemma save_session_stored user_id c n m p pv w d0 :
  disk_writable w = true ->
  (load_sessions w).1 = Sessions d0 ->
  let w' := save_session user_id c n m p pv w in
  exists d r,
    (load_sessions w').1 = Sessions d /\
    dict_get user_id d = Some r /\
    company_name r = slot_of n /\
    login_method r = Some m /\
    timestamp r = Some (clock w ÷ 1000) /\
    forall k, k <> user_id -> dict_get k d = dict_get k d0.
Proof.
  intros Hw Hl w'.
  destruct (save_session_writable user_id c n m p pv w d0 Hw Hl) as (Hd & _).
  fold w' in Hd.
  destruct (build_record_fields (vault_of w) (clock w) user_id c n m p pv)
    as (_ & F2 & F3 & F4 & _).
  eexists _, _. split; [exact (load_sessions_document _ _ Hd)|].
  split; [apply dict_get_set_eq|].
  split; [exact F3|]. split; [exact F4|]. split; [exact F2|].
  intros k Hk. apply dict_get_set_ne, Hk.
Qed.

(** The company name that a login files: the name that the service sent,
    null when it sent null, "Unknown" when its profile has no such key. *)
Lemma filed_company_name (f : slot str) :
  slot_of (get_or f (Some UNKNOWN))
  = match f with
    | Absent => Holds UNKNOWN
    | Null => Null
    | Holds name => Holds name
    end.
Proof. destruct f; reflexivity. Qed.

(** X23: a browser login that returns cookies which the service confirms for
    a profile ends [main]'s new-login branch in success, when the disk can
    be written and the document holds a mapping: exit code 0 with the
    account id as the one new line of the primary output (as a module: the
    id is returned and nothing is printed), and the document then holds,
    under [str(id)], a record with the login method "browser", the time of
    the save in whole seconds and the company name as the service sent it
    (null when it sent null, "Unknown" when it sent none), while the records
    of all other accounts are as before. *)
Theorem new_login_stores_account e as_main w d0 renewal w1 p :
  browser_login e w = Some (LoggedIn renewal, w1) ->
  has_key renewal = true ->
  (get_user_from_cookie e (Bundle renewal) w1).1 = Some p ->
  disk_writable w = true ->
  (load_sessions w).1 = Sessions d0 ->
  let out := (new_login e as_main w).1 in
  let w' := (new_login e as_main w).2 in
  let user_id := str_of_opt_id (profile_id p) in
  out = (if as_main then Exit 0 else Return (profile_id p)) /\
  stdout w' = (if as_main then stdout w ++ [user_id] else stdout w) /\
  exists d r,
    (load_sessions w').1 = Sessions d /\
    dict_get user_id d = Some r /\
    company_name r
    = match profile_company_name p with
      | Absent => Holds UNKNOWN
      | Null => Null
      | Holds name => Holds name
      end /\
    login_method r = Some BROWSER /\
    timestamp r
    = Some (clock (get_user_from_cookie e (Bundle renewal) w1).2 ÷ 1000) /\
    forall k, k <> user_id -> dict_get k d = dict_get k d0.
Proof.
  intros Hb Hk Hp Hw Hl. cbv zeta. unfold new_login. rewrite Hb, Hk.
  pose proof (browser_login_untouched _ _ _ _ Hb) as (Hd1 & Hw1 & _ & Hs1).
  pose proof (get_user_untouched e (Bundle renewal) w1) as (Hd2 & Hw2 & _ & Hs2).
  destruct (get_user_from_cookie e (Bundle renewal) w1) as [o w2].
  cbn [fst snd] in *. subst o.
  assert (Hw3 : disk_writable w2 = true) by congruence.
  assert (Hl2 : (load_sessions w2).1 = Sessions d0).
  { rewrite <- Hl. apply load_sessions_same_disk. congruence. }
  destruct (save_session_stored (str_of_opt_id (profile_id p)) (Bundle renewal)
              (get_or (profile_company_name p) (Some UNKNOWN)) BROWSER None None
              w2 d0 Hw3 Hl2) as (d & r & Hr1 & Hr2 & Hr3 & Hr4 & Hr5 & Hr6).
  rewrite filed_company_name in Hr3.
  assert (Hpr : forall line w0, (load_sessions (print line w0)).1 = (load_sessions w0).1).
  { intros line w0. apply load_sessions_same_disk. reflexivity. }
  destruct as_main; cbn [fst snd].
  - split; [reflexivity|]. split.
    + cbn [print stdout]. rewrite save_session_stdout. congruence.
    + exists d, r. rewrite Hpr. auto 7.
  - split; [reflexivity|]. split.
    + rewrite save_session_stdout. congruence.
    + exists d, r. auto 7.
Qed.

Lemma new_login_stores_account_witness :
  exists renewal w1,
    browser_login Samples.steady_env Samples.stored_world
      = Some (LoggedIn renewal, w1) /\
    let out := (new_login Samples.steady_env true Samples.stored_world).1 in
    let w' := (new_login Samples.steady_env true Samples.stored_world).2 in
    let user_id := str_of_opt_id (profile_id Samples.acme) in
    out = Exit 0 /\
    stdout w' = stdout Samples.stored_world ++ [user_id] /\
    exists d r,
      (load_sessions w').1 = Sessions d /\
      dict_get user_id d = Some r /\
      company_name r = Holds (lit "Acme Co") /\
      login_method r = Some BROWSER /\
      timestamp r
      = Some (clock (get_user_from_cookie Samples.steady_env (Bundle renewal) w1).2
              ÷ 1000) /\
      forall k, k <> user_id ->
        dict_get k d = dict_get k [(lit "7", Samples.stale_record)].
Proof.
  destruct (browser_login Samples.steady_env Samples.stored_world)
    as [[[renewal| |code] w1]|] eqn:Hb; try (vm_compute in Hb; discriminate).
  exists renewal, w1. split; [reflexivity|].
  apply (new_login_stores_account Samples.steady_env true Samples.stored_world
           [(lit "7", Samples.stale_record)] renewal w1 Samples.acme).
  - exact Hb.
  - vm_compute in Hb. injection Hb as <- <-. reflexivity.
  - vm_compute in Hb. injection Hb as <- <-. vm_compute. reflexivity.
  - reflexivity.
  - reflexivity.
Defined.

(** X24: a refresh whose browser login authenticates the selected account
    reports the refresh and writes nothing to the primary output. When the
    disk can be written and the document holds a mapping, the renewed
    record is then stored under the selected id, with the login method
    "browser" and the company name as the service sent it (null when it
    sent null, "Unknown" when it sent none), and the records of the other
    accounts are as before; when the record cannot be stored (the disk
    refuses the write, or the document holds no mapping) the refresh is
    reported all the same, although the document is what it was. *)
Theorem refresh_of_selected_account e selected_user_id w renewal w1 p :
  browser_login e w = Some (LoggedIn renewal, w1) ->
  has_key renewal = true ->
  (get_user_from_cookie e (Bundle renewal) w1).1 = Some p ->
  str_of_opt_id (profile_id p) = str_of_opt_id selected_user_id ->
  exists w',
    refresh_attempt e selected_user_id w = Some (None, w') /\
    last (stderr w') = Some DRefreshed /\
    stdout w' = stdout w /\
    (forall d0,
       disk_writable w = true ->
       (load_sessions w).1 = Sessions d0 ->
       exists d r,
         (load_sessions w').1 = Sessions d /\
         dict_get (str_of_opt_id selected_user_id) d = Some r /\
         company_name r
         = match profile_company_name p with
           | Absent => Holds UNKNOWN
           | Null => Null
           | Holds name => Holds name
           end /\
         login_method r = Some BROWSER /\
         forall k, k <> str_of_opt_id selected_user_id ->
           dict_get k d = dict_get k d0) /\
    (disk_writable w = false \/ (exists j, (load_sessions w).1 = Other j) ->
     disk w' = disk w).
Proof.
  intros Hb Hk Hp Hid. unfold refresh_attempt. rewrite Hb, Hk.
  pose proof (browser_login_untouched _ _ _ _ Hb) as (Hd1 & Hw1 & _ & Hs1).
  pose proof (get_user_untouched e (Bundle renewal) w1) as (Hd2 & Hw2 & _ & Hs2).
  destruct (get_user_from_cookie e (Bundle renewal) w1) as [o w2].
  cbn [fst snd] in *. subst o. rewrite bool_decide_eq_true_2 by exact Hid.
  assert (Hl2 : (load_sessions w2).1 = (load_sessions w).1).
  { apply load_sessions_same_disk. congruence. }
  eexists. split; [reflexivity|].
  split; [cbn [log stderr]; apply last_snoc|].
  split; [cbn [log stdout]; rewrite save_session_stdout; congruence|].
  assert (Hlog : forall x w0, (load_sessions (log x w0)).1 = (load_sessions w0).1).
  { intros x w0. apply load_sessions_same_disk. reflexivity. }
  split.
  - intros d0 Hw Hl. assert (Hw3 : disk_writable w2 = true) by congruence.
    rewrite <- Hl2 in Hl.
    destruct (save_session_stored (str_of_opt_id (profile_id p)) (Bundle renewal)
                (get_or (profile_company_name p) (Some UNKNOWN)) BROWSER None None
                w2 d0 Hw3 Hl) as (d & r & Hr1 & Hr2 & Hr3 & Hr4 & _ & Hr6).
    rewrite filed_company_name in Hr3.
    exists d, r. rewrite Hlog, <- Hid. auto 7.
  - intros Hr. cbn [log disk].
    destruct (save_session_refused (str_of_opt_id (profile_id p)) (Bundle renewal)
                (get_or (profile_company_name p) (Some UNKNOWN)) BROWSER None None
                w2) as [Hd _].
    + destruct Hr as [Hr|[j Hj]]; [left; congruence|right; exists j; congruence].
    + congruence.
Qed.

Lemma refresh_of_selected_account_witness :
  exists renewal w1 w',
    browser_login Samples.steady_env locked_world = Some (LoggedIn renewal, w1) /\
    refresh_attempt Samples.steady_env (Some (IdStr (lit "42"))) locked_world
      = Some (None, w') /\
    last (stderr w') = Some DRefreshed /\
    stdout w' = stdout locked_world /\
    disk w' = disk locked_world.
Proof.
  destruct (browser_login Samples.steady_env locked_world)
    as [[[renewal| |code] w1]|] eqn:Hb; try (vm_compute in Hb; discriminate).
  destruct (refresh_of_selected_account Samples.steady_env
              (Some (IdStr (lit "42"))) locked_world renewal w1 Samples.acme)
    as (w' & Hr & Hl & Hs & _ & Hd).
  - exact Hb.
  - vm_compute in Hb. injection Hb as <- <-. reflexivity.
  - vm_compute in Hb. injection Hb as <- <-. vm_compute. reflexivity.
  - reflexivity.
  - exists renewal, w1, w'. repeat split; try assumption.
    apply Hd. left. reflexivity.
Defined.

End FlowMore.
